(** * Agora client: the submission coordination core

    A shallow embedding of [agora/client/client.py]: the retry
    configuration, the nonce-refresh loop of [_sign_and_submit_builder],
    single payments ([submit_payment]) and batched earns
    ([submit_earn_batch]).  Python objects become records, exceptions an
    explicit outcome type, and the gRPC service an oracle that answers
    every call from the history of the calls made so far. *)

From Stdlib Require Import String Ascii DecimalString Floats.
From Stdlib Require Import List ZArith Lia Bool.
From Equations Require Import Equations.
Import ListNotations.

Open Scope Z_scope.

(** ** Python values *)

(** [bytes] objects. *)
Definition bytes := list Byte.byte.

(** A number that is either an [int] or a [float]: the delays of
    [RetryConfig] are annotated [float], and their defaults are the
    literals [0.5] and [10]. *)
Inductive pynum : Type :=
| PyInt (z : Z)
| PyFloat (f : float).

(** [x >= 0] on such a number ([nan >= 0] is [False]). *)
Definition pynum_ge0 (x : pynum) : bool :=
  match x with
  | PyInt z => 0 <=? z
  | PyFloat f => PrimFloat.leb 0%float f
  end.

(** Truth value of an [Optional[str]]: [None] and the empty string are
    both false. *)
Definition truthy_str (s : option string) : bool :=
  match s with
  | None => false
  | Some EmptyString => false
  | Some (String _ _) => true
  end.

(** Truth value of an [Optional] object whose class defines neither
    [__bool__] nor [__len__]. *)
Definition truthy_obj {A : Type} (o : option A) : bool :=
  match o with
  | None => false
  | Some _ => true
  end.

(** Truth value of a list. *)
Definition truthy_list {A : Type} (l : list A) : bool :=
  match l with
  | [] => false
  | _ :: _ => true
  end.

(** [str(n)] of a length, for the f-strings of the error messages. *)
Definition str_of_nat (n : nat) : string :=
  NilEmpty.string_of_uint (Nat.to_uint n).

(** ** Errors ([agora.error]) and the exceptions the client meets *)

(** The classes imported from [agora.error]; [Error msg] is the base
    class instantiated directly, every other constructor a subclass. *)
Inductive AgoraError : Type :=
| Error (msg : string)
| AccountExistsError
| AccountNotFoundError
| InvoiceError
| UnsupportedVersionError
| TransactionMalformedError
| SenderDoesNotExistError
| InsufficientBalanceError
| DestinationDoesNotExistError
| InsufficientFeeError
| BadNonceError
| TransactionRejectedError
| AlreadyPaidError
| WrongDestinationError
| SkuNotFoundError.

(** Every exception the modelled code can see: an instance of the
    library's [Error], or one of the builtin or foreign exceptions. *)
Inductive exn : Type :=
| Agora (e : AgoraError)
| ValueError (msg : string)
| IndexError
| OtherException (name : string).

(** [isinstance(e, Error)]. *)
Definition isinstance_Error (e : exn) : bool :=
  match e with
  | Agora _ => true
  | _ => false
  end.

Definition is_BadNonceError (e : AgoraError) : bool :=
  match e with
  | BadNonceError => true
  | _ => false
  end.

(** [isinstance(e, BadNonceError)]. *)
Definition isinstance_BadNonceError (e : exn) : bool :=
  match e with
  | Agora a => is_BadNonceError a
  | _ => false
  end.

Inductive InvoiceErrorReason : Type :=
| UNKNOWN_REASON
| ALREADY_PAID
| WRONG_DESTINATION
| SKU_NOT_FOUND.

(** ** RetryConfig *)

Record RetryConfig : Type := mkRetryConfig {
  max_retries : Z;
  min_delay : pynum;
  max_delay : pynum;
  max_nonce_refreshes : Z
}.

(** [RetryConfig.__init__]: each field is the argument when it is not
    [None] and [>= 0], and the literal default otherwise. *)
Definition RetryConfig__init__
    (max_retries_arg : option Z) (min_delay_arg max_delay_arg : option pynum)
    (max_nonce_refreshes_arg : option Z) : RetryConfig :=
  {| max_retries :=
       match max_retries_arg with
       | Some v => if 0 <=? v then v else 5
       | None => 5
       end;
     min_delay :=
       match min_delay_arg with
       | Some v => if pynum_ge0 v then v else PyFloat 0.5%float
       | None => PyFloat 0.5%float
       end;
     max_delay :=
       match max_delay_arg with
       | Some v => if pynum_ge0 v then v else PyInt 10
       | None => PyInt 10
       end;
     max_nonce_refreshes :=
       match max_nonce_refreshes_arg with
       | Some v => if 0 <=? v then v else 3
       | None => 3
       end |}.

(** ** Keys, invoices, earns and payments *)

Record PrivateKey : Type := mkPrivateKey { stellar_seed : string }.
Record PublicKey : Type := mkPublicKey { stellar_address : string }.

Record LineItem : Type := mkLineItem { title : string; amount : Z }.
Record Invoice : Type := mkInvoice { items : list LineItem }.
Record InvoiceList : Type := mkInvoiceList { invoices : list Invoice }.

Inductive TransactionType : Type := UNKNOWN | NONE | EARN | SPEND | P2P.

Module Earn.
Record t : Type := mk {
  destination : PublicKey;
  quarks : Z;
  invoice : option Invoice
}.
End Earn.

Module Payment.
Record t : Type := mk {
  sender : PrivateKey;
  destination : PublicKey;
  tx_type : TransactionType;
  quarks : Z;
  channel : option PrivateKey;
  invoice : option Invoice;
  memo : option string
}.
End Payment.

(** Modelled from the spec: the class [Payment] ([agora.model.payment])
    is not part of the client module.  Its free-text memo is "mutually
    exclusive with invoice" (section 3): the constructor raises a
    [ValueError] when it is given both, and otherwise keeps what it is
    given.  The spec does not give the text of the message. *)
Definition Payment__init__ (sender : PrivateKey) (destination : PublicKey)
    (tx_type : TransactionType) (quarks : Z) (channel : option PrivateKey)
    (invoice : option Invoice) (memo : option string) : exn + Payment.t :=
  if truthy_obj invoice && truthy_str memo then
    inl (ValueError "only one of invoice or memo can be set"%string)
  else inr (Payment.mk sender destination tx_type quarks channel invoice memo).

(** ** Results of a submission ([agora.client.internal], [agora.model.result]) *)

(** Modelled from the spec: the classes [TransactionErrors],
    [SubmitTransactionResult], [EarnResult] and [BatchEarnResult] are not
    part of the client module; their fields are the attributes the client
    reads and the keyword arguments it passes.  A transaction-level error
    carries an optional whole-transaction error and a list of
    per-operation errors; an absent list of invoice errors and an empty
    one are both false, and are modelled by the empty list. *)
Module TransactionErrors.
Record t : Type := mk {
  tx_error : option AgoraError;
  op_errors : list AgoraError
}.
End TransactionErrors.

Record InvoiceErrorEntry : Type := mkInvoiceErrorEntry {
  reason : InvoiceErrorReason
}.

Module SubmitTransactionResult.
Record t : Type := mk {
  tx_hash : bytes;
  tx_error : option TransactionErrors.t;
  invoice_errors : list InvoiceErrorEntry
}.
End SubmitTransactionResult.

Module EarnResult.
Record t : Type := mk {
  earn : Earn.t;
  tx_hash : option bytes;
  error : option AgoraError
}.
End EarnResult.

Module BatchEarnResult.
Record t : Type := mk {
  succeeded : list EarnResult.t;
  failed : list EarnResult.t
}.
End BatchEarnResult.

Record AccountInfo : Type := mkAccountInfo {
  sequence_number : Z;
  balance : Z
}.

(** ** The transaction builder ([kin_base.Builder])

    The builder is an opaque collaborator: the model keeps what the
    client puts into it and hands the whole of it to the service in place
    of the serialised envelope. *)

Inductive Memo : Type :=
| TextMemo (text : string)
| HashMemo (val : bytes).

Record PaymentOp : Type := mkPaymentOp {
  op_destination : string;
  op_amount : string;
  op_source : string;
  op_asset_issuer : option string
}.

Module Builder.
Record t : Type := mk {
  network : string;
  fee : Z;
  secret : string;
  memo : option Memo;
  ops : list PaymentOp;
  sequence : option Z;
  signatures : list string
}.

(** [add_memo]: the memo is set; [add_text_memo] and [add_hash_memo]
    end in it. *)
Definition add_memo (b : t) (m : Memo) : t :=
  mk (network b) (fee b) (secret b) (Some m) (ops b)
     (sequence b) (signatures b).

Definition add_hash_memo (b : t) (val : bytes) : t :=
  mk (network b) (fee b) (secret b) (Some (HashMemo val)) (ops b)
     (sequence b) (signatures b).

Definition append_payment_op (b : t) (op : PaymentOp) : t :=
  mk (network b) (fee b) (secret b) (memo b) (ops b ++ [op])
     (sequence b) (signatures b).

(** [builder.tx = None; builder.te = None]: the generated transaction
    and its envelope, signatures included, are dropped. *)
Definition reset (b : t) : t :=
  mk (network b) (fee b) (secret b) (memo b) (ops b) (sequence b) [].

Definition set_sequence (b : t) (n : Z) : t :=
  mk (network b) (fee b) (secret b) (memo b) (ops b) (Some n)
     (signatures b).

Definition sign (b : t) (seed : string) : t :=
  mk (network b) (fee b) (secret b) (memo b) (ops b) (sequence b)
     (signatures b ++ [seed]).
End Builder.

(** ** The service and the other collaborators *)

(** What the client has done to the outside so far, oldest call first. *)
Inductive Call : Type :=
| GetAccountInfo (key : PublicKey)
| SubmitTransaction (tx : Builder.t) (invoice_list : option InvoiceList).

Definition World : Type := list Call.

(** The collaborators outside the client module.  The two replies are
    those of [V3InternalClient.get_account_info] and
    [V3InternalClient.submit_transaction]: each may depend on everything
    the client did before, and is a value or a raised exception.

    Two of the calls the client makes while it builds a transaction can
    raise.  [AgoraMemo_new] is [AgoraMemo.new(...).val]: the bytes of the
    memo, or the exception of [AgoraMemo.new], which is a [ValueError]
    for an app index above 65535, the largest one the memo can hold.
    [text_memo_error] is the exception, if any, that the constructor
    [kin_base.memo.TextMemo] raises for a text: a [NotValidParamError]
    for a text of more than 28 bytes (a string is the list of its
    bytes). *)
Class Collaborators : Type := {
  public_key : PrivateKey -> PublicKey;
  quarks_to_kin : Z -> string;
  get_sha_224_hash : InvoiceList -> bytes;
  AgoraMemo_new : Z -> TransactionType -> Z -> bytes -> exn + bytes;
  AgoraMemo_new_app_index :
    forall version tx_type app_index foreign_key,
      65535 < app_index ->
      exists msg,
        AgoraMemo_new version tx_type app_index foreign_key
        = inl (ValueError msg);
  text_memo_error : string -> option exn;
  text_memo_error_long :
    forall text,
      (28 < String.length text)%nat ->
      text_memo_error text = Some (OtherException "NotValidParamError"%string);
  str_of_reason : InvoiceErrorReason -> string;
  KIN_2_PROD_NETWORK : string;
  KIN_2_TEST_NETWORK : string;
  account_info_reply : World -> PublicKey -> exn + AccountInfo;
  submit_reply :
    World -> Builder.t -> option InvoiceList ->
    exn + SubmitTransactionResult.t
}.

(** [builder.add_text_memo(text)]: the [TextMemo] is built first, and
    its constructor may raise; the memo is then set. *)
Definition add_text_memo `{Collaborators} (b : Builder.t) (text : string)
  : exn + Builder.t :=
  match text_memo_error text with
  | Some e => inl e
  | None => inr (Builder.add_memo b (TextMemo text))
  end.

(** ** Computations: state, exceptions and fuel *)

Inductive outcome (A : Type) : Type :=
| Ret (a : A)
| Raise (e : exn)
| OutOfFuel.
Arguments Ret {A} a.
Arguments Raise {A} e.
Arguments OutOfFuel {A}.

Definition M (St A : Type) : Type := St -> outcome A * St.

Definition ret {St A : Type} (a : A) : M St A := fun st => (Ret a, st).

Definition raise {St A : Type} (e : exn) : M St A := fun st => (Raise e, st).

Definition bind {St A B : Type} (m : M St A) (k : A -> M St B) : M St B :=
  fun st =>
    match m st with
    | (Ret a, st') => k a st'
    | (Raise e, st') => (Raise e, st')
    | (OutOfFuel, st') => (OutOfFuel, st')
    end.

Declare Scope py_scope.
Delimit Scope py_scope with py.
Notation "x <- m ;; k" := (bind m (fun x => k))
  (at level 100, m at next level, right associativity) : py_scope.
Notation "m ;;; k" := (bind m (fun _ => k))
  (at level 100, right associativity) : py_scope.

Definition of_reply {A : Type} (r : exn + A) : outcome A :=
  match r with
  | inl e => Raise e
  | inr a => Ret a
  end.

(** ** Retry strategies and the retry executor ([agora.retry]) *)

(** Modelled from the spec: [agora.retry] is not part of the client
    module.  A strategy decides from the attempt that has just failed
    (its index, counted from 0) and from the error it raised. *)
Inductive Decision : Type :=
| ContinueImmediately
| ContinueAfter (delay : N)
| StopExhausted
| StopNonRetriable.

Definition Strategy : Type := nat -> exn -> Decision.

(** An exception class, as the [isinstance] test against it. *)
Definition ErrorClass : Type := exn -> bool.

(** Modelled from the spec: [NonRetriableErrorsStrategy], which stops on
    an error whose kind is in the blocklist. *)
Definition NonRetriableErrorsStrategy (blocklist : list ErrorClass) : Strategy :=
  fun _ e =>
    if existsb (fun cls => cls e) blocklist then StopNonRetriable
    else ContinueImmediately.

(** Modelled from the spec: [RetriableErrorsStrategy], which continues
    only on an error whose kind is in the allowlist. *)
Definition RetriableErrorsStrategy (allowlist : list ErrorClass) : Strategy :=
  fun _ e =>
    if existsb (fun cls => cls e) allowlist then ContinueImmediately
    else StopNonRetriable.

(** Modelled from the spec: [LimitStrategy], which stops once the
    attempts made, the first included, have reached [max_attempts]:
    after the attempt of index [i] has failed, [i + 1] attempts were
    made. *)
Definition LimitStrategy (max_attempts : Z) : Strategy :=
  fun attempt _ =>
    if Z.of_nat (S attempt) <? max_attempts then ContinueImmediately
    else StopExhausted.

(** All strategies are evaluated, in order; [None] when one of them
    stops, and otherwise the longest delay asked for. *)
Fixpoint evaluate (strategies : list Strategy) (attempt : nat) (e : exn)
  : option N :=
  match strategies with
  | [] => Some 0%N
  | s :: rest =>
      match s attempt e, evaluate rest attempt e with
      | ContinueImmediately, Some d => Some d
      | ContinueAfter d', Some d => Some (N.max d' d)
      | _, _ => None
      end
  end.

Section Retry.
Context {St A : Type}.
Variable sleep : N -> St -> St.

(** Modelled from the spec: the retry executor.  The operation runs;
    a value is returned at once; after a failure the strategies are
    consulted, and either the failure is propagated or the executor
    sleeps and runs the operation again.  The loop of the source is
    unbounded, hence the fuel: one unit for each run of the
    operation. *)
Fixpoint retry_from (fuel : nat) (strategies : list Strategy) (f : M St A)
    (attempt : nat) : M St A :=
  fun st =>
    match fuel with
    | O => (OutOfFuel, st)
    | S fuel' =>
        match f st with
        | (Ret a, st') => (Ret a, st')
        | (Raise e, st') =>
            match evaluate strategies attempt e with
            | None => (Raise e, st')
            | Some d =>
                retry_from fuel' strategies f (S attempt) (sleep d st')
            end
        | (OutOfFuel, st') => (OutOfFuel, st')
        end
    end.

Definition retry (fuel : nat) (strategies : list Strategy) (f : M St A)
  : M St A :=
  retry_from fuel strategies f O.
End Retry.

(** ** [agora.utils.partition] *)

(** Modelled from the spec: [partition] is not part of the client
    module.  The list is split, in order, into sub-batches of [n]
    elements, the last of which may be smaller.  The client only calls it
    with [n = 100]; for [n = 0] the model yields no sub-batch. *)
Equations? partition {A : Type} (l : list A) (n : nat) : list (list A)
  by wf (length l) lt :=
  partition [] _ := [];
  partition (x :: xs) O := [];
  partition (x :: xs) (S m) :=
    firstn (S m) (x :: xs) :: partition (skipn (S m) (x :: xs)) (S m).
Proof.
  simpl. pose proof (length_skipn m xs). lia.
Qed.

(** ** The client *)

Inductive Environment : Type := PRODUCTION | TEST.

Definition _SUPPORTED_VERSIONS : list Z := [2; 3].

(** [kin_version in _SUPPORTED_VERSIONS]. *)
Definition supported_version (kin_version : Z) : bool :=
  existsb (Z.eqb kin_version) _SUPPORTED_VERSIONS.

Definition _KIN_2_ISSUERS (env : Environment) : string :=
  match env with
  | PRODUCTION =>
      "GDF42M3IPERQCBLWFEZKQRK77JQ65SCKTU3CW36HZVCX7XX5A5QXZIVK"%string
  | TEST =>
      "GBC3SG6NGTSZ2OMH3FFGB7UVRQWILW367U4GSOOF4TFSZONV42UJXUH7"%string
  end.

(** [str(n)] of an integer. *)
Definition str_of_Z (z : Z) : string :=
  NilEmpty.string_of_int (Z.to_int z).

Record Client : Type := mkClient {
  network_name : string;
  app_index : Z;
  whitelist_key : option PrivateKey;
  _nonce_retry_strategies : list Strategy;
  _kin_version : Z;
  _asset_issuer : option string
}.

(** [retry_config if retry_config else RetryConfig()]. *)
Definition effective_retry_config (retry_config : option RetryConfig)
  : RetryConfig :=
  match retry_config with
  | Some cfg => cfg
  | None => RetryConfig__init__ None None None None
  end.

(** The strategies of the nonce loop, as [Client.__init__] builds them. *)
Definition nonce_retry_strategies (retry_config : RetryConfig) : list Strategy :=
  [ RetriableErrorsStrategy [isinstance_BadNonceError];
    LimitStrategy (max_nonce_refreshes retry_config + 1) ].

Section ClientModel.
Context `{Collaborators}.

(** [_NETWORK_NAMES[kin_version][env]], for a supported version. *)
Definition _NETWORK_NAMES (kin_version : Z) (env : Environment) : string :=
  if kin_version =? 2 then
    match env with
    | PRODUCTION => KIN_2_PROD_NETWORK
    | TEST => KIN_2_TEST_NETWORK
    end
  else
    match env with
    | PRODUCTION => "PUBLIC"%string
    | TEST => "TESTNET"%string
    end.

(** [Client.__init__].  The gRPC channel and the internal client with
    its own, outer retry strategies are behind the service; of the two
    only the test that both [grpc_channel] and [endpoint] are given is
    kept. *)
Definition Client__init__ (env : Environment) (app_index_arg : Z)
    (whitelist_key_arg : option PrivateKey) (grpc_channel : bool)
    (endpoint : option string) (retry_config : option RetryConfig)
    (kin_version : Z) : exn + Client :=
  if negb (supported_version kin_version) then
    inl (ValueError
           (str_of_Z kin_version ++ " is not a supported version of Kin")%string)
  else if grpc_channel && truthy_str endpoint then
    inl (ValueError "`grpc_channel` and `endpoint` cannot both be set"%string)
  else
    let retry_config := effective_retry_config retry_config in
    inr {| network_name := _NETWORK_NAMES kin_version env;
           app_index := app_index_arg;
           whitelist_key := whitelist_key_arg;
           _nonce_retry_strategies := nonce_retry_strategies retry_config;
           _kin_version := kin_version;
           _asset_issuer :=
             if kin_version =? 2 then Some (_KIN_2_ISSUERS env) else None |}.

(** *** The internal client *)

Definition get_account_info (key : PublicKey) : M World AccountInfo :=
  fun w => (of_reply (account_info_reply w key), w ++ [GetAccountInfo key]).

Definition submit_transaction (tx : Builder.t)
    (invoice_list : option InvoiceList)
  : M World SubmitTransactionResult.t :=
  fun w =>
    (of_reply (submit_reply w tx invoice_list),
     w ++ [SubmitTransaction tx invoice_list]).

(** *** [_get_stellar_builder] *)

Definition _get_stellar_builder (c : Client) (source : PrivateKey)
  : Builder.t :=
  Builder.mk (network_name c) 100 (stellar_seed source) None [] None [].

(** *** [_sign_and_submit_builder] *)

(** What the closure [_sign_and_submit] shares with its caller: the
    [nonlocal offset], the builder it mutates, and the outside. *)
Record NonceLoop : Type := mkNonceLoop {
  offset : Z;
  builder : Builder.t;
  world : World
}.

(** Waiting between two attempts changes nothing of what the loop
    shares: time is not part of the model. *)
Definition nonce_sleep (d : N) (st : NonceLoop) : NonceLoop := st.

(** [result.tx_error and isinstance(result.tx_error.tx_error,
    BadNonceError)]: the whole-transaction error when the test holds. *)
Definition bad_nonce (result : SubmitTransactionResult.t)
  : option AgoraError :=
  match SubmitTransactionResult.tx_error result with
  | Some err =>
      match TransactionErrors.tx_error err with
      | Some e => if is_BadNonceError e then Some e else None
      | None => None
      end
  | None => None
  end.

(** The builder of one attempt: reset, sequence set, signed by every
    signer in order. *)
Definition signed_at (b : Builder.t) (signers : list PrivateKey) (seq : Z)
  : Builder.t :=
  fold_left (fun b signer => Builder.sign b (stellar_seed signer)) signers
    (Builder.set_sequence (Builder.reset b) seq).

(** The closure [_sign_and_submit]: one attempt.  A result that reports
    a bad nonce adds 1 to the offset and is raised as its error; any
    other result is returned. *)
Definition _sign_and_submit (source_info : AccountInfo)
    (signers : list PrivateKey) (invoice_list : option InvoiceList)
  : M NonceLoop SubmitTransactionResult.t :=
  fun st =>
    let b :=
      signed_at (builder st) signers
        (sequence_number source_info + offset st) in
    match submit_transaction b invoice_list (world st) with
    | (Ret result, w') =>
        match bad_nonce result with
        | Some e => (Raise (Agora e), mkNonceLoop (offset st + 1) b w')
        | None => (Ret result, mkNonceLoop (offset st) b w')
        end
    | (Raise e, w') => (Raise e, mkNonceLoop (offset st) b w')
    | (OutOfFuel, w') => (OutOfFuel, mkNonceLoop (offset st) b w')
    end.

(** The fuel of every retry loop below. *)
Variable fuel : nat.

(** The account of the first signer is fetched once; the attempts then
    run under the strategies of the nonce loop, from offset 1.
    [signers[0]] of an empty list raises [IndexError]. *)
Definition _sign_and_submit_builder (c : Client)
    (signers : list PrivateKey) (b : Builder.t)
    (invoice_list : option InvoiceList)
  : M World SubmitTransactionResult.t :=
  match signers with
  | [] => raise IndexError
  | first :: _ =>
      (source_info <- get_account_info (public_key first) ;;
       fun w =>
         let (r, st) :=
           retry nonce_sleep fuel (_nonce_retry_strategies c)
             (_sign_and_submit source_info signers invoice_list)
             (mkNonceLoop 1 b w) in
         (r, world st))%py
  end.

(** The signers of a transaction: the channel first when there is one,
    then the sender, then the whitelisting key when the client has
    one. *)
Definition signers_of (c : Client) (channel : option PrivateKey)
    (sender : PrivateKey) : list PrivateKey :=
  let signers :=
    match channel with
    | Some ch => [ch; sender]
    | None => [sender]
    end in
  match whitelist_key c with
  | Some key => signers ++ [key]
  | None => signers
  end.

(** The operation [append_payment_op] adds for one destination. *)
Definition payment_op (c : Client) (sender : PrivateKey)
    (destination : PublicKey) (quarks : Z) : PaymentOp :=
  mkPaymentOp (stellar_address destination)
    (quarks_to_kin (if _kin_version c =? 2 then quarks * 100 else quarks))
    (stellar_address (public_key sender))
    (if _kin_version c =? 2 then _asset_issuer c else None).

(** *** [submit_payment] *)

(** The builder with its memo, and the invoice list, of a payment; or
    the exception that [add_text_memo] or [AgoraMemo.new] raises. *)
Definition payment_memo (c : Client) (payment : Payment.t)
    (b : Builder.t) : exn + Builder.t * option InvoiceList :=
  match Payment.memo payment with
  | Some (String _ _ as text) =>
      match add_text_memo b text with
      | inl e => inl e
      | inr b => inr (b, None)
      end
  | _ =>
      if 0 <? app_index c then
        let invoice_list :=
          match Payment.invoice payment with
          | Some i => Some (mkInvoiceList [i])
          | None => None
          end in
        let fk :=
          match invoice_list with
          | Some il => get_sha_224_hash il
          | None => []
          end in
        match AgoraMemo_new 1 (Payment.tx_type payment) (app_index c) fk with
        | inl e => inl e
        | inr val => inr (Builder.add_hash_memo b val, invoice_list)
        end
      else inr (b, None)
  end.

(** What [submit_payment] hands to [_sign_and_submit_builder]: the
    signers, the builder with its memo and its payment operation, and
    the invoice list; or the exception raised while the memo is built. *)
Definition payment_tx (c : Client) (payment : Payment.t)
  : exn + list PrivateKey * Builder.t * option InvoiceList :=
  let b :=
    _get_stellar_builder c
      (match Payment.channel payment with
       | Some ch => ch
       | None => Payment.sender payment
       end) in
  match payment_memo c payment b with
  | inl e => inl e
  | inr (b, invoice_list) =>
      let b :=
        Builder.append_payment_op b
          (payment_op c (Payment.sender payment)
             (Payment.destination payment) (Payment.quarks payment)) in
      inr (signers_of c (Payment.channel payment) (Payment.sender payment),
           b, invoice_list)
  end.

(** The checks on [result.tx_error]. *)
Definition raise_tx_error (result : SubmitTransactionResult.t)
  : M World unit :=
  match SubmitTransactionResult.tx_error result with
  | Some err =>
      match TransactionErrors.op_errors err with
      | [] =>
          match TransactionErrors.tx_error err with
          | Some e => raise (Agora e)
          | None => ret tt
          end
      | [op_error] => raise (Agora op_error)
      | op_errors =>
          raise (Agora (Error
            ("invalid number of operation errors, expected 0 or 1, got "
             ++ str_of_nat (List.length op_errors))%string))
      end
  | None => ret tt
  end.

(** The checks on [result.invoice_errors]. *)
Definition raise_invoice_error (result : SubmitTransactionResult.t)
  : M World unit :=
  match SubmitTransactionResult.invoice_errors result with
  | [] => ret tt
  | [invoice_error] =>
      match reason invoice_error with
      | ALREADY_PAID => raise (Agora AlreadyPaidError)
      | WRONG_DESTINATION => raise (Agora WrongDestinationError)
      | SKU_NOT_FOUND => raise (Agora SkuNotFoundError)
      | r =>
          raise (Agora (Error
            ("unknown invoice error: " ++ str_of_reason r)%string))
      end
  | invoice_errors =>
      raise (Agora (Error
        ("invalid number of invoice errors, expected 0 or 1, got "
         ++ str_of_nat (List.length invoice_errors))%string))
  end.

Definition submit_payment (c : Client) (payment : Payment.t)
  : M World bytes :=
  if negb (supported_version (_kin_version c)) then
    raise (Agora UnsupportedVersionError)
  else if truthy_obj (Payment.invoice payment) && (app_index c <=? 0) then
    raise (ValueError
      "cannot submit a payment with an invoice without an app index"%string)
  else
    match payment_tx c payment with
    | inl e => raise e
    | inr (signers, b, invoice_list) =>
        (result <- _sign_and_submit_builder c signers b invoice_list ;;
         raise_tx_error result ;;;
         raise_invoice_error result ;;;
         ret (SubmitTransactionResult.tx_hash result))%py
    end.

(** *** [_submit_earn_batch_tx] *)

(** [[earn.invoice for earn in earns if earn.invoice]]. *)
Definition earn_invoices (earns : list Earn.t) : list Invoice :=
  flat_map
    (fun earn =>
       match Earn.invoice earn with
       | Some i => [i]
       | None => []
       end)
    earns.

(** [InvoiceList(invoices) if invoices else None]. *)
Definition earn_invoice_list (earns : list Earn.t) : option InvoiceList :=
  match earn_invoices earns with
  | [] => None
  | invoices => Some (mkInvoiceList invoices)
  end.

(** The builder of a sub-batch: its memo, then one payment operation
    for each earn; or the exception raised while the memo is built. *)
Definition earn_batch_builder (c : Client) (sender : PrivateKey)
    (earns : list Earn.t) (channel : option PrivateKey)
    (memo : option string) : exn + Builder.t :=
  let b :=
    _get_stellar_builder c
      (match channel with
       | Some ch => ch
       | None => sender
       end) in
  let with_memo :=
    match memo with
    | Some (String _ _ as text) => add_text_memo b text
    | _ =>
        if 0 <? app_index c then
          let fk :=
            match earn_invoice_list earns with
            | Some il => get_sha_224_hash il
            | None => []
            end in
          match AgoraMemo_new 1 EARN (app_index c) fk with
          | inl e => inl e
          | inr val => inr (Builder.add_hash_memo b val)
          end
        else inr b
    end in
  match with_memo with
  | inl e => inl e
  | inr b =>
      inr (fold_left
             (fun b earn =>
                Builder.append_payment_op b
                  (payment_op c sender (Earn.destination earn)
                     (Earn.quarks earn)))
             earns b)
  end.

Definition _submit_earn_batch_tx (c : Client) (sender : PrivateKey)
    (earns : list Earn.t) (channel : option PrivateKey)
    (memo : option string) : M World SubmitTransactionResult.t :=
  if (100 <? List.length earns)%nat then
    raise (ValueError "cannot send more than 100 earns"%string)
  else
    match earn_batch_builder c sender earns channel memo with
    | inl e => raise e
    | inr b =>
        (result <- _sign_and_submit_builder c (signers_of c channel sender)
                     b (earn_invoice_list earns) ;;
         if truthy_list (SubmitTransactionResult.invoice_errors result) then
           raise (Agora (Error "unexpected invoice errors present"%string))
         else ret result)%py
    end.

(** *** [submit_earn_batch] *)

(** [[EarnResult(earn, tx_hash=tx_hash, error=op_errors[idx]) for idx,
    earn in enumerate(earn_batch)]], from the index [idx] on: indexing
    past the end of [op_errors] raises [IndexError] and no list is
    built. *)
Fixpoint op_error_results (tx_hash : bytes) (op_errors : list AgoraError)
    (idx : nat) (earn_batch : list Earn.t) : exn + list EarnResult.t :=
  match earn_batch with
  | [] => inr []
  | earn :: rest =>
      match nth_error op_errors idx with
      | None => inl IndexError
      | Some e =>
          match op_error_results tx_hash op_errors (S idx) rest with
          | inl x => inl x
          | inr results =>
              inr (EarnResult.mk earn (Some tx_hash) (Some e) :: results)
          end
      end
  end.

(** The loop over the sub-batches, from the lists built so far; it
    ends at the first sub-batch that fails. *)
Fixpoint earn_batch_loop (c : Client) (sender : PrivateKey)
    (channel : option PrivateKey) (memo : option string)
    (batches : list (list Earn.t)) (succeeded failed : list EarnResult.t)
  : M World (list EarnResult.t * list EarnResult.t) :=
  match batches with
  | [] => ret (succeeded, failed)
  | earn_batch :: rest =>
      fun w =>
        match _submit_earn_batch_tx c sender earn_batch channel memo w with
        | (Raise (Agora e), w') =>
            (Ret (succeeded,
                  failed
                  ++ map (fun earn => EarnResult.mk earn None (Some e))
                       earn_batch),
             w')
        | (Raise e, w') => (Raise e, w')
        | (OutOfFuel, w') => (OutOfFuel, w')
        | (Ret result, w') =>
            let tx_hash := SubmitTransactionResult.tx_hash result in
            match SubmitTransactionResult.tx_error result with
            | None =>
                earn_batch_loop c sender channel memo rest
                  (succeeded
                   ++ map (fun earn => EarnResult.mk earn (Some tx_hash) None)
                        earn_batch)
                  failed w'
            | Some err =>
                match TransactionErrors.op_errors err with
                | [] =>
                    (Ret (succeeded,
                          failed
                          ++ map
                               (fun earn =>
                                  EarnResult.mk earn (Some tx_hash)
                                    (TransactionErrors.tx_error err))
                               earn_batch),
                     w')
                | op_errors =>
                    match op_error_results tx_hash op_errors 0 earn_batch with
                    | inl e => (Raise e, w')
                    | inr results => (Ret (succeeded, failed ++ results), w')
                    end
                end
            end
        end
  end.

(** The checks made before the first sub-batch is submitted. *)
Definition validate_earn_batch (c : Client) (earns : list Earn.t)
    (memo : option string) : M World unit :=
  match earn_invoices earns with
  | [] => ret tt
  | invoices =>
      if app_index c <=? 0 then
        raise (ValueError
          "cannot submit a payment with an invoice without an app index"%string)
      else if negb (List.length invoices =? List.length earns)%nat then
        raise (ValueError
          "Either all or none of the earns must contain invoices"%string)
      else if truthy_str memo then
        raise (ValueError "Cannot use both text memo and invoices"%string)
      else ret tt
  end.

Definition submit_earn_batch (c : Client) (sender : PrivateKey)
    (earns : list Earn.t) (channel : option PrivateKey)
    (memo : option string) : M World BatchEarnResult.t :=
  if negb (supported_version (_kin_version c)) then
    raise (Agora UnsupportedVersionError)
  else
    (validate_earn_batch c earns memo ;;;
     lists <- earn_batch_loop c sender channel memo (partition earns 100)
                [] [] ;;
     let (succeeded, failed) := lists in
     let failed :=
       failed
       ++ map (fun earn => EarnResult.mk earn None None)
            (skipn (List.length succeeded + List.length failed) earns) in
     ret (BatchEarnResult.mk succeeded failed))%py.
End ClientModel.

(** ** Reading a run

    The notions the statements below are phrased with. *)

Definition is_submit (call : Call) : bool :=
  match call with
  | SubmitTransaction _ _ => true
  | GetAccountInfo _ => false
  end.

(** The number of submissions in a history. *)
Definition count_submits (w : World) : nat :=
  List.length (filter is_submit w).

Section Attempts.
Context `{Collaborators}.
Variables (b : Builder.t) (signers : list PrivateKey)
          (invoice_list : option InvoiceList) (fetched_sequence : Z).

(** The transaction of the attempt number [k], counted from 1: what
    the builder [b] holds, with the sequence number [fetched_sequence + k]
    and the signatures of the signers in their order, and nothing else. *)
Definition attempt_tx (k : nat) : Builder.t :=
  Builder.mk (Builder.network b) (Builder.fee b) (Builder.secret b)
    (Builder.memo b) (Builder.ops b)
    (Some (fetched_sequence + Z.of_nat k)) (map stellar_seed signers).

(** The submission of the attempt number [k]. *)
Definition attempt_call (k : nat) : Call :=
  SubmitTransaction (attempt_tx k) invoice_list.

(** The submissions of the first [n] attempts. *)
Definition attempts_trace (n : nat) : list Call :=
  map attempt_call (seq 1 n).

(** What the service answers to the attempt number [S k] when the [k]
    attempts before it were made from the history [w1]. *)
Definition reply_at (w1 : World) (k : nat)
  : exn + SubmitTransactionResult.t :=
  submit_reply (w1 ++ attempts_trace k) (attempt_tx (S k)) invoice_list.
End Attempts.

(** A submission result reports a bad nonce: it carries a
    transaction-level error whose whole-transaction error is a
    [BadNonceError]. *)
Definition reports_bad_nonce (result : SubmitTransactionResult.t) : Prop :=
  exists err,
    SubmitTransactionResult.tx_error result = Some err
    /\ TransactionErrors.tx_error err = Some BadNonceError.

(** The answer of the service is a result that reports a bad nonce. *)
Definition bad_nonce_reply (r : exn + SubmitTransactionResult.t) : Prop :=
  match r with
  | inr result => reports_bad_nonce result
  | inl _ => False
  end.

(** The exception raised while the memo of a transaction is built, if
    any: that of the text memo when a non-empty one is given, and
    otherwise, for a client with an app index, that of [AgoraMemo.new]
    over the hash of the invoice list (the empty bytes without one). *)
Definition memo_exception `{Collaborators} (c : Client)
    (tx_type : TransactionType) (memo : option string)
    (invoice_list : option InvoiceList) : option exn :=
  match memo with
  | Some (String _ _ as text) => text_memo_error text
  | _ =>
      if 0 <? app_index c then
        match
          AgoraMemo_new 1 tx_type (app_index c)
            match invoice_list with
            | Some il => get_sha_224_hash il
            | None => []
            end
        with
        | inl e => Some e
        | inr _ => None
        end
      else None
  end.

(** The invoice list of a payment: its one invoice, if it has one. *)
Definition payment_invoice_list (payment : Payment.t) : option InvoiceList :=
  match Payment.invoice payment with
  | Some i => Some (mkInvoiceList [i])
  | None => None
  end.

(** A single-payment submission as a caller writes it:
    [client.submit_payment(Payment(...))]. *)
Definition submit_new_payment `{Collaborators} (fuel : nat) (c : Client)
    (sender : PrivateKey) (destination : PublicKey)
    (tx_type : TransactionType) (quarks : Z) (channel : option PrivateKey)
    (invoice : option Invoice) (memo : option string) : M World bytes :=
  match
    Payment__init__ sender destination tx_type quarks channel invoice memo
  with
  | inl e => raise e
  | inr payment => submit_payment fuel c payment
  end.

(** What a run of the nonce loop shows to its caller: the outcome and
    the history. *)
Definition observe `{Collaborators} {A : Type} (x : outcome A * NonceLoop)
  : outcome A * World :=
  (fst x, world (snd x)).

Section Batches.
Context `{Collaborators}.
Variables (fuel : nat) (c : Client) (sender : PrivateKey)
          (channel : option PrivateKey) (memo : option string).

(** The sub-batches [batches] are all submitted with success from the
    history [w]: the results they add to [succeeded], and the history
    after them. *)
Fixpoint all_succeed (batches : list (list Earn.t)) (w : World)
  : option (list EarnResult.t * World) :=
  match batches with
  | [] => Some ([], w)
  | earn_batch :: rest =>
      match _submit_earn_batch_tx fuel c sender earn_batch channel memo w with
      | (Ret result, w') =>
          match SubmitTransactionResult.tx_error result with
          | None =>
              match all_succeed rest w' with
              | Some (results, w'') =>
                  Some (map
                          (fun earn =>
                             EarnResult.mk earn
                               (Some (SubmitTransactionResult.tx_hash result))
                               None)
                          earn_batch
                        ++ results,
                        w'')
              | None => None
              end
          | Some _ => None
          end
      | _ => None
      end
  end.
End Batches.

(** An earn that was never attempted. *)
Definition unattempted (earn : Earn.t) : EarnResult.t :=
  EarnResult.mk earn None None.

(** Some earn carries an invoice. *)
Definition some_invoice (earns : list Earn.t) : Prop :=
  exists earn, In earn earns /\ Earn.invoice earn <> None.

(** Some earn carries no invoice. *)
Definition some_without_invoice (earns : list Earn.t) : Prop :=
  exists earn, In earn earns /\ Earn.invoice earn = None.

(** A field of [RetryConfig] is absent or negative. *)
Definition absent_or_negative (x : option Z) : Prop :=
  match x with
  | None => True
  | Some v => v < 0
  end.

(** A delay is absent or is not [>= 0]: negative, or not a number. *)
Definition absent_or_below_floor (x : option pynum) : Prop :=
  match x with
  | None => True
  | Some v => pynum_ge0 v = false
  end.

(** ** A scripted service, for the concrete runs

    The account is always found with the same information, and the
    submissions are answered from a script, one entry for each. *)

(** The checks of the memo libraries, as the services below make them. *)
Definition checked_AgoraMemo_new (version : Z) (tx_type : TransactionType)
    (app_index : Z) (foreign_key : bytes) : exn + bytes :=
  if (app_index <? 0) || (65535 <? app_index) then
    inl (ValueError "invalid app index"%string)
  else inr (Byte.x4b :: foreign_key).

Definition checked_text_memo (text : string) : option exn :=
  if (28 <? String.length text)%nat then
    Some (OtherException "NotValidParamError"%string)
  else None.

Definition checked_AgoraMemo_new_app_index :
  forall version tx_type app_index foreign_key,
    65535 < app_index ->
    exists msg,
      checked_AgoraMemo_new version tx_type app_index foreign_key
      = inl (ValueError msg).
Proof.
  intros version tx_type app_index foreign_key Hlarge.
  unfold checked_AgoraMemo_new.
  replace (65535 <? app_index) with true by (symmetry; apply Z.ltb_lt; lia).
  rewrite orb_true_r. eexists. reflexivity.
Qed.

Definition checked_text_memo_long :
  forall text,
    (28 < String.length text)%nat ->
    checked_text_memo text = Some (OtherException "NotValidParamError"%string).
Proof.
  intros text Hlong. unfold checked_text_memo.
  replace (28 <? String.length text)%nat with true
    by (symmetry; apply Nat.ltb_lt; exact Hlong).
  reflexivity.
Qed.

(** A service given by its two replies. *)
Definition service_with
    (info_reply : World -> PublicKey -> exn + AccountInfo)
    (reply :
       World -> Builder.t -> option InvoiceList ->
       exn + SubmitTransactionResult.t) : Collaborators :=
  {| public_key := fun key => mkPublicKey (stellar_seed key);
     quarks_to_kin := str_of_Z;
     get_sha_224_hash := fun il => [Byte.x01];
     AgoraMemo_new := checked_AgoraMemo_new;
     AgoraMemo_new_app_index := checked_AgoraMemo_new_app_index;
     text_memo_error := checked_text_memo;
     text_memo_error_long := checked_text_memo_long;
     str_of_reason := fun _ => "UNKNOWN"%string;
     KIN_2_PROD_NETWORK := "Kin 2 prod"%string;
     KIN_2_TEST_NETWORK := "Kin 2 test"%string;
     account_info_reply := info_reply;
     submit_reply := reply |}.

Definition scripted (info : AccountInfo)
    (script : list (exn + SubmitTransactionResult.t)) : Collaborators :=
  service_with (fun _ _ => inr info)
    (fun w _ _ =>
       nth (count_submits w) script
         (inl (OtherException "no reply left"%string))).

Definition alice : PrivateKey := mkPrivateKey "alice"%string.
Definition bob : PublicKey := mkPublicKey "bob"%string.
Definition carol : PublicKey := mkPublicKey "carol"%string.

Definition info7 : AccountInfo := mkAccountInfo 7 1000.

Definition hashA : bytes := [Byte.x0a].
Definition hashB : bytes := [Byte.x0b].

Definition an_invoice : Invoice := mkInvoice [mkLineItem "item"%string 5].

Definition earn_bob : Earn.t := Earn.mk bob 10 None.
Definition earn_carol : Earn.t := Earn.mk carol 20 None.
Definition earn_bob_invoice : Earn.t := Earn.mk bob 10 (Some an_invoice).

(** A result with no error. *)
Definition result_ok (tx_hash : bytes) : SubmitTransactionResult.t :=
  SubmitTransactionResult.mk tx_hash None [].

(** A result with a whole-transaction error. *)
Definition result_tx_error (tx_hash : bytes) (e : AgoraError)
  : SubmitTransactionResult.t :=
  SubmitTransactionResult.mk tx_hash
    (Some (TransactionErrors.mk (Some e) [])) [].

(** A result with per-operation errors. *)
Definition result_op_errors (tx_hash : bytes) (op_errors : list AgoraError)
  : SubmitTransactionResult.t :=
  SubmitTransactionResult.mk tx_hash
    (Some (TransactionErrors.mk None op_errors)) [].

(** A result with invoice errors and no transaction error. *)
Definition result_invoice_errors (tx_hash : bytes)
    (reasons : list InvoiceErrorReason) : SubmitTransactionResult.t :=
  SubmitTransactionResult.mk tx_hash None (map mkInvoiceErrorEntry reasons).

(** The client [Client(env, app_index, retry_config=RetryConfig(
    max_nonce_refreshes=refreshes))] on Kin 3, as a value. *)
Definition client_of (app_index_arg refreshes : Z) : Client :=
  {| network_name := "TESTNET"%string;
     app_index := app_index_arg;
     whitelist_key := None;
     _nonce_retry_strategies :=
       nonce_retry_strategies
         (RetryConfig__init__ None None None (Some refreshes));
     _kin_version := 3;
     _asset_issuer := None |}.

(** Two bad nonces, then a success. *)
Definition service_two_bad_nonces : Collaborators :=
  scripted info7
    [inr (result_tx_error hashA BadNonceError);
     inr (result_tx_error hashA BadNonceError);
     inr (result_ok hashB)].

(** The first submission call raises a [BadNonceError] itself; the
    second is answered with a success. *)
Definition service_raises_bad_nonce : Collaborators :=
  scripted info7 [inl (Agora BadNonceError); inr (result_ok hashB)].

(** The builder of a transaction of [alice] with no memo and no
    operation yet. *)
Definition builder_alice : Builder.t :=
  Builder.mk "TESTNET"%string 100 "alice"%string None [] None [].

(** One submission, answered with a success. *)
Definition service_ok : Collaborators :=
  scripted info7 [inr (result_ok hashA)].

(** One submission, answered with one operation error, a
    whole-transaction error and an invoice error at once. *)
Definition service_all_errors : Collaborators :=
  scripted info7
    [inr (SubmitTransactionResult.mk hashA
            (Some (TransactionErrors.mk (Some TransactionRejectedError)
                     [InsufficientBalanceError]))
            [mkInvoiceErrorEntry ALREADY_PAID])].

(** A payment of [alice] to [bob] with no memo and no invoice. *)
Definition payment_plain : Payment.t :=
  Payment.mk alice bob SPEND 10 None None None.

(** 150 earns: a first sub-batch of 100 to [bob], a second of 50 to
    [carol]. *)
Definition earns_150 : list Earn.t :=
  repeat earn_bob 100 ++ repeat earn_carol 50.

(** The first submission succeeds, the second is rejected as a whole. *)
Definition service_second_rejected : Collaborators :=
  scripted info7
    [inr (result_ok hashA);
     inr (result_tx_error hashB TransactionRejectedError)].

(** The submission raises an exception that is not an [Error] of the
    library. *)
Definition service_raises_ValueError : Collaborators :=
  scripted info7 [inl (ValueError "boom"%string)].

(** The submission is answered with an invoice error. *)
Definition service_invoice_error : Collaborators :=
  scripted info7 [inr (result_invoice_errors hashA [ALREADY_PAID])].

(** The submission is answered with two operation errors. *)
Definition service_two_op_errors : Collaborators :=
  scripted info7
    [inr (result_op_errors hashA
            [InsufficientBalanceError; DestinationDoesNotExistError])].

(** ** The remaining methods of the client *)

(** [Client.get_balance]. *)
Definition get_balance `{Collaborators} (c : Client) (key : PublicKey)
  : M World Z :=
  if negb (supported_version (_kin_version c)) then
    raise (Agora UnsupportedVersionError)
  else (info <- get_account_info key ;; ret (balance info))%py.

(** The account a transaction is built on: the channel when there is
    one, the sender otherwise. *)
Definition source_of (channel : option PrivateKey) (sender : PrivateKey)
  : PrivateKey :=
  match channel with
  | Some ch => ch
  | None => sender
  end.

(** A result with nothing for [submit_payment] to raise: no operation
    error, no whole-transaction error and no invoice error. *)
Definition clean (result : SubmitTransactionResult.t) : Prop :=
  match SubmitTransactionResult.tx_error result with
  | Some err =>
      TransactionErrors.op_errors err = []
      /\ TransactionErrors.tx_error err = None
  | None => True
  end
  /\ SubmitTransactionResult.invoice_errors result = [].

(** The exception [submit_payment] raises for an invoice error. *)
Definition invoice_exception `{Collaborators} (r : InvoiceErrorReason)
  : AgoraError :=
  match r with
  | ALREADY_PAID => AlreadyPaidError
  | WRONG_DESTINATION => WrongDestinationError
  | SKU_NOT_FOUND => SkuNotFoundError
  | UNKNOWN_REASON =>
      Error ("unknown invoice error: " ++ str_of_reason UNKNOWN_REASON)%string
  end.

(** A property of every submission in a list of calls. *)
Definition submissions_satisfy
    (P : Builder.t -> option InvoiceList -> Prop) (calls : list Call) : Prop :=
  Forall
    (fun call =>
       match call with
       | SubmitTransaction tx invoice_list => P tx invoice_list
       | GetAccountInfo _ => True
       end)
    calls.

(** The account queries in a history. *)
Definition count_queries (w : World) : nat :=
  List.length (filter (fun call => negb (is_submit call)) w).

(** A payment of [alice] to [bob] through the channel [carol_key], with
    an invoice. *)
Definition carol_key : PrivateKey := mkPrivateKey "carol-key"%string.

Definition payment_invoice : Payment.t :=
  Payment.mk alice bob SPEND 10 (Some carol_key) (Some an_invoice) None.

(** A service whose account lookup fails. *)
Definition service_account_missing : Collaborators :=
  service_with (fun _ _ => inl (Agora AccountNotFoundError))
    (fun _ _ _ => inr (result_ok hashA)).

(** Every submission is answered with a bad nonce. *)
Definition service_always_bad_nonce : Collaborators :=
  service_with (fun _ _ => inr info7)
    (fun _ _ _ => inr (result_tx_error hashA BadNonceError)).

(** Every submission succeeds. *)
Definition service_always_ok : Collaborators :=
  service_with (fun _ _ => inr info7)
    (fun _ _ _ => inr (result_ok hashA)).

(** A submission made for the sub-batch [earn_batch]. *)
Definition submission_of `{Collaborators} (c : Client) (sender : PrivateKey)
    (channel : option PrivateKey) (memo : option string)
    (earn_batch : list Earn.t) (call : Call) : Prop :=
  exists b q,
    earn_batch_builder c sender earn_batch channel memo = inr b
    /\ call
       = SubmitTransaction (signed_at b (signers_of c channel sender) q)
           (earn_invoice_list earn_batch).

(** An earn that succeeded: a transaction hash and no error. *)
Definition succeeded_entry (r : EarnResult.t) : Prop :=
  EarnResult.error r = None /\ EarnResult.tx_hash r <> None.

(** Three earns without invoice. *)
Definition earns_3 : list Earn.t := [earn_bob; earn_carol; earn_bob].

(** * Properties *)

(** ** RetryConfig *)

Lemma RetryConfig_max_nonce_refreshes_nonneg a b c d :
  0 <= max_nonce_refreshes (RetryConfig__init__ a b c d).
Proof.
  unfold RetryConfig__init__; simpl.
  destruct d as [v|]; [destruct (Z.leb_spec 0 v)|]; lia.
Qed.

Example RetryConfig_negative_fields :
  RetryConfig__init__ (Some (-1)) (Some (PyFloat (-0.25)%float))
    (Some (PyInt (-3))) (Some (-7))
  = mkRetryConfig 5 (PyFloat 0.5%float) (PyInt 10) 3.
Proof. reflexivity. Qed.

Example RetryConfig_nan_delay :
  min_delay (RetryConfig__init__ None (Some (PyFloat nan)) None None)
  = PyFloat 0.5%float.
Proof. reflexivity. Qed.

Example RetryConfig_kept_fields :
  RetryConfig__init__ (Some 0) (Some (PyFloat 1.5%float)) (Some (PyInt 20))
    (Some 9)
  = mkRetryConfig 0 (PyFloat 1.5%float) (PyInt 20) 9.
Proof. reflexivity. Qed.

(** C7: [RetryConfig.__init__] is total (it raises nothing); a field
    that is absent or negative takes its default (max_retries 5,
    max_nonce_refreshes 3, min_delay 0.5, max_delay 10), and a supplied
    value that is [>= 0] is kept as given. *)
Theorem RetryConfig_defaults
    (a : option Z) (b c : option pynum) (d : option Z) :
  let cfg := RetryConfig__init__ a b c d in
  (absent_or_negative a -> max_retries cfg = 5) /\
  (forall v, a = Some v -> 0 <= v -> max_retries cfg = v) /\
  (absent_or_negative d -> max_nonce_refreshes cfg = 3) /\
  (forall v, d = Some v -> 0 <= v -> max_nonce_refreshes cfg = v) /\
  (absent_or_below_floor b -> min_delay cfg = PyFloat 0.5%float) /\
  (forall v, b = Some v -> pynum_ge0 v = true -> min_delay cfg = v) /\
  (absent_or_below_floor c -> max_delay cfg = PyInt 10) /\
  (forall v, c = Some v -> pynum_ge0 v = true -> max_delay cfg = v).
Proof.
  cbv zeta; unfold RetryConfig__init__; simpl.
  repeat split.
  - destruct a as [v|]; simpl; intros Hv; [|reflexivity].
    destruct (Z.leb_spec 0 v); [lia | reflexivity].
  - intros v -> Hv. destruct (Z.leb_spec 0 v); [reflexivity | lia].
  - destruct d as [v|]; simpl; intros Hv; [|reflexivity].
    destruct (Z.leb_spec 0 v); [lia | reflexivity].
  - intros v -> Hv. destruct (Z.leb_spec 0 v); [reflexivity | lia].
  - destruct b as [v|]; simpl; intros Hv; [rewrite Hv|]; reflexivity.
  - intros v -> Hv. rewrite Hv. reflexivity.
  - destruct c as [v|]; simpl; intros Hv; [rewrite Hv|]; reflexivity.
  - intros v -> Hv. rewrite Hv. reflexivity.
Qed.

(** ** The builder of an attempt *)

Lemma fold_sign_signatures (signers : list PrivateKey) (b : Builder.t) :
  fold_left (fun b signer => Builder.sign b (stellar_seed signer)) signers b
  = Builder.mk (Builder.network b) (Builder.fee b) (Builder.secret b)
      (Builder.memo b) (Builder.ops b) (Builder.sequence b)
      (Builder.signatures b ++ map stellar_seed signers).
Proof.
  revert b; induction signers as [|s signers IH]; intros b; simpl.
  - rewrite app_nil_r. destruct b; reflexivity.
  - rewrite IH. simpl. rewrite <- app_assoc. reflexivity.
Qed.

Lemma signed_at_eq (b : Builder.t) (signers : list PrivateKey) (q : Z) :
  signed_at b signers q
  = Builder.mk (Builder.network b) (Builder.fee b) (Builder.secret b)
      (Builder.memo b) (Builder.ops b) (Some q) (map stellar_seed signers).
Proof. unfold signed_at. rewrite fold_sign_signatures. reflexivity. Qed.

(** An attempt forgets the sequence and the signatures of the one
    before it. *)
Lemma signed_at_signed_at b signers q signers' q' :
  signed_at (signed_at b signers q) signers' q' = signed_at b signers' q'.
Proof. rewrite !signed_at_eq. reflexivity. Qed.

Lemma signed_at_memo b signers q :
  Builder.memo (signed_at b signers q) = Builder.memo b.
Proof. rewrite signed_at_eq. reflexivity. Qed.

Lemma signed_at_sequence b signers q :
  Builder.sequence (signed_at b signers q) = Some q.
Proof. rewrite signed_at_eq. reflexivity. Qed.

(** The attempt number [k] carries the fetched sequence plus [k], and
    the signatures of the signers in their order. *)
Lemma attempt_call_sequence b signers il fetched_sequence k :
  exists tx,
    attempt_call b signers il fetched_sequence k = SubmitTransaction tx il
    /\ Builder.sequence tx = Some (fetched_sequence + Z.of_nat k)
    /\ Builder.signatures tx = map stellar_seed signers
    /\ Builder.memo tx = Builder.memo b
    /\ Builder.ops tx = Builder.ops b.
Proof.
  unfold attempt_call, attempt_tx. eexists. split; [reflexivity|].
  cbn. auto.
Qed.

Lemma attempt_tx_signed b signers fetched_sequence k :
  attempt_tx b signers fetched_sequence k
  = signed_at b signers (fetched_sequence + Z.of_nat k).
Proof. rewrite signed_at_eq. reflexivity. Qed.

(** ** The strategies of the nonce loop *)

Lemma bad_nonce_Some result e :
  bad_nonce result = Some e -> e = BadNonceError.
Proof.
  unfold bad_nonce.
  destruct (SubmitTransactionResult.tx_error result) as [err|]; [|discriminate].
  destruct (TransactionErrors.tx_error err) as [e'|]; [|discriminate].
  destruct e'; simpl; intros Heq; inversion Heq; reflexivity.
Qed.

Lemma reports_bad_nonce_Some result :
  reports_bad_nonce result -> bad_nonce result = Some BadNonceError.
Proof.
  intros (err & Herr & Hbad). unfold bad_nonce. rewrite Herr, Hbad.
  reflexivity.
Qed.

Lemma bad_nonce_reports result e :
  bad_nonce result = Some e -> reports_bad_nonce result.
Proof.
  intros Hbn. pose proof (bad_nonce_Some _ _ Hbn) as ->.
  unfold bad_nonce in Hbn. unfold reports_bad_nonce.
  destruct (SubmitTransactionResult.tx_error result) as [err|]; [|discriminate].
  exists err. split; [reflexivity|].
  destruct (TransactionErrors.tx_error err) as [e'|]; [|discriminate].
  destruct e'; cbn [is_BadNonceError] in Hbn; try discriminate. reflexivity.
Qed.

Lemma not_reports_bad_nonce result :
  ~ reports_bad_nonce result -> bad_nonce result = None.
Proof.
  intros Hnot. destruct (bad_nonce result) as [e|] eqn:Hbn; [|reflexivity].
  exfalso. apply Hnot. exact (bad_nonce_reports _ _ Hbn).
Qed.

Lemma evaluate_nonce (cfg : RetryConfig) (attempt : nat) (e : exn) :
  evaluate (nonce_retry_strategies cfg) attempt e
  = if isinstance_BadNonceError e
       && (Z.of_nat (S attempt) <? max_nonce_refreshes cfg + 1)
    then Some 0%N else None.
Proof.
  unfold nonce_retry_strategies, evaluate, RetriableErrorsStrategy,
    LimitStrategy.
  cbn [existsb]. rewrite orb_false_r.
  destruct (isinstance_BadNonceError e); [|reflexivity].
  destruct (Z.of_nat (S attempt) <? max_nonce_refreshes cfg + 1); reflexivity.
Qed.

Lemma Client__init__strategies `{Collaborators}
    env ai wk gc ep rc kv (c : Client) :
  Client__init__ env ai wk gc ep rc kv = inr c ->
  _nonce_retry_strategies c
  = nonce_retry_strategies (effective_retry_config rc)
  /\ supported_version (_kin_version c) = true
  /\ app_index c = ai.
Proof.
  unfold Client__init__.
  destruct (supported_version kv) eqn:Hkv; simpl; [|discriminate].
  destruct (gc && truthy_str ep); [discriminate|].
  intros Heq; inversion Heq; subst; simpl. auto.
Qed.

(** ** The nonce loop *)

Section NonceLoopFacts.
Context `{Collaborators}.
Variables (source_info : AccountInfo) (signers : list PrivateKey)
          (il : option InvoiceList).

Local Notation attempt := (_sign_and_submit source_info signers il).
Local Notation seq0 := (sequence_number source_info).

(** One turn of the loop under the strategies of [Client.__init__]. *)
Lemma retry_nonce_step (cfg : RetryConfig) (fuel i : nat) (st : NonceLoop) :
  retry_from nonce_sleep (S fuel) (nonce_retry_strategies cfg) attempt i st
  = let b' := signed_at (builder st) signers (seq0 + offset st) in
    let w' := world st ++ [SubmitTransaction b' il] in
    match submit_reply (world st) b' il with
    | inr r =>
        match bad_nonce r with
        | None => (Ret r, mkNonceLoop (offset st) b' w')
        | Some e =>
            if Z.of_nat (S i) <? max_nonce_refreshes cfg + 1 then
              retry_from nonce_sleep fuel (nonce_retry_strategies cfg)
                attempt (S i) (mkNonceLoop (offset st + 1) b' w')
            else (Raise (Agora e), mkNonceLoop (offset st + 1) b' w')
        end
    | inl e =>
        if isinstance_BadNonceError e
           && (Z.of_nat (S i) <? max_nonce_refreshes cfg + 1)
        then
          retry_from nonce_sleep fuel (nonce_retry_strategies cfg)
            attempt (S i) (mkNonceLoop (offset st) b' w')
        else (Raise e, mkNonceLoop (offset st) b' w')
    end.
Proof.
  cbv zeta. cbn [retry_from].
  unfold _sign_and_submit at 1, submit_transaction.
  destruct (submit_reply (world st) _ il) as [e|r]; cbn [of_reply].
  - rewrite evaluate_nonce.
    destruct (isinstance_BadNonceError e
              && (Z.of_nat (S i) <? max_nonce_refreshes cfg + 1));
      reflexivity.
  - destruct (bad_nonce r) as [e|] eqn:Hbn; [|reflexivity].
    rewrite evaluate_nonce.
    rewrite (bad_nonce_Some _ _ Hbn). cbn [isinstance_BadNonceError
      is_BadNonceError andb].
    destruct (Z.of_nat (S i) <? max_nonce_refreshes cfg + 1); reflexivity.
Qed.

(** The loop only sees the builder through the attempts it signs. *)
Lemma observe_retry_builder (strategies : list Strategy) (fuel : nat) :
  forall (i : nat) (o : Z) (b0 b1 : Builder.t) (w : World),
    (forall q, signed_at b0 signers q = signed_at b1 signers q) ->
    observe (retry_from nonce_sleep fuel strategies attempt i
               (mkNonceLoop o b0 w))
    = observe (retry_from nonce_sleep fuel strategies attempt i
                 (mkNonceLoop o b1 w)).
Proof.
  induction fuel as [|fuel IH]; intros i o b0 b1 w Hb; [reflexivity|].
  cbn [retry_from]. unfold _sign_and_submit at 1 3, submit_transaction.
  cbn [builder offset world]. rewrite (Hb (seq0 + o)).
  destruct (submit_reply w _ il) as [e|r]; cbn [of_reply].
  - destruct (evaluate strategies i e); [|reflexivity].
    unfold nonce_sleep. apply IH. intros q. reflexivity.
  - destruct (bad_nonce r) as [e|]; [|reflexivity].
    destruct (evaluate strategies i (Agora e)); [|reflexivity].
    unfold nonce_sleep. apply IH. intros q. reflexivity.
Qed.

(** Every attempt submits the builder it was given, signed afresh, with
    the invoice list; nothing else is done to the outside. *)
Lemma retry_trace (strategies : list Strategy) (fuel : nat) :
  forall (i : nat) (st : NonceLoop),
    exists calls,
      world (snd (retry_from nonce_sleep fuel strategies attempt i st))
      = world st ++ calls
      /\ Forall
           (fun call =>
              exists q,
                call = SubmitTransaction
                         (signed_at (builder st) signers q) il)
           calls.
Proof.
  induction fuel as [|fuel IH]; intros i st.
  - exists []. cbn. rewrite app_nil_r. auto.
  - cbn [retry_from]. unfold _sign_and_submit at 1, submit_transaction.
    set (b' := signed_at (builder st) signers (seq0 + offset st)).
    assert (Hone :
      Forall (fun call => exists q,
                call = SubmitTransaction (signed_at (builder st) signers q) il)
        [SubmitTransaction b' il])
      by (constructor; [exists (seq0 + offset st); reflexivity | constructor]).
    assert (Hcont : forall o,
      exists calls,
        world (snd (retry_from nonce_sleep fuel strategies attempt (S i)
                      (mkNonceLoop o b' (world st ++ [SubmitTransaction b' il]))))
        = world st ++ calls
        /\ Forall (fun call => exists q,
                call = SubmitTransaction (signed_at (builder st) signers q) il)
             calls).
    { intros o.
      destruct (IH (S i)
                  (mkNonceLoop o b' (world st ++ [SubmitTransaction b' il])))
        as (calls & Hw & Hall).
      exists (SubmitTransaction b' il :: calls). split.
      - rewrite Hw. cbn [world]. rewrite <- app_assoc. reflexivity.
      - constructor; [exists (seq0 + offset st); reflexivity|].
        eapply Forall_impl; [|exact Hall].
        cbn [builder]. intros call (q & ->). exists q.
        unfold b'. rewrite signed_at_signed_at. reflexivity. }
    destruct (submit_reply (world st) b' il) as [e|r]; cbn [of_reply].
    + destruct (evaluate strategies i e).
      * unfold nonce_sleep. apply Hcont.
      * eexists; split; [reflexivity | exact Hone].
    + destruct (bad_nonce r) as [e|].
      * destruct (evaluate strategies i (Agora e)).
        -- unfold nonce_sleep. apply Hcont.
        -- eexists; split; [reflexivity | exact Hone].
      * eexists; split; [reflexivity | exact Hone].
Qed.

Variable cfg : RetryConfig.
Hypothesis cfg_nonneg : 0 <= max_nonce_refreshes cfg.

Local Notation refreshes := (max_nonce_refreshes cfg).
Local Notation strategies := (nonce_retry_strategies cfg).

Lemma count_submits_snoc (w : World) (tx : Builder.t) :
  count_submits (w ++ [SubmitTransaction tx il]) = S (count_submits w).
Proof.
  unfold count_submits. rewrite filter_app, length_app. simpl. lia.
Qed.

(** At most [max_nonce_refreshes + 1] submissions, whatever the service
    answers. *)
Lemma retry_nonce_bound (fuel : nat) :
  forall (i : nat) (st : NonceLoop),
    (count_submits (world (snd (retry_from nonce_sleep fuel strategies
                                  attempt i st)))
     <= count_submits (world st)
        + Nat.max 1 (Z.to_nat (refreshes + 1) - i))%nat.
Proof.
  induction fuel as [|fuel IH]; intros i st; [cbn; lia|].
  rewrite retry_nonce_step. cbv zeta.
  set (b' := signed_at (builder st) signers (seq0 + offset st)).
  assert (Hstep : forall o,
    (Z.of_nat (S i) <? refreshes + 1) = true ->
    (count_submits
       (world (snd (retry_from nonce_sleep fuel strategies attempt (S i)
                      (mkNonceLoop o b' (world st ++ [SubmitTransaction b' il])))))
     <= count_submits (world st)
        + Nat.max 1 (Z.to_nat (refreshes + 1) - i))%nat).
  { intros o Hlt. apply Z.ltb_lt in Hlt.
    etransitivity; [apply IH|]. cbn [world].
    rewrite count_submits_snoc. lia. }
  assert (Hstop : forall o,
    (count_submits (world (mkNonceLoop o b'
                             (world st ++ [SubmitTransaction b' il])))
     <= count_submits (world st)
        + Nat.max 1 (Z.to_nat (refreshes + 1) - i))%nat)
    by (intros o; cbn [world]; rewrite count_submits_snoc; lia).
  destruct (submit_reply (world st) b' il) as [e|r].
  - destruct (isinstance_BadNonceError e); cbn [andb snd]; [|apply Hstop].
    destruct (Z.of_nat (S i) <? refreshes + 1) eqn:Hlt;
      [apply Hstep; reflexivity | apply Hstop].
  - destruct (bad_nonce r) as [e|]; cbn [snd]; [|apply Hstop].
    destruct (Z.of_nat (S i) <? refreshes + 1) eqn:Hlt;
      [apply Hstep; reflexivity | apply Hstop].
Qed.

(** With one unit of fuel for each allowed attempt the loop ends by
    itself. *)
Lemma retry_nonce_terminates (fuel : nat) :
  forall (i : nat) (st : NonceLoop),
    (Nat.max 1 (Z.to_nat (refreshes + 1) - i) <= fuel)%nat ->
    fst (retry_from nonce_sleep fuel strategies attempt i st) <> OutOfFuel.
Proof.
  induction fuel as [|fuel IH]; intros i st Hfuel; [lia|].
  rewrite retry_nonce_step. cbv zeta.
  assert (Hstep : forall st',
    (Z.of_nat (S i) <? refreshes + 1) = true ->
    fst (retry_from nonce_sleep fuel strategies attempt (S i) st')
    <> OutOfFuel).
  { intros st' Hlt. apply Z.ltb_lt in Hlt. apply IH. lia. }
  destruct (submit_reply (world st) _ il) as [e|r].
  - destruct (isinstance_BadNonceError e); cbn [andb fst]; [|discriminate].
    destruct (Z.of_nat (S i) <? refreshes + 1) eqn:Hlt;
      [apply Hstep; reflexivity | discriminate].
  - destruct (bad_nonce r) as [e|]; cbn [fst]; [|discriminate].
    destruct (Z.of_nat (S i) <? refreshes + 1) eqn:Hlt;
      [apply Hstep; reflexivity | discriminate].
Qed.
End NonceLoopFacts.

Section NonceScenarios.
Context `{Collaborators}.
Variables (source_info : AccountInfo) (signers : list PrivateKey)
          (il : option InvoiceList) (b : Builder.t) (cfg : RetryConfig)
          (w1 : World).

Local Notation attempt := (_sign_and_submit source_info signers il).
Local Notation seq0 := (sequence_number source_info).
Local Notation refreshes := (max_nonce_refreshes cfg).
Local Notation strategies := (nonce_retry_strategies cfg).
Local Notation trace := (attempts_trace b signers il seq0).
Local Notation reply := (reply_at b signers il seq0 w1).
Local Notation state i := (mkNonceLoop (Z.of_nat (S i)) b (w1 ++ trace i)).

Lemma attempts_trace_S (n : nat) :
  trace (S n) = trace n ++ [attempt_call b signers il seq0 (S n)].
Proof. unfold attempts_trace. rewrite seq_S, map_app. reflexivity. Qed.

(** The state after the attempt of index [i] has met a bad nonce. *)
Lemma observe_next (fuel i : nat) (o : Z) :
  o = Z.of_nat (S i) ->
  observe (retry_from nonce_sleep fuel strategies attempt (S i)
             (mkNonceLoop (o + 1) (signed_at b signers (seq0 + o))
                ((w1 ++ trace i)
                 ++ [SubmitTransaction (signed_at b signers (seq0 + o)) il])))
  = observe (retry_from nonce_sleep fuel strategies attempt (S i)
               (state (S i))).
Proof.
  intros ->. rewrite attempts_trace_S, app_assoc. unfold attempt_call.
  rewrite attempt_tx_signed.
  replace (Z.of_nat (S i) + 1) with (Z.of_nat (S (S i))) by lia.
  apply observe_retry_builder. intros q. apply signed_at_signed_at.
Qed.

Lemma bad_nonce_step (fuel i : nat) :
  bad_nonce_reply (reply i) ->
  Z.of_nat (S i) < refreshes + 1 ->
  observe (retry_from nonce_sleep (S fuel) strategies attempt i (state i))
  = observe (retry_from nonce_sleep fuel strategies attempt (S i)
               (state (S i))).
Proof.
  intros Hbad Hlt. rewrite retry_nonce_step. cbv zeta.
  cbn [builder offset world]. unfold reply_at in Hbad.
  rewrite attempt_tx_signed in Hbad.
  destruct (submit_reply (w1 ++ trace i) _ il) as [e|r]; [contradiction|].
  cbn [bad_nonce_reply] in Hbad.
  rewrite (reports_bad_nonce_Some _ Hbad).
  apply Z.ltb_lt in Hlt. rewrite Hlt.
  apply observe_next. reflexivity.
Qed.

(** [n] more bad nonces, then an answer that is not one. *)
Lemma success_after (r : SubmitTransactionResult.t) (n : nat) :
  forall (i fuel : nat),
    (n < fuel)%nat ->
    Z.of_nat (i + n) <= refreshes ->
    (forall k, (i <= k < i + n)%nat -> bad_nonce_reply (reply k)) ->
    reply (i + n)%nat = inr r ->
    bad_nonce r = None ->
    observe (retry_from nonce_sleep fuel strategies attempt i (state i))
    = (Ret r, w1 ++ trace (S (i + n))).
Proof.
  induction n as [|n IH]; intros i fuel Hfuel Hle Hbad Hr Hok.
  - destruct fuel as [|fuel]; [lia|].
    rewrite Nat.add_0_r in *.
    rewrite retry_nonce_step. cbv zeta. cbn [builder offset world].
    unfold reply_at in Hr. rewrite attempt_tx_signed in Hr. rewrite Hr, Hok.
    unfold observe. cbn [fst snd world].
    rewrite attempts_trace_S, app_assoc. unfold attempt_call.
    rewrite attempt_tx_signed. reflexivity.
  - destruct fuel as [|fuel]; [lia|].
    rewrite bad_nonce_step; [|apply Hbad; lia|lia].
    replace (i + S n)%nat with (S i + n)%nat in * by lia.
    apply IH; try lia; try assumption.
    intros k Hk. apply Hbad. lia.
Qed.

(** Bad nonces up to the last allowed attempt. *)
Lemma exhausted_after (n : nat) :
  forall (i fuel : nat),
    (n < fuel)%nat ->
    Z.of_nat (i + n) = refreshes ->
    (forall k, (i <= k <= i + n)%nat -> bad_nonce_reply (reply k)) ->
    observe (retry_from nonce_sleep fuel strategies attempt i (state i))
    = (Raise (Agora BadNonceError), w1 ++ trace (S (i + n))).
Proof.
  induction n as [|n IH]; intros i fuel Hfuel Heq Hbad.
  - destruct fuel as [|fuel]; [lia|].
    rewrite Nat.add_0_r in *.
    rewrite retry_nonce_step. cbv zeta. cbn [builder offset world].
    specialize (Hbad i ltac:(lia)). unfold reply_at in Hbad.
    rewrite attempt_tx_signed in Hbad.
    destruct (submit_reply (w1 ++ trace i) _ il) as [e|r]; [contradiction|].
    cbn [bad_nonce_reply] in Hbad.
    rewrite (reports_bad_nonce_Some _ Hbad).
    replace (Z.of_nat (S i) <? refreshes + 1) with false
      by (symmetry; apply Z.ltb_ge; lia).
    unfold observe. cbn [fst snd world].
    rewrite attempts_trace_S, app_assoc. unfold attempt_call.
    rewrite attempt_tx_signed. reflexivity.
  - destruct fuel as [|fuel]; [lia|].
    rewrite bad_nonce_step; [|apply Hbad; lia|lia].
    replace (i + S n)%nat with (S i + n)%nat in * by lia.
    apply IH; try lia.
    intros k Hk. apply Hbad. lia.
Qed.

(** The first attempt is made at the fetched sequence plus one, and the
    loop only adds to the history. *)
Lemma first_attempt (fuel : nat) :
  exists calls,
    snd (observe (retry_from nonce_sleep (S fuel) strategies attempt 0
                    (mkNonceLoop 1 b w1)))
    = w1 ++ attempt_call b signers il seq0 1 :: calls.
Proof.
  rewrite retry_nonce_step. cbv zeta. cbn [builder offset world].
  unfold attempt_call. rewrite attempt_tx_signed.
  cbn [Z.of_nat Pos.of_succ_nat].
  set (b' := signed_at b signers (seq0 + 1)).
  assert (Hcont : forall o,
    exists calls,
      snd (observe (retry_from nonce_sleep fuel strategies attempt 1
                      (mkNonceLoop o b' (w1 ++ [SubmitTransaction b' il]))))
      = w1 ++ SubmitTransaction b' il :: calls).
  { intros o.
    destruct (retry_trace source_info signers il strategies fuel 1
                (mkNonceLoop o b' (w1 ++ [SubmitTransaction b' il])))
      as (calls & Hw & _).
    exists calls. unfold observe. cbn [snd]. rewrite Hw. cbn [world].
    rewrite <- app_assoc. reflexivity. }
  assert (Hstop : forall (A : Type) (x : outcome A) o,
    exists calls,
      snd (observe (x, mkNonceLoop o b' (w1 ++ [SubmitTransaction b' il])))
      = w1 ++ SubmitTransaction b' il :: calls)
    by (intros; exists []; reflexivity).
  destruct (submit_reply w1 b' il) as [e|r].
  - destruct (isinstance_BadNonceError e && _);
      [apply Hcont | apply Hstop].
  - destruct (bad_nonce r) as [e|]; [|apply Hstop].
    destruct (_ <? _); [apply Hcont | apply Hstop].
Qed.

Lemma state_0 : state 0 = mkNonceLoop 1 b w1.
Proof. unfold attempts_trace. cbn. rewrite app_nil_r. reflexivity. Qed.

Lemma success_from_start (r : SubmitTransactionResult.t) (n fuel : nat) :
  (n < fuel)%nat ->
  Z.of_nat n <= refreshes ->
  (forall k, (k < n)%nat -> bad_nonce_reply (reply k)) ->
  reply n = inr r ->
  bad_nonce r = None ->
  observe (retry_from nonce_sleep fuel strategies attempt 0
             (mkNonceLoop 1 b w1))
  = (Ret r, w1 ++ trace (S n)).
Proof.
  intros Hfuel Hle Hbad Hr Hok. rewrite <- state_0.
  apply (success_after r n 0 fuel); try assumption.
  intros k Hk. apply Hbad. lia.
Qed.

Lemma exhausted_from_start (fuel : nat) :
  0 <= refreshes ->
  (Z.to_nat refreshes < fuel)%nat ->
  (forall k, Z.of_nat k <= refreshes -> bad_nonce_reply (reply k)) ->
  observe (retry_from nonce_sleep fuel strategies attempt 0
             (mkNonceLoop 1 b w1))
  = (Raise (Agora BadNonceError), w1 ++ trace (S (Z.to_nat refreshes))).
Proof.
  intros Hnonneg Hfuel Hbad. rewrite <- state_0.
  apply (exhausted_after (Z.to_nat refreshes) 0 fuel); try lia.
  intros k Hk. apply Hbad. lia.
Qed.
End NonceScenarios.

(** ** [_sign_and_submit_builder] *)

Section Coordinator.
Context `{Collaborators}.
Variables (fuel : nat) (c : Client) (first : PrivateKey)
          (others : list PrivateKey) (b : Builder.t)
          (il : option InvoiceList) (w : World).

Local Notation signers := (first :: others).
Local Notation w1 := (w ++ [GetAccountInfo (public_key first)]).

(** The account is fetched once, and the loop starts at offset 1. *)
Lemma coordinator_run (info : AccountInfo) :
  account_info_reply w (public_key first) = inr info ->
  _sign_and_submit_builder fuel c signers b il w
  = observe (retry_from nonce_sleep fuel (_nonce_retry_strategies c)
               (_sign_and_submit info signers il) 0 (mkNonceLoop 1 b w1)).
Proof.
  intros Hinfo. unfold _sign_and_submit_builder, bind, get_account_info.
  rewrite Hinfo. cbn [of_reply]. unfold retry, observe.
  destruct (retry_from _ _ _ _ _ _). reflexivity.
Qed.

Lemma coordinator_account_error (e : exn) :
  account_info_reply w (public_key first) = inl e ->
  _sign_and_submit_builder fuel c signers b il w = (Raise e, w1).
Proof.
  intros Hinfo. unfold _sign_and_submit_builder, bind, get_account_info.
  rewrite Hinfo. reflexivity.
Qed.

(** What the coordinator does to the outside: one account query, then
    submissions of the builder it was given, with the invoice list it
    was given. *)
Lemma coordinator_trace :
  exists calls,
    snd (_sign_and_submit_builder fuel c signers b il w)
    = w ++ GetAccountInfo (public_key first) :: calls
    /\ Forall
         (fun call =>
            exists q, call = SubmitTransaction (signed_at b signers q) il)
         calls.
Proof.
  destruct (account_info_reply w (public_key first)) as [e|info] eqn:Hinfo.
  - rewrite (coordinator_account_error e Hinfo). exists []. split.
    + reflexivity.
    + constructor.
  - rewrite (coordinator_run info Hinfo).
    destruct (retry_trace info signers il (_nonce_retry_strategies c) fuel 0
                (mkNonceLoop 1 b w1)) as (calls & Hw & Hall).
    exists calls. unfold observe. cbn [snd]. rewrite Hw. cbn [world].
    rewrite <- app_assoc. split; [reflexivity | exact Hall].
Qed.
End Coordinator.

Lemma count_submits_app_account (w : World) (key : PublicKey) :
  count_submits (w ++ [GetAccountInfo key]) = count_submits w.
Proof.
  unfold count_submits. rewrite filter_app, length_app. simpl. lia.
Qed.

Example two_bad_nonces_then_success :
  _sign_and_submit_builder
    (H := scripted info7
            [inr (result_tx_error hashA BadNonceError);
             inr (result_tx_error hashA BadNonceError);
             inr (result_ok hashB)])
    4 (client_of 0 3) [alice] (_get_stellar_builder (client_of 0 3) alice)
    None []
  = (Ret (result_ok hashB),
     [GetAccountInfo (mkPublicKey "alice"%string);
      SubmitTransaction
        (Builder.mk "TESTNET"%string 100 "alice"%string None [] (Some 8)
           ["alice"%string]) None;
      SubmitTransaction
        (Builder.mk "TESTNET"%string 100 "alice"%string None [] (Some 9)
           ["alice"%string]) None;
      SubmitTransaction
        (Builder.mk "TESTNET"%string 100 "alice"%string None [] (Some 10)
           ["alice"%string]) None]).
Proof. vm_compute. reflexivity. Qed.

Example bad_nonces_exhausted :
  _sign_and_submit_builder
    (H := scripted info7
            [inr (result_tx_error hashA BadNonceError);
             inr (result_tx_error hashA BadNonceError);
             inr (result_ok hashB)])
    4 (client_of 0 1) [alice] (_get_stellar_builder (client_of 0 1) alice)
    None []
  = (Raise (Agora BadNonceError),
     [GetAccountInfo (mkPublicKey "alice"%string);
      SubmitTransaction
        (Builder.mk "TESTNET"%string 100 "alice"%string None [] (Some 8)
           ["alice"%string]) None;
      SubmitTransaction
        (Builder.mk "TESTNET"%string 100 "alice"%string None [] (Some 9)
           ["alice"%string]) None]).
Proof. vm_compute. reflexivity. Qed.



(** A raised exception is an instance of [BadNonceError] exactly when it
    is that error. *)
Lemma isinstance_BadNonceError_iff (e : exn) :
  isinstance_BadNonceError e = true <-> e = Agora BadNonceError.
Proof.
  split.
  - destruct e as [a| | |]; cbn; try discriminate.
    destruct a; cbn; try discriminate. reflexivity.
  - intros ->. reflexivity.
Qed.

(** C5, as the code has it: a [BadNonceError] raised by the submission
    call itself, and not reported in a result, is retried with the offset
    unchanged, so at the same sequence number: the
    second submission carries the fetched sequence plus 1, like the
    first. *)
Lemma nonce_loop_retries_raised_bad_nonce :
  _sign_and_submit_builder (H := service_raises_bad_nonce) 4 (client_of 0 3)
    [alice] builder_alice None []
  = (Ret (result_ok hashB),
     [GetAccountInfo (mkPublicKey "alice"%string);
      SubmitTransaction
        (Builder.mk "TESTNET"%string 100 "alice"%string None [] (Some 8)
           ["alice"%string]) None;
      SubmitTransaction
        (Builder.mk "TESTNET"%string 100 "alice"%string None [] (Some 8)
           ["alice"%string]) None]).
Proof. vm_compute. reflexivity. Qed.

(** C5, as amended: one turn of the nonce loop of a client built by
    [Client.__init__], on the transaction it submits (the builder with
    the fetched sequence plus the offset, signed by all the signers).  A
    result that reports no bad nonce (a success, or any other
    transaction-level error) ends the loop and is returned as it is, with
    the offset unchanged.  A result that reports a bad nonce adds 1 to
    the offset and leads to the next attempt while attempts are left, and
    to the bad-nonce error otherwise.  A [BadNonceError] raised by the
    submission call itself leads to the next attempt with the offset
    unchanged while attempts are left; any other exception, or that one
    with no attempt left, is propagated at once. *)
Theorem nonce_loop_turn `{Collaborators}
    (env : Environment) (ai : Z) (wk : option PrivateKey) (gc : bool)
    (ep : option string) (rc : option RetryConfig) (kv : Z) (c : Client)
    (info : AccountInfo) (signers : list PrivateKey)
    (il : option InvoiceList) (fuel i : nat) (st : NonceLoop) :
  Client__init__ env ai wk gc ep rc kv = inr c ->
  let refreshes := max_nonce_refreshes (effective_retry_config rc) in
  let attempt := _sign_and_submit info signers il in
  let tx :=
    Builder.mk (Builder.network (builder st)) (Builder.fee (builder st))
      (Builder.secret (builder st)) (Builder.memo (builder st))
      (Builder.ops (builder st))
      (Some (sequence_number info + offset st)) (map stellar_seed signers) in
  let w' := world st ++ [SubmitTransaction tx il] in
  let loop := retry_from nonce_sleep (S fuel) (_nonce_retry_strategies c) in
  let next := retry_from nonce_sleep fuel (_nonce_retry_strategies c) in
  let bad_nonce_result (r : SubmitTransactionResult.t) :=
    exists err,
      SubmitTransactionResult.tx_error r = Some err
      /\ TransactionErrors.tx_error err = Some BadNonceError in
  (forall r,
     submit_reply (world st) tx il = inr r ->
     ~ bad_nonce_result r ->
     loop attempt i st = (Ret r, mkNonceLoop (offset st) tx w'))
  /\ (forall r,
        submit_reply (world st) tx il = inr r ->
        bad_nonce_result r ->
        Z.of_nat (S i) < refreshes + 1 ->
        loop attempt i st
        = next attempt (S i) (mkNonceLoop (offset st + 1) tx w'))
  /\ (forall r,
        submit_reply (world st) tx il = inr r ->
        bad_nonce_result r ->
        refreshes + 1 <= Z.of_nat (S i) ->
        loop attempt i st
        = (Raise (Agora BadNonceError), mkNonceLoop (offset st + 1) tx w'))
  /\ (submit_reply (world st) tx il = inl (Agora BadNonceError) ->
      Z.of_nat (S i) < refreshes + 1 ->
      loop attempt i st = next attempt (S i) (mkNonceLoop (offset st) tx w'))
  /\ (forall e,
        submit_reply (world st) tx il = inl e ->
        e <> Agora BadNonceError \/ refreshes + 1 <= Z.of_nat (S i) ->
        loop attempt i st = (Raise e, mkNonceLoop (offset st) tx w')).
Proof.
  intros Hinit. cbv zeta.
  destruct (Client__init__strategies _ _ _ _ _ _ _ _ Hinit) as (Hs & _ & _).
  rewrite Hs. rewrite retry_nonce_step. cbv zeta.
  rewrite signed_at_eq.
  repeat split.
  - intros r Hr Hok. rewrite Hr, (not_reports_bad_nonce _ Hok). reflexivity.
  - intros r Hr Hbad Hlt. rewrite Hr, (reports_bad_nonce_Some _ Hbad).
    apply Z.ltb_lt in Hlt. rewrite Hlt. reflexivity.
  - intros r Hr Hbad Hge. rewrite Hr, (reports_bad_nonce_Some _ Hbad).
    apply Z.ltb_ge in Hge. rewrite Hge. reflexivity.
  - intros He Hlt. rewrite He. apply Z.ltb_lt in Hlt. rewrite Hlt.
    reflexivity.
  - intros e He Hstop. rewrite He.
    destruct (isinstance_BadNonceError e) eqn:Hcls; [|reflexivity].
    apply isinstance_BadNonceError_iff in Hcls.
    destruct Hstop as [Hne | Hge]; [contradiction|].
    apply Z.ltb_ge in Hge. rewrite Hge. reflexivity.
Qed.

Lemma nonce_loop_turn_witness :
  retry_from nonce_sleep 4
    (_nonce_retry_strategies (client_of 0 3))
    (_sign_and_submit (H := service_two_bad_nonces) info7 [alice] None) 0
    (mkNonceLoop 1 builder_alice [GetAccountInfo (mkPublicKey "alice"%string)])
  = retry_from nonce_sleep 3
      (_nonce_retry_strategies (client_of 0 3))
      (_sign_and_submit (H := service_two_bad_nonces) info7 [alice] None) 1
      (mkNonceLoop 2
         (Builder.mk "TESTNET"%string 100 "alice"%string None [] (Some 8)
            ["alice"%string])
         [GetAccountInfo (mkPublicKey "alice"%string);
          SubmitTransaction
            (Builder.mk "TESTNET"%string 100 "alice"%string None [] (Some 8)
               ["alice"%string]) None]).
Proof.
  assert (Hthm :=
    @nonce_loop_turn service_two_bad_nonces TEST 0 None
      false None (Some (RetryConfig__init__ None None None (Some 3))) 3
      (client_of 0 3) info7 [alice] None 3 0
      (mkNonceLoop 1 builder_alice
         [GetAccountInfo (mkPublicKey "alice"%string)])
      eq_refl).
  cbv zeta in Hthm. destruct Hthm as (_ & Hretry & _).
  apply (Hretry (result_tx_error hashA BadNonceError)).
  - reflexivity.
  - exists (TransactionErrors.mk (Some BadNonceError) []). split; reflexivity.
  - vm_compute. reflexivity.
Defined.


(** ** [submit_payment] *)

Lemma bind_keeps_state {St A B : Type} (m : M St A) (k : A -> M St B)
    (st : St) :
  (forall a st', snd (k a st') = st') ->
  snd (bind m k st) = snd (m st).
Proof.
  intros Hk. unfold bind. destruct (m st) as [[a|e|] st']; cbn [snd];
    [apply Hk | reflexivity | reflexivity].
Qed.

Lemma raise_tx_error_state result w : snd (raise_tx_error result w) = w.
Proof.
  unfold raise_tx_error.
  destruct (SubmitTransactionResult.tx_error result) as [err|]; [|reflexivity].
  destruct (TransactionErrors.op_errors err) as [|e [|e' l]];
    [destruct (TransactionErrors.tx_error err)|..]; reflexivity.
Qed.

Lemma raise_invoice_error_state `{Collaborators} result w :
  snd (raise_invoice_error result w) = w.
Proof.
  unfold raise_invoice_error.
  destruct (SubmitTransactionResult.invoice_errors result) as [|e [|e' l]];
    [|destruct (reason e)|]; reflexivity.
Qed.

Section SubmitPayment.
Context `{Collaborators}.
Variables (fuel : nat) (c : Client) (payment : Payment.t).
Hypothesis version_ok : supported_version (_kin_version c) = true.
Hypothesis accepted :
  truthy_obj (Payment.invoice payment) && (app_index c <=? 0) = false.

(** An exception raised while the memo is built leaves [submit_payment]
    before any call to the service. *)
Lemma submit_payment_memo_raises (w : World) (e : exn) :
  payment_tx c payment = inl e ->
  submit_payment fuel c payment w = (Raise e, w).
Proof.
  intros Htx. unfold submit_payment. rewrite version_ok, accepted, Htx.
  reflexivity.
Qed.

Variables (signers : list PrivateKey) (b : Builder.t)
          (invoice_list : option InvoiceList).
Hypothesis built : payment_tx c payment = inr (signers, b, invoice_list).

(** Past its two checks and the building of the transaction,
    [submit_payment] is the coordinator followed by the inspection of
    the result. *)
Lemma submit_payment_run (w : World) :
  submit_payment fuel c payment w
  = (result <- _sign_and_submit_builder fuel c signers b invoice_list ;;
     raise_tx_error result ;;;
     raise_invoice_error result ;;;
     ret (SubmitTransactionResult.tx_hash result))%py w.
Proof.
  unfold submit_payment. rewrite version_ok, accepted, built.
  reflexivity.
Qed.

(** The world after [submit_payment] is the one the coordinator left. *)
Lemma submit_payment_world (w : World) :
  snd (submit_payment fuel c payment w)
  = snd (_sign_and_submit_builder fuel c signers b invoice_list w).
Proof.
  rewrite submit_payment_run.
  apply bind_keeps_state. intros result w'.
  unfold bind.
  pose proof (raise_tx_error_state result w') as Htx.
  destruct (raise_tx_error result w') as [[u|e|] w2]; cbn [snd] in *;
    subst w2; try reflexivity.
  pose proof (raise_invoice_error_state result w') as Hinvoice.
  destruct (raise_invoice_error result w') as [[u'|e|] w3]; cbn [snd] in *;
    subst w3; reflexivity.
Qed.
End SubmitPayment.

(** The transaction of a payment with a text memo that the library
    accepts. *)
Lemma payment_tx_text_memo `{Collaborators} (c : Client)
    (payment : Payment.t) (a : ascii) (text : string) :
  Payment.memo payment = Some (String a text) ->
  text_memo_error (String a text) = None ->
  payment_tx c payment
  = inr (signers_of c (Payment.channel payment) (Payment.sender payment),
         Builder.append_payment_op
           (Builder.add_memo
              (_get_stellar_builder c
                 (source_of (Payment.channel payment)
                    (Payment.sender payment)))
              (TextMemo (String a text)))
           (payment_op c (Payment.sender payment)
              (Payment.destination payment) (Payment.quarks payment)),
         None).
Proof.
  intros Hmemo Hok. unfold payment_tx, payment_memo, add_text_memo.
  rewrite Hmemo, Hok. reflexivity.
Qed.

Lemma payment_tx_text_memo_raises `{Collaborators} (c : Client)
    (payment : Payment.t) (a : ascii) (text : string) (e : exn) :
  Payment.memo payment = Some (String a text) ->
  text_memo_error (String a text) = Some e ->
  payment_tx c payment = inl e.
Proof.
  intros Hmemo Hraises. unfold payment_tx, payment_memo, add_text_memo.
  rewrite Hmemo, Hraises. reflexivity.
Qed.

Example submit_payment_two_operation_errors :
  fst (submit_payment
         (H := scripted info7
                 [inr (result_op_errors hashA
                         [InsufficientBalanceError; InsufficientFeeError])])
         4 (client_of 0 3) payment_plain [])
  = Raise (Agora (Error
      "invalid number of operation errors, expected 0 or 1, got 2"%string)).
Proof. vm_compute. reflexivity. Qed.

Example submit_payment_already_paid :
  fst (submit_payment
         (H := scripted info7 [inr (result_invoice_errors hashA [ALREADY_PAID])])
         4 (client_of 0 3) payment_plain [])
  = Raise (Agora AlreadyPaidError).
Proof. vm_compute. reflexivity. Qed.

(** A text memo of 29 bytes is refused when the builder is given it:
    nothing is asked of the service. *)
Example submit_payment_long_text_memo :
  submit_payment (H := service_ok) 4 (client_of 1 3)
    (Payment.mk alice bob SPEND 10 None None
       (Some "12345678901234567890123456789"%string))
    []
  = (Raise (OtherException "NotValidParamError"%string), []).
Proof. vm_compute. reflexivity. Qed.

(** An app index that the memo cannot hold is refused by [AgoraMemo.new]:
    nothing is asked of the service. *)
Example submit_payment_large_app_index :
  submit_payment (H := service_ok) 4 (client_of 65536 3) payment_plain []
  = (Raise (ValueError "invalid app index"%string), []).
Proof. vm_compute. reflexivity. Qed.

(** C9: when the result that the coordinator returns to [submit_payment]
    carries a transaction-level error with a non-empty list of operation
    errors, [submit_payment] raises the single operation error when the
    list has one entry and a generic [Error] otherwise, whatever the
    whole-transaction error and the invoice errors of that result are. *)
Theorem submit_payment_raises_operation_error `{Collaborators}
    (fuel : nat) (c : Client) (payment : Payment.t) (w w' : World)
    (signers : list PrivateKey) (b : Builder.t)
    (invoice_list : option InvoiceList)
    (tx_hash : bytes) (whole_tx_error : option AgoraError)
    (op_errors : list AgoraError) (invoice_errors : list InvoiceErrorEntry) :
  supported_version (_kin_version c) = true ->
  truthy_obj (Payment.invoice payment) && (app_index c <=? 0) = false ->
  payment_tx c payment = inr (signers, b, invoice_list) ->
  _sign_and_submit_builder fuel c signers b invoice_list w
  = (Ret (SubmitTransactionResult.mk tx_hash
            (Some (TransactionErrors.mk whole_tx_error op_errors))
            invoice_errors),
     w') ->
  op_errors <> [] ->
  submit_payment fuel c payment w
  = (Raise
       (Agora
          match op_errors with
          | [op_error] => op_error
          | _ =>
              Error
                ("invalid number of operation errors, expected 0 or 1, got "
                 ++ str_of_nat (List.length op_errors))%string
          end),
     w').
Proof.
  intros Hversion Hinv Hbuilt Hrun Hne.
  rewrite (submit_payment_run fuel c payment Hversion Hinv signers b
             invoice_list Hbuilt w).
  unfold bind at 1. rewrite Hrun.
  unfold bind, raise_tx_error.
  cbn [SubmitTransactionResult.tx_error TransactionErrors.op_errors].
  destruct op_errors as [|e [|e' l]]; [contradiction|reflexivity|reflexivity].
Qed.

Lemma submit_payment_raises_operation_error_witness :
  fst (submit_payment (H := service_all_errors) 4 (client_of 0 3)
         payment_plain [])
  = Raise (Agora InsufficientBalanceError).
Proof.
  rewrite (@submit_payment_raises_operation_error service_all_errors 4
             (client_of 0 3) payment_plain []
             (snd (submit_payment (H := service_all_errors) 4 (client_of 0 3)
                     payment_plain []))
             [alice]
             (Builder.mk "TESTNET"%string 100 "alice"%string None
                [mkPaymentOp "bob"%string "10"%string "alice"%string None]
                None [])
             None
             hashA (Some TransactionRejectedError) [InsufficientBalanceError]
             [mkInvoiceErrorEntry ALREADY_PAID]).
  - reflexivity.
  - reflexivity.
  - reflexivity.
  - reflexivity.
  - vm_compute. reflexivity.
  - discriminate.
Defined.

Lemma signers_of_first (c : Client) (channel : option PrivateKey)
    (sender : PrivateKey) :
  exists others,
    signers_of c channel sender
    = match channel with
      | Some ch => ch
      | None => sender
      end :: others.
Proof.
  unfold signers_of.
  destruct channel as [ch|]; destruct (whitelist_key c) as [key|];
    eexists; reflexivity.
Qed.



(** A caller who supplies both a memo and an invoice is refused when the
    payment is built. *)
Example submit_new_payment_memo_and_invoice :
  submit_new_payment (H := service_ok) 4 (client_of 1 3) alice bob SPEND 10
    None (Some an_invoice) (Some "hi"%string) []
  = (Raise (ValueError "only one of invoice or memo can be set"%string), []).
Proof. reflexivity. Qed.

(** ** [partition] *)

Example partition_five_by_two :
  partition [1; 2; 3; 4; 5] 2 = [[1; 2]; [3; 4]; [5]].
Proof. reflexivity. Qed.

Lemma partition_concat_bounded {A : Type} (m k : nat) :
  forall l : list A, (List.length l <= k)%nat -> concat (partition l (S m)) = l.
Proof.
  induction k as [|k IH]; intros l Hk.
  - destruct l; [reflexivity | simpl in Hk; lia].
  - destruct l as [|x xs]; [reflexivity|].
    simp partition. cbn [concat]. rewrite IH.
    + apply firstn_skipn.
    + rewrite length_skipn. simpl in *. lia.
Qed.

(** The sub-batches, put end to end, are the list. *)
Lemma partition_concat {A : Type} (l : list A) (m : nat) :
  concat (partition l (S m)) = l.
Proof. apply (partition_concat_bounded m (List.length l)). lia. Qed.

Lemma partition_sizes_bounded {A : Type} (m k : nat) :
  forall l : list A,
    (List.length l <= k)%nat ->
    Forall (fun chunk => (List.length chunk <= S m)%nat) (partition l (S m)).
Proof.
  induction k as [|k IH]; intros l Hk.
  - destruct l; [simp partition; constructor | simpl in Hk; lia].
  - destruct l as [|x xs]; [simp partition; constructor|].
    simp partition. constructor.
    + rewrite length_firstn. lia.
    + apply IH. rewrite length_skipn. simpl in *. lia.
Qed.

(** No sub-batch is larger than the size asked for. *)
Lemma partition_sizes {A : Type} (l : list A) (m : nat) :
  Forall (fun chunk => (List.length chunk <= S m)%nat) (partition l (S m)).
Proof. apply (partition_sizes_bounded m (List.length l)). lia. Qed.

(** ** The results of a failed sub-batch *)

Lemma skipn_cons_nth_error {A : Type} (idx : nat) (l : list A) (x : A) :
  nth_error l idx = Some x -> skipn idx l = x :: skipn (S idx) l.
Proof.
  revert l; induction idx as [|idx IH]; intros [|y l] Hnth;
    try discriminate.
  - inversion Hnth. reflexivity.
  - cbn [nth_error] in Hnth. cbn [skipn]. rewrite (IH l Hnth). reflexivity.
Qed.

Lemma op_error_results_spec (tx_hash : bytes) (op_errors : list AgoraError)
    (earn_batch : list Earn.t) :
  forall idx,
    match op_error_results tx_hash op_errors idx earn_batch with
    | inr results =>
        (idx + List.length earn_batch <= List.length op_errors
         \/ earn_batch = [])%nat
        /\ results
           = map (fun p => EarnResult.mk (fst p) (Some tx_hash) (Some (snd p)))
               (combine earn_batch (skipn idx op_errors))
        /\ map EarnResult.earn results = earn_batch
    | inl e =>
        e = IndexError
        /\ (List.length op_errors < idx + List.length earn_batch)%nat
    end.
Proof.
  induction earn_batch as [|earn rest IH]; intros idx.
  - cbn. auto.
  - cbn [op_error_results].
    destruct (nth_error op_errors idx) as [e|] eqn:Hnth.
    + specialize (IH (S idx)).
      assert (Hlt : (idx < List.length op_errors)%nat)
        by (apply nth_error_Some; congruence).
      destruct (op_error_results tx_hash op_errors (S idx) rest)
        as [x|results].
      * destruct IH as (-> & Hlen). split; [reflexivity|]. simpl. lia.
      * destruct IH as (Hlen & -> & Hearns). split; [|split].
        -- left. simpl.
           destruct Hlen as [Hlen| ->]; simpl; lia.
        -- rewrite (skipn_cons_nth_error idx op_errors e Hnth).
           reflexivity.
        -- cbn [map EarnResult.earn]. rewrite Hearns. reflexivity.
    + apply nth_error_None in Hnth. split; [reflexivity|]. simpl. lia.
Qed.

(** ** [submit_earn_batch] *)

Lemma validate_earn_batch_cases (c : Client) (earns : list Earn.t)
    (memo : option string) (w : World) :
  validate_earn_batch c earns memo w = (Ret tt, w)
  \/ exists msg, validate_earn_batch c earns memo w = (Raise (ValueError msg), w).
Proof.
  unfold validate_earn_batch.
  destruct (earn_invoices earns); [left; reflexivity|].
  destruct (app_index c <=? 0); [right; eexists; reflexivity|].
  destruct (negb _); [right; eexists; reflexivity|].
  destruct (truthy_str memo); [right; eexists; reflexivity|].
  left; reflexivity.
Qed.

Lemma map_earn_succeeded (tx_hash : option bytes) (error : option AgoraError)
    (earns : list Earn.t) :
  map EarnResult.earn
    (map (fun earn => EarnResult.mk earn tx_hash error) earns)
  = earns.
Proof. rewrite map_map. cbn. apply map_id. Qed.

Section BatchFacts.
Context `{Collaborators}.
Variables (fuel : nat) (c : Client) (sender : PrivateKey)
          (channel : option PrivateKey) (memo : option string).

Local Notation loop := (earn_batch_loop fuel c sender channel memo).
Local Notation submit_tx :=
  (fun earn_batch => _submit_earn_batch_tx fuel c sender earn_batch channel memo).

(** The two lists the loop returns are, end to end, the earns of the
    sub-batches it went through, in order. *)
Lemma earn_batch_loop_prefix (batches : list (list Earn.t)) :
  forall succeeded w succeeded' failed' w',
    loop batches succeeded [] w = (Ret (succeeded', failed'), w') ->
    exists rest,
      map EarnResult.earn succeeded' ++ map EarnResult.earn failed' ++ rest
      = map EarnResult.earn succeeded ++ concat batches.
Proof.
  induction batches as [|earn_batch batches IH];
    intros succeeded w succeeded' failed' w' Hloop.
  - cbn in Hloop. inversion Hloop; subst. exists []. reflexivity.
  - cbn [earn_batch_loop] in Hloop.
    destruct (_submit_earn_batch_tx fuel c sender earn_batch channel memo w)
      as [[result|e|] w1].
    + destruct (SubmitTransactionResult.tx_error result) as [err|].
      * destruct (TransactionErrors.op_errors err) as [|op op_errors] eqn:Hops.
        -- inversion Hloop; subst. exists (concat batches).
           cbn [app concat]. rewrite map_earn_succeeded. reflexivity.
        -- pose proof (op_error_results_spec
                         (SubmitTransactionResult.tx_hash result)
                         (op :: op_errors) earn_batch 0) as Hspec.
           destruct (op_error_results _ (op :: op_errors) 0 earn_batch)
             as [x|results]; [discriminate|].
           destruct Hspec as (_ & _ & Hearns).
           injection Hloop as <- <- <-. exists (concat batches).
           cbn [app concat]. rewrite Hearns. reflexivity.
      * apply IH in Hloop. destruct Hloop as (rest & Hrest).
        exists rest. rewrite Hrest, map_app, map_earn_succeeded.
        cbn [concat]. rewrite app_assoc. reflexivity.
    + destruct e; try discriminate.
      inversion Hloop; subst. exists (concat batches).
      cbn [app concat]. rewrite map_earn_succeeded. reflexivity.
    + discriminate.
Qed.

(** Sub-batches that succeed only add to [succeeded]. *)
Lemma earn_batch_loop_app (pre : list (list Earn.t)) :
  forall rest succeeded failed w results w1,
    all_succeed fuel c sender channel memo pre w = Some (results, w1) ->
    loop (pre ++ rest) succeeded failed w
    = loop rest (succeeded ++ results) failed w1.
Proof.
  induction pre as [|earn_batch pre IH];
    intros rest succeeded failed w results w1 Hpre.
  - cbn in Hpre. inversion Hpre; subst. rewrite app_nil_r. reflexivity.
  - cbn [all_succeed] in Hpre. cbn [app earn_batch_loop].
    destruct (_submit_earn_batch_tx fuel c sender earn_batch channel memo w)
      as [[result|e|] w2]; try discriminate.
    destruct (SubmitTransactionResult.tx_error result); [discriminate|].
    destruct (all_succeed fuel c sender channel memo pre w2)
      as [[results' w3]|] eqn:Hrest; [|discriminate].
    inversion Hpre; subst.
    rewrite (IH rest _ failed w2 results' w1 Hrest), app_assoc.
    reflexivity.
Qed.

Lemma all_succeed_earns (pre : list (list Earn.t)) :
  forall w results w1,
    all_succeed fuel c sender channel memo pre w = Some (results, w1) ->
    map EarnResult.earn results = concat pre.
Proof.
  induction pre as [|earn_batch pre IH]; intros w results w1 Hpre.
  - cbn in Hpre. inversion Hpre. reflexivity.
  - cbn [all_succeed] in Hpre.
    destruct (_submit_earn_batch_tx fuel c sender earn_batch channel memo w)
      as [[result|e|] w2]; try discriminate.
    destruct (SubmitTransactionResult.tx_error result); [discriminate|].
    destruct (all_succeed fuel c sender channel memo pre w2)
      as [[results' w3]|] eqn:Hrest; [|discriminate].
    inversion Hpre; subst.
    rewrite map_app, map_earn_succeeded, (IH _ _ _ Hrest). reflexivity.
Qed.

(** Past its checks [submit_earn_batch] is the loop followed by the
    earns that were never attempted. *)
Lemma submit_earn_batch_run (earns : list Earn.t) (w : World) :
  supported_version (_kin_version c) = true ->
  fst (validate_earn_batch c earns memo w) = Ret tt ->
  submit_earn_batch fuel c sender earns channel memo w
  = match loop (partition earns 100) [] [] w with
    | (Ret (succeeded, failed), w') =>
        (Ret (BatchEarnResult.mk succeeded
                (failed
                 ++ map unattempted
                      (skipn (List.length succeeded + List.length failed)
                         earns))),
         w')
    | (Raise e, w') => (Raise e, w')
    | (OutOfFuel, w') => (OutOfFuel, w')
    end.
Proof.
  intros Hversion Hvalid. unfold submit_earn_batch. rewrite Hversion.
  cbn [negb]. unfold bind at 1.
  destruct (validate_earn_batch_cases c earns memo w) as [Hv | (msg & Hv)];
    rewrite Hv in *; [|discriminate].
  unfold bind.
  destruct (loop (partition earns 100) [] [] w) as [[[s f]|e|] w'];
    reflexivity.
Qed.
End BatchFacts.

Lemma skipn_app_length {A : Type} (l rest : list A) :
  skipn (List.length l) (l ++ rest) = rest.
Proof. induction l as [|x l IH]; [reflexivity | exact IH]. Qed.

Lemma firstn_app_length {A : Type} (l rest : list A) :
  firstn (List.length l) (l ++ rest) = l.
Proof.
  induction l as [|x l IH]; [reflexivity | cbn; rewrite IH; reflexivity].
Qed.

Example submit_earn_batch_second_rejected :
  fst (submit_earn_batch (H := service_second_rejected) 4 (client_of 0 3)
         alice earns_150 None None [])
  = Ret (BatchEarnResult.mk
           (repeat (EarnResult.mk earn_bob (Some hashA) None) 100)
           (repeat
              (EarnResult.mk earn_carol (Some hashB)
                 (Some TransactionRejectedError))
              50)).
Proof. vm_compute. reflexivity. Qed.

(** C1: whenever [submit_earn_batch] returns a [BatchEarnResult], on
    whatever path, the earns of [succeeded] followed by the earns of
    [failed] are the input list: the two lengths add up to the number of
    earns, [succeeded] holds the first earns and [failed] the others, each
    in input order and each input position once. *)
Theorem submit_earn_batch_partition `{Collaborators}
    (fuel : nat) (c : Client) (sender : PrivateKey) (earns : list Earn.t)
    (channel : option PrivateKey) (memo : option string) (w w' : World)
    (result : BatchEarnResult.t) :
  submit_earn_batch fuel c sender earns channel memo w = (Ret result, w') ->
  (List.length (BatchEarnResult.succeeded result)
   + List.length (BatchEarnResult.failed result)
   = List.length earns)%nat
  /\ map EarnResult.earn (BatchEarnResult.succeeded result)
     ++ map EarnResult.earn (BatchEarnResult.failed result)
     = earns
  /\ exists k,
       map EarnResult.earn (BatchEarnResult.succeeded result) = firstn k earns
       /\ map EarnResult.earn (BatchEarnResult.failed result) = skipn k earns.
Proof.
  intros Hrun.
  destruct (supported_version (_kin_version c)) eqn:Hversion;
    [|unfold submit_earn_batch in Hrun; rewrite Hversion in Hrun;
      discriminate].
  destruct (validate_earn_batch_cases c earns memo w) as [Hval | (msg & Hval)];
    [|unfold submit_earn_batch in Hrun; rewrite Hversion in Hrun;
      cbn [negb] in Hrun; unfold bind at 1 in Hrun; rewrite Hval in Hrun;
      discriminate].
  rewrite submit_earn_batch_run in Hrun
    by (try assumption; rewrite Hval; reflexivity).
  destruct (earn_batch_loop fuel c sender channel memo (partition earns 100)
              [] [] w) as [[[s f]|e|] w1] eqn:Hloop; try discriminate.
  injection Hrun as <- <-.
  apply earn_batch_loop_prefix in Hloop. destruct Hloop as (rest & Hrest).
  cbn [map app] in Hrest. rewrite partition_concat in Hrest.
  cbn [BatchEarnResult.succeeded BatchEarnResult.failed].
  assert (Hskip :
    skipn (List.length s + List.length f) earns = rest).
  { rewrite <- Hrest, app_assoc.
    replace (List.length s + List.length f)%nat
      with (List.length (map EarnResult.earn s ++ map EarnResult.earn f))
      by (rewrite length_app, !length_map; reflexivity).
    apply skipn_app_length. }
  rewrite Hskip.
  assert (Hall :
    map EarnResult.earn s
    ++ map EarnResult.earn (f ++ map unattempted rest) = earns).
  { rewrite map_app. unfold unattempted. rewrite map_earn_succeeded.
    exact Hrest. }
  split; [|split].
  - apply (f_equal (@List.length Earn.t)) in Hall.
    rewrite length_app, !length_map in Hall. exact Hall.
  - exact Hall.
  - exists (List.length (map EarnResult.earn s)). split.
    + pose proof (firstn_app_length (map EarnResult.earn s)
                    (map EarnResult.earn (f ++ map unattempted rest))) as Hf.
      rewrite Hall in Hf. symmetry. exact Hf.
    + pose proof (skipn_app_length (map EarnResult.earn s)
                    (map EarnResult.earn (f ++ map unattempted rest))) as Hs.
      rewrite Hall in Hs. symmetry. exact Hs.
Qed.

Lemma submit_earn_batch_partition_witness :
  map EarnResult.earn
    (BatchEarnResult.succeeded
       (BatchEarnResult.mk
          (repeat (EarnResult.mk earn_bob (Some hashA) None) 100)
          (repeat
             (EarnResult.mk earn_carol (Some hashB)
                (Some TransactionRejectedError))
             50)))
  ++ map EarnResult.earn
       (BatchEarnResult.failed
          (BatchEarnResult.mk
             (repeat (EarnResult.mk earn_bob (Some hashA) None) 100)
             (repeat
                (EarnResult.mk earn_carol (Some hashB)
                   (Some TransactionRejectedError))
                50)))
  = earns_150.
Proof.
  apply (@submit_earn_batch_partition service_second_rejected 4
           (client_of 0 3) alice earns_150 None None []
           (snd (submit_earn_batch (H := service_second_rejected) 4
                   (client_of 0 3) alice earns_150 None None []))).
  vm_compute. reflexivity.
Defined.

Lemma earn_invoices_length (earns : list Earn.t) :
  (List.length (earn_invoices earns) <= List.length earns)%nat.
Proof.
  induction earns as [|earn earns IH]; [cbn; lia|].
  unfold earn_invoices in *. cbn [flat_map].
  destruct (Earn.invoice earn); cbn [app List.length]; lia.
Qed.

Lemma earn_invoices_some (earns : list Earn.t) :
  some_invoice earns -> earn_invoices earns <> [].
Proof.
  intros (earn & Hin & Hinv).
  induction earns as [|earn' earns IH]; [contradiction|].
  unfold earn_invoices in *. cbn [flat_map].
  destruct Hin as [-> | Hin].
  - destruct (Earn.invoice earn); [discriminate | congruence].
  - destruct (Earn.invoice earn'); [discriminate|]. exact (IH Hin).
Qed.

Lemma earn_invoices_mixed (earns : list Earn.t) :
  some_without_invoice earns ->
  (List.length (earn_invoices earns) < List.length earns)%nat.
Proof.
  intros (earn & Hin & Hinv).
  induction earns as [|earn' earns IH]; [contradiction|].
  pose proof (earn_invoices_length earns) as Hle.
  unfold earn_invoices in *. cbn [flat_map].
  destruct Hin as [-> | Hin].
  - rewrite Hinv. cbn [app List.length]. lia.
  - specialize (IH Hin).
    destruct (Earn.invoice earn'); cbn [app List.length]; lia.
Qed.

Example submit_earn_batch_invoice_without_app_index :
  submit_earn_batch (H := service_ok) 4 (client_of 0 3) alice
    [earn_bob_invoice] None None []
  = (Raise (ValueError
       "cannot submit a payment with an invoice without an app index"%string),
     []).
Proof. reflexivity. Qed.

Example submit_earn_batch_memo_and_invoices :
  submit_earn_batch (H := service_ok) 4 (client_of 1 3) alice
    [earn_bob_invoice] None (Some "hi"%string) []
  = (Raise (ValueError "Cannot use both text memo and invoices"%string), []).
Proof. reflexivity. Qed.

(** C6: [submit_earn_batch] of a client of a supported version raises a
    configuration error ([ValueError]) and leaves the history as it was,
    so that no call to the service is made, when some but not all earns
    carry an invoice, when an earn carries an invoice and the app index is
    [<= 0], and when a (non-empty) text memo is given beside an
    invoice. *)
Theorem submit_earn_batch_validation `{Collaborators}
    (fuel : nat) (c : Client) (sender : PrivateKey) (earns : list Earn.t)
    (channel : option PrivateKey) (memo : option string) (w : World) :
  supported_version (_kin_version c) = true ->
  (some_invoice earns /\ some_without_invoice earns)
  \/ (some_invoice earns /\ app_index c <= 0)
  \/ (some_invoice earns /\ truthy_str memo = true) ->
  exists msg,
    submit_earn_batch fuel c sender earns channel memo w
    = (Raise (ValueError msg), w).
Proof.
  intros Hversion Hcases.
  assert (Hsome : some_invoice earns) by (destruct Hcases as [[]|[[]|[]]]; auto).
  apply earn_invoices_some in Hsome.
  unfold submit_earn_batch. rewrite Hversion. cbn [negb].
  unfold bind at 1, validate_earn_batch.
  destruct (earn_invoices earns) as [|i invoices] eqn:Hinvoices;
    [congruence|].
  destruct (Z.leb_spec (app_index c) 0) as [Hle|Hgt];
    [eexists; reflexivity|].
  destruct (Nat.eqb_spec (List.length (i :: invoices)) (List.length earns))
    as [Heq|Hne]; cbn [negb]; [|eexists; reflexivity].
  destruct (truthy_str memo) eqn:Hmemo; [eexists; reflexivity|].
  exfalso. destruct Hcases as [(_ & Hmixed) | [(_ & Hle) | (_ & Hm)]].
  - apply earn_invoices_mixed in Hmixed. rewrite Hinvoices in Hmixed. lia.
  - lia.
  - discriminate.
Qed.

Lemma submit_earn_batch_validation_witness :
  exists msg,
    submit_earn_batch (H := service_ok) 4 (client_of 1 3) alice
      [earn_bob_invoice; earn_carol] None None []
    = (Raise (ValueError msg), []).
Proof.
  apply (@submit_earn_batch_validation service_ok 4 (client_of 1 3) alice
           [earn_bob_invoice; earn_carol] None None [] eq_refl).
  left. split.
  - exists earn_bob_invoice. split; [left; reflexivity | discriminate].
  - exists earn_carol. split; [right; left; reflexivity | reflexivity].
Defined.

Section BatchStops.
Context `{Collaborators}.
Variables (fuel : nat) (c : Client) (sender : PrivateKey)
          (earns : list Earn.t) (channel : option PrivateKey)
          (memo : option string) (w w1 : World)
          (pre : list (list Earn.t)) (earn_batch : list Earn.t)
          (post : list (list Earn.t)) (succeeded : list EarnResult.t).
Hypothesis version_ok : supported_version (_kin_version c) = true.
Hypothesis valid : fst (validate_earn_batch c earns memo w) = Ret tt.
Hypothesis batches : partition earns 100 = pre ++ earn_batch :: post.
Hypothesis pre_ok :
  all_succeed fuel c sender channel memo pre w = Some (succeeded, w1).

Local Notation loop := (earn_batch_loop fuel c sender channel memo).

(** The run from the sub-batch [earn_batch] on. *)
Lemma submit_earn_batch_from :
  submit_earn_batch fuel c sender earns channel memo w
  = match loop (earn_batch :: post) succeeded [] w1 with
    | (Ret (succeeded', failed), w') =>
        (Ret (BatchEarnResult.mk succeeded'
                (failed
                 ++ map unattempted
                      (skipn (List.length succeeded' + List.length failed)
                         earns))),
         w')
    | (Raise e, w') => (Raise e, w')
    | (OutOfFuel, w') => (OutOfFuel, w')
    end.
Proof.
  rewrite (submit_earn_batch_run fuel c sender channel memo earns w
             version_ok valid).
  rewrite batches.
  rewrite (earn_batch_loop_app fuel c sender channel memo pre
             (earn_batch :: post) [] [] w succeeded w1 pre_ok).
  reflexivity.
Qed.

(** The earns after a sub-batch that failed as a whole. *)
Lemma skipn_after_failed (failed : list EarnResult.t) :
  List.length failed = List.length earn_batch ->
  skipn (List.length succeeded + List.length failed) earns = concat post.
Proof.
  intros Hlen.
  pose proof (partition_concat earns 99) as Hearns.
  change (S 99) with 100%nat in Hearns.
  rewrite batches, concat_app in Hearns. cbn [concat] in Hearns.
  rewrite <- Hearns, app_assoc.
  replace (List.length succeeded + List.length failed)%nat
    with (List.length (concat pre ++ earn_batch)).
  - apply skipn_app_length.
  - rewrite length_app,
      <- (all_succeed_earns fuel c sender channel memo pre w succeeded w1
            pre_ok),
      length_map, Hlen.
    reflexivity.
Qed.

Lemma earn_batch_small : (List.length earn_batch <= 100)%nat.
Proof.
  pose proof (partition_sizes earns 99) as Hsizes.
  change (S 99) with 100%nat in Hsizes. rewrite batches in Hsizes.
  apply Forall_app in Hsizes. destruct Hsizes as (_ & Hsizes).
  inversion Hsizes; assumption.
Qed.

(** A sub-batch whose submission raises an [Error] of the library. *)
Lemma submit_earn_batch_Error (a : AgoraError) (w2 : World) :
  _submit_earn_batch_tx fuel c sender earn_batch channel memo w1
  = (Raise (Agora a), w2) ->
  submit_earn_batch fuel c sender earns channel memo w
  = (Ret (BatchEarnResult.mk succeeded
            (map (fun earn => EarnResult.mk earn None (Some a)) earn_batch
             ++ map unattempted (concat post))),
     w2).
Proof.
  intros Htx. rewrite submit_earn_batch_from.
  cbn [earn_batch_loop]. rewrite Htx. cbn [app].
  rewrite skipn_after_failed by apply length_map. reflexivity.
Qed.

(** A sub-batch whose submission raises any other exception. *)
Lemma submit_earn_batch_other_exception (e : exn) (w2 : World) :
  _submit_earn_batch_tx fuel c sender earn_batch channel memo w1
  = (Raise e, w2) ->
  isinstance_Error e = false ->
  submit_earn_batch fuel c sender earns channel memo w = (Raise e, w2).
Proof.
  intros Htx Hcls. rewrite submit_earn_batch_from.
  cbn [earn_batch_loop]. rewrite Htx.
  destruct e; [discriminate | reflexivity ..].
Qed.

(** A sub-batch with fewer operation errors than earns. *)
Lemma submit_earn_batch_IndexError
    (result : SubmitTransactionResult.t) (err : TransactionErrors.t)
    (w2 : World) :
  _submit_earn_batch_tx fuel c sender earn_batch channel memo w1
  = (Ret result, w2) ->
  SubmitTransactionResult.tx_error result = Some err ->
  TransactionErrors.op_errors err <> [] ->
  (List.length (TransactionErrors.op_errors err)
   < List.length earn_batch)%nat ->
  submit_earn_batch fuel c sender earns channel memo w
  = (Raise IndexError, w2).
Proof.
  intros Htx Herr Hne Hlt. rewrite submit_earn_batch_from.
  cbn [earn_batch_loop]. rewrite Htx, Herr.
  destruct (TransactionErrors.op_errors err) as [|op ops] eqn:Hops;
    [congruence|].
  pose proof (op_error_results_spec (SubmitTransactionResult.tx_hash result)
                (op :: ops) earn_batch 0) as Hspec.
  destruct (op_error_results _ (op :: ops) 0 earn_batch) as [x|results].
  - destruct Hspec as (-> & _). reflexivity.
  - destruct Hspec as ([Hlen | ->] & _); cbn in *; lia.
Qed.
End BatchStops.

Example submit_earn_batch_Error_is_caught :
  fst (submit_earn_batch
         (H := scripted info7 [inl (Agora TransactionMalformedError)])
         4 (client_of 0 3) alice [earn_bob; earn_carol] None None [])
  = Ret (BatchEarnResult.mk []
           [EarnResult.mk earn_bob None (Some TransactionMalformedError);
            EarnResult.mk earn_carol None (Some TransactionMalformedError)]).
Proof. vm_compute. reflexivity. Qed.

Example submit_earn_batch_too_few_op_errors :
  fst (submit_earn_batch (H := service_two_op_errors) 4 (client_of 0 3) alice
         [earn_bob; earn_carol; earn_bob] None None [])
  = Raise IndexError.
Proof. vm_compute. reflexivity. Qed.

(** C10: in the loop of [submit_earn_batch], with the sub-batches before
    [earn_batch] submitted with success, an exception of the library's
    [Error] class raised by the submission of [earn_batch] becomes the
    error of every earn of that sub-batch in [failed], and the earns after
    it are recorded as never attempted; any other exception, and the
    [IndexError] of an operation-error list shorter than the sub-batch,
    leaves [submit_earn_batch] as it is and no [BatchEarnResult] is
    returned. *)
Theorem submit_earn_batch_catches_only_Error `{Collaborators}
    (fuel : nat) (c : Client) (sender : PrivateKey) (earns : list Earn.t)
    (channel : option PrivateKey) (memo : option string) (w w1 w2 : World)
    (pre : list (list Earn.t)) (earn_batch : list Earn.t)
    (post : list (list Earn.t)) (succeeded : list EarnResult.t) :
  supported_version (_kin_version c) = true ->
  fst (validate_earn_batch c earns memo w) = Ret tt ->
  partition earns 100 = pre ++ earn_batch :: post ->
  all_succeed fuel c sender channel memo pre w = Some (succeeded, w1) ->
  let submission :=
    _submit_earn_batch_tx fuel c sender earn_batch channel memo w1 in
  let run := submit_earn_batch fuel c sender earns channel memo w in
  (forall a,
     submission = (Raise (Agora a), w2) ->
     run
     = (Ret (BatchEarnResult.mk succeeded
               (map (fun earn => EarnResult.mk earn None (Some a)) earn_batch
                ++ map unattempted (concat post))),
        w2))
  /\ (forall e,
        submission = (Raise e, w2) ->
        isinstance_Error e = false ->
        run = (Raise e, w2))
  /\ (forall result err,
        submission = (Ret result, w2) ->
        SubmitTransactionResult.tx_error result = Some err ->
        TransactionErrors.op_errors err <> [] ->
        (List.length (TransactionErrors.op_errors err)
         < List.length earn_batch)%nat ->
        run = (Raise IndexError, w2)).
Proof.
  intros Hversion Hvalid Hbatches Hpre. cbv zeta. repeat split.
  - intros a Htx. eapply submit_earn_batch_Error; eassumption.
  - intros e Htx Hcls. eapply submit_earn_batch_other_exception; eassumption.
  - intros result err Htx Herr Hne Hlt.
    eapply submit_earn_batch_IndexError; eassumption.
Qed.

Lemma submit_earn_batch_catches_only_Error_witness :
  submit_earn_batch (H := service_raises_ValueError) 4 (client_of 0 3) alice
    [earn_bob; earn_carol] None None []
  = (Raise (ValueError "boom"%string),
     snd (_submit_earn_batch_tx (H := service_raises_ValueError) 4
            (client_of 0 3) alice [earn_bob; earn_carol] None None [])).
Proof.
  assert (Hthm :=
    @submit_earn_batch_catches_only_Error service_raises_ValueError 4
      (client_of 0 3) alice [earn_bob; earn_carol] None None [] []
      (snd (_submit_earn_batch_tx (H := service_raises_ValueError) 4
              (client_of 0 3) alice [earn_bob; earn_carol] None None []))
      [] [earn_bob; earn_carol] [] [] eq_refl eq_refl eq_refl eq_refl).
  cbv zeta in Hthm. destruct Hthm as (_ & Hother & _).
  apply Hother.
  - vm_compute. reflexivity.
  - reflexivity.
Defined.

(** C3, as the code has it: the [Error] that [_submit_earn_batch_tx]
    raises on invoice errors is caught by [submit_earn_batch], which
    returns a [BatchEarnResult] whose failed earns carry that error. *)
Lemma submit_earn_batch_maps_invoice_errors :
  fst (submit_earn_batch (H := service_invoice_error) 4 (client_of 0 3) alice
         [earn_bob; earn_carol] None None [])
  = Ret (BatchEarnResult.mk []
           [EarnResult.mk earn_bob None
              (Some (Error "unexpected invoice errors present"%string));
            EarnResult.mk earn_carol None
              (Some (Error "unexpected invoice errors present"%string))]).
Proof. vm_compute. reflexivity. Qed.

(** C3, amended: when the coordinator returns, for the sub-batch
    [earn_batch], a result that carries invoice errors,
    [_submit_earn_batch_tx] raises the internal
    [Error('unexpected invoice errors present')]; [submit_earn_batch]
    catches it, returns a [BatchEarnResult] in which every earn of that
    sub-batch is failed with this error and no transaction hash, and
    records the earns of the later sub-batches as never attempted. *)
Theorem submit_earn_batch_invoice_errors_caught `{Collaborators}
    (fuel : nat) (c : Client) (sender : PrivateKey) (earns : list Earn.t)
    (channel : option PrivateKey) (memo : option string) (w w1 w2 : World)
    (pre : list (list Earn.t)) (earn_batch : list Earn.t)
    (post : list (list Earn.t)) (succeeded : list EarnResult.t)
    (b : Builder.t) (result : SubmitTransactionResult.t) :
  supported_version (_kin_version c) = true ->
  fst (validate_earn_batch c earns memo w) = Ret tt ->
  partition earns 100 = pre ++ earn_batch :: post ->
  all_succeed fuel c sender channel memo pre w = Some (succeeded, w1) ->
  earn_batch_builder c sender earn_batch channel memo = inr b ->
  _sign_and_submit_builder fuel c (signers_of c channel sender) b
    (earn_invoice_list earn_batch) w1
  = (Ret result, w2) ->
  SubmitTransactionResult.invoice_errors result <> [] ->
  submit_earn_batch fuel c sender earns channel memo w
  = (Ret (BatchEarnResult.mk succeeded
            (map
               (fun earn =>
                  EarnResult.mk earn None
                    (Some (Error "unexpected invoice errors present"%string)))
               earn_batch
             ++ map unattempted (concat post))),
     w2).
Proof.
  intros Hversion Hvalid Hbatches Hpre Hbuilt Hrun Hinvoice.
  eapply submit_earn_batch_Error; try eassumption.
  unfold _submit_earn_batch_tx.
  pose proof (earn_batch_small earns pre earn_batch post Hbatches) as Hsmall.
  destruct (Nat.ltb_spec 100 (List.length earn_batch)) as [Hbig|_]; [lia|].
  rewrite Hbuilt. unfold bind. rewrite Hrun.
  destruct (SubmitTransactionResult.invoice_errors result);
    [congruence | reflexivity].
Qed.

Lemma submit_earn_batch_invoice_errors_caught_witness :
  submit_earn_batch (H := service_invoice_error) 4 (client_of 0 3) alice
    [earn_bob; earn_carol] None None []
  = (Ret (BatchEarnResult.mk []
            (map
               (fun earn =>
                  EarnResult.mk earn None
                    (Some (Error "unexpected invoice errors present"%string)))
               [earn_bob; earn_carol]
             ++ map unattempted (concat []))),
     snd (_submit_earn_batch_tx (H := service_invoice_error) 4
            (client_of 0 3) alice [earn_bob; earn_carol] None None [])).
Proof.
  apply (@submit_earn_batch_invoice_errors_caught service_invoice_error 4
           (client_of 0 3) alice [earn_bob; earn_carol] None None [] [] _
           [] [earn_bob; earn_carol] [] []
           (Builder.mk "TESTNET"%string 100 "alice"%string None
              [mkPaymentOp "bob"%string "10"%string "alice"%string None;
               mkPaymentOp "carol"%string "20"%string "alice"%string None]
              None [])
           (result_invoice_errors hashA [ALREADY_PAID])).
  - reflexivity.
  - reflexivity.
  - reflexivity.
  - reflexivity.
  - reflexivity.
  - vm_compute. reflexivity.
  - discriminate.
Defined.

(** C4, at a result with more operation errors than earns: the code
    raises nothing; it maps the first operation error onto the earn and
    drops the second. *)
Theorem submit_earn_batch_surplus_operation_errors :
  fst (submit_earn_batch (H := service_two_op_errors) 4 (client_of 0 3) alice
         [earn_bob] None None [])
  = Ret (BatchEarnResult.mk []
           [EarnResult.mk earn_bob (Some hashA)
              (Some InsufficientBalanceError)]).
Proof. vm_compute. reflexivity. Qed.

Section BatchOperationErrors.
Context `{Collaborators}.
Variables (fuel : nat) (c : Client) (sender : PrivateKey)
          (earns : list Earn.t) (channel : option PrivateKey)
          (memo : option string) (w w1 w2 : World)
          (pre : list (list Earn.t)) (earn_batch : list Earn.t)
          (post : list (list Earn.t)) (succeeded : list EarnResult.t)
          (result : SubmitTransactionResult.t) (err : TransactionErrors.t).
Hypothesis version_ok : supported_version (_kin_version c) = true.
Hypothesis valid : fst (validate_earn_batch c earns memo w) = Ret tt.
Hypothesis batches : partition earns 100 = pre ++ earn_batch :: post.
Hypothesis pre_ok :
  all_succeed fuel c sender channel memo pre w = Some (succeeded, w1).
Hypothesis submission :
  _submit_earn_batch_tx fuel c sender earn_batch channel memo w1
  = (Ret result, w2).
Hypothesis failed_tx : SubmitTransactionResult.tx_error result = Some err.

(** With at least as many operation errors as earns, the earn at each
    index of the sub-batch fails with the operation error at that index;
    operation errors past the end of the sub-batch are dropped. *)
Lemma submit_earn_batch_op_errors_positional :
  TransactionErrors.op_errors err <> [] ->
  (List.length earn_batch
   <= List.length (TransactionErrors.op_errors err))%nat ->
  submit_earn_batch fuel c sender earns channel memo w
  = (Ret (BatchEarnResult.mk succeeded
            (map
               (fun p =>
                  EarnResult.mk (fst p)
                    (Some (SubmitTransactionResult.tx_hash result))
                    (Some (snd p)))
               (combine earn_batch (TransactionErrors.op_errors err))
             ++ map unattempted (concat post))),
     w2).
Proof.
  intros Hne Hle.
  rewrite (submit_earn_batch_from fuel c sender earns channel memo w w1 pre
             earn_batch post succeeded version_ok valid batches pre_ok).
  cbn [earn_batch_loop]. rewrite submission, failed_tx.
  destruct (TransactionErrors.op_errors err) as [|op ops] eqn:Hops;
    [congruence|].
  pose proof (op_error_results_spec (SubmitTransactionResult.tx_hash result)
                (op :: ops) earn_batch 0) as Hspec.
  destruct (op_error_results _ (op :: ops) 0 earn_batch) as [x|results].
  - destruct Hspec as (_ & Hlt). cbn in *. lia.
  - destruct Hspec as (_ & -> & Hearns). cbn [skipn app].
    rewrite (skipn_after_failed fuel c sender earns channel memo w w1 pre
               earn_batch post succeeded batches pre_ok).
    + reflexivity.
    + cbn [skipn] in Hearns.
      apply (f_equal (@List.length Earn.t)) in Hearns.
      rewrite length_map in Hearns. exact Hearns.
Qed.

(** With a whole-transaction error and no operation error, every earn
    of the sub-batch fails with that error. *)
Lemma submit_earn_batch_whole_tx_error :
  TransactionErrors.op_errors err = [] ->
  submit_earn_batch fuel c sender earns channel memo w
  = (Ret (BatchEarnResult.mk succeeded
            (map
               (fun earn =>
                  EarnResult.mk earn
                    (Some (SubmitTransactionResult.tx_hash result))
                    (TransactionErrors.tx_error err))
               earn_batch
             ++ map unattempted (concat post))),
     w2).
Proof.
  intros Hops.
  rewrite (submit_earn_batch_from fuel c sender earns channel memo w w1 pre
             earn_batch post succeeded version_ok valid batches pre_ok).
  cbn [earn_batch_loop]. rewrite submission, failed_tx, Hops. cbn [app].
  rewrite (skipn_after_failed fuel c sender earns channel memo w w1 pre
             earn_batch post succeeded batches pre_ok)
    by apply length_map.
  reflexivity.
Qed.
End BatchOperationErrors.

(** ** Fuel

    With more fuel than [max_nonce_refreshes], no function of a client
    built by [Client.__init__] runs out of it. *)

Section Termination.
Context `{Collaborators}.
Variables (fuel : nat) (c : Client) (cfg : RetryConfig).
Hypothesis strategies_ok :
  _nonce_retry_strategies c = nonce_retry_strategies cfg.
Hypothesis cfg_nonneg : 0 <= max_nonce_refreshes cfg.
Hypothesis fuel_ok : (Z.to_nat (max_nonce_refreshes cfg) < fuel)%nat.

Lemma coordinator_terminates (signers : list PrivateKey) (b : Builder.t)
    (il : option InvoiceList) (w : World) :
  fst (_sign_and_submit_builder fuel c signers b il w) <> OutOfFuel.
Proof.
  destruct signers as [|first others]; [discriminate|].
  destruct (account_info_reply w (public_key first)) as [e|info] eqn:Hinfo.
  - rewrite (coordinator_account_error fuel c first others b il w e Hinfo).
    discriminate.
  - rewrite (coordinator_run fuel c first others b il w info Hinfo),
      strategies_ok.
    unfold observe. cbn [fst]. apply retry_nonce_terminates; lia.
Qed.

Lemma submit_payment_terminates (payment : Payment.t) (w : World) :
  fst (submit_payment fuel c payment w) <> OutOfFuel.
Proof.
  unfold submit_payment.
  destruct (negb _); [discriminate|].
  destruct (_ && _); [discriminate|].
  destruct (payment_tx c payment) as [e|[[signers b] il]]; [discriminate|].
  unfold bind at 1.
  pose proof (coordinator_terminates signers b il w) as Hc.
  destruct (_sign_and_submit_builder fuel c signers b il w)
    as [[result|e|] w']; [|discriminate|contradiction].
  unfold bind, raise_tx_error, raise_invoice_error.
  destruct (SubmitTransactionResult.tx_error result) as [err|].
  - destruct (TransactionErrors.op_errors err) as [|op [|op' ops]];
      try discriminate.
    destruct (TransactionErrors.tx_error err); [discriminate|].
    destruct (SubmitTransactionResult.invoice_errors result)
      as [|ie [|ie' ies]]; try discriminate.
    destruct (reason ie); discriminate.
  - destruct (SubmitTransactionResult.invoice_errors result)
      as [|ie [|ie' ies]]; try discriminate.
    destruct (reason ie); discriminate.
Qed.

Lemma submit_earn_batch_tx_terminates (sender : PrivateKey)
    (earns : list Earn.t) (channel : option PrivateKey)
    (memo : option string) (w : World) :
  fst (_submit_earn_batch_tx fuel c sender earns channel memo w)
  <> OutOfFuel.
Proof.
  unfold _submit_earn_batch_tx.
  destruct (_ <? _)%nat; [discriminate|].
  destruct (earn_batch_builder c sender earns channel memo) as [e|b];
    [discriminate|].
  unfold bind.
  pose proof (coordinator_terminates (signers_of c channel sender) b
                (earn_invoice_list earns) w) as Hc.
  destruct (_sign_and_submit_builder fuel c _ _ _ w)
    as [[result|e|] w']; [|discriminate|contradiction].
  destruct (truthy_list _); discriminate.
Qed.

Lemma earn_batch_loop_terminates (sender : PrivateKey)
    (channel : option PrivateKey) (memo : option string)
    (batches : list (list Earn.t)) :
  forall succeeded failed w,
    fst (earn_batch_loop fuel c sender channel memo batches succeeded failed w)
    <> OutOfFuel.
Proof.
  induction batches as [|earn_batch batches IH]; intros succeeded failed w;
    [discriminate|].
  cbn [earn_batch_loop].
  pose proof (submit_earn_batch_tx_terminates sender earn_batch channel memo w)
    as Htx.
  destruct (_submit_earn_batch_tx fuel c sender earn_batch channel memo w)
    as [[result|e|] w']; [| |contradiction].
  - destruct (SubmitTransactionResult.tx_error result) as [err|];
      [|apply IH].
    destruct (TransactionErrors.op_errors err) as [|op ops];
      [discriminate|].
    destruct (op_error_results _ _ _ _); discriminate.
  - destruct e; discriminate.
Qed.

Lemma submit_earn_batch_terminates (sender : PrivateKey)
    (earns : list Earn.t) (channel : option PrivateKey)
    (memo : option string) (w : World) :
  fst (submit_earn_batch fuel c sender earns channel memo w) <> OutOfFuel.
Proof.
  unfold submit_earn_batch.
  destruct (negb _); [discriminate|].
  unfold bind at 1.
  destruct (validate_earn_batch_cases c earns memo w) as [Hv | (msg & Hv)];
    rewrite Hv; [|discriminate].
  unfold bind.
  pose proof (earn_batch_loop_terminates sender channel memo
                (partition earns 100) [] [] w) as Hloop.
  destruct (earn_batch_loop fuel c sender channel memo (partition earns 100)
              [] [] w) as [[[s f]|e|] w']; [| |contradiction];
    discriminate.
Qed.
End Termination.

(** * Further properties of the client *)

(** ** [Client.__init__] *)

(** What [Client.__init__] checks and what it keeps. *)
Lemma Client__init__fields `{Collaborators}
    (env : Environment) (ai : Z) (wk : option PrivateKey) (gc : bool)
    (ep : option string) (rc : option RetryConfig) (kv : Z) :
  match Client__init__ env ai wk gc ep rc kv with
  | inr c =>
      (kv = 2 \/ kv = 3)
      /\ gc && truthy_str ep = false
      /\ app_index c = ai
      /\ whitelist_key c = wk
      /\ _kin_version c = kv
      /\ (kv = 2 -> _asset_issuer c = Some (_KIN_2_ISSUERS env))
      /\ (kv = 3 -> _asset_issuer c = None)
  | inl e =>
      (exists msg, e = ValueError msg)
      /\ ((kv <> 2 /\ kv <> 3) \/ gc && truthy_str ep = true)
  end.
Proof.
  unfold Client__init__, supported_version, _SUPPORTED_VERSIONS.
  cbn [existsb]. rewrite orb_false_r.
  destruct (Z.eqb_spec kv 2) as [-> | H2]; cbn [orb negb].
  - destruct (gc && truthy_str ep) eqn:Hboth.
    + split; [eexists; reflexivity | right; reflexivity].
    + cbn. repeat split; auto. discriminate.
  - destruct (Z.eqb_spec kv 3) as [-> | H3]; cbn [negb].
    + destruct (gc && truthy_str ep) eqn:Hboth.
      * split; [eexists; reflexivity | right; reflexivity].
      * cbn. repeat split; auto. discriminate.
    + split; [eexists; reflexivity | left; split; assumption].
Qed.

(** X1: [Client.__init__] returns a client exactly when the version of
    Kin is 2 or 3 and [grpc_channel] and [endpoint] are not both given,
    and raises [ValueError] otherwise; the client keeps the app index,
    the whitelisting key and the version it was given, and has an asset
    issuer exactly when the version is 2. *)
Theorem Client__init__accepts `{Collaborators}
    (env : Environment) (ai : Z) (wk : option PrivateKey) (gc : bool)
    (ep : option string) (rc : option RetryConfig) (kv : Z) :
  match Client__init__ env ai wk gc ep rc kv with
  | inr c =>
      (kv = 2 \/ kv = 3)
      /\ gc && truthy_str ep = false
      /\ app_index c = ai
      /\ whitelist_key c = wk
      /\ _kin_version c = kv
      /\ (kv = 2 -> _asset_issuer c = Some (_KIN_2_ISSUERS env))
      /\ (kv = 3 -> _asset_issuer c = None)
  | inl e =>
      (exists msg, e = ValueError msg)
      /\ ((kv <> 2 /\ kv <> 3) \/ gc && truthy_str ep = true)
  end.
Proof. apply Client__init__fields. Qed.

(** ** The transactions of [submit_payment] *)

Section PaymentTrace.
Context `{Collaborators}.
Variables (c : Client) (payment : Payment.t).

(** The transaction of a payment is built exactly when its memo is. *)
Lemma payment_tx_cases :
  match
    memo_exception c (Payment.tx_type payment) (Payment.memo payment)
      (payment_invoice_list payment)
  with
  | Some e => payment_tx c payment = inl e
  | None => exists signers b il, payment_tx c payment = inr (signers, b, il)
  end.
Proof.
  unfold payment_tx, payment_memo, memo_exception, add_text_memo,
    payment_invoice_list.
  destruct (Payment.memo payment) as [[|a text]|].
  - destruct (0 <? app_index c); [|eexists _, _, _; reflexivity].
    destruct (Payment.invoice payment);
      (destruct (AgoraMemo_new _ _ _ _);
       [reflexivity | eexists _, _, _; reflexivity]).
  - destruct (text_memo_error _); [reflexivity | eexists _, _, _; reflexivity].
  - destruct (0 <? app_index c); [|eexists _, _, _; reflexivity].
    destruct (Payment.invoice payment);
      (destruct (AgoraMemo_new _ _ _ _);
       [reflexivity | eexists _, _, _; reflexivity]).
Qed.

Variables (signers : list PrivateKey) (b : Builder.t)
          (il : option InvoiceList).
Hypothesis built : payment_tx c payment = inr (signers, b, il).

(** What the builder of a payment holds besides its memo. *)
Lemma payment_tx_builder :
  signers = signers_of c (Payment.channel payment) (Payment.sender payment)
  /\ Builder.network b = network_name c
  /\ Builder.fee b = 100
  /\ Builder.secret b
     = stellar_seed
         (source_of (Payment.channel payment) (Payment.sender payment))
  /\ Builder.ops b
     = [payment_op c (Payment.sender payment) (Payment.destination payment)
          (Payment.quarks payment)].
Proof.
  revert built. unfold payment_tx, source_of.
  destruct (payment_memo c payment _) as [e|[b0 il0]] eqn:Hmemo;
    [discriminate|].
  intros Heq. injection Heq as <- <- <-.
  revert Hmemo. unfold payment_memo, add_text_memo.
  destruct (Payment.memo payment) as [[|a text]|];
    try destruct (text_memo_error _);
    try destruct (0 <? app_index c);
    try destruct (AgoraMemo_new _ _ _ _);
    intros Heq; try discriminate; injection Heq as <- <-; cbn; auto.
Qed.

(** The memo and the invoice list of a payment without text memo. *)
Lemma payment_tx_hash_memo :
  truthy_str (Payment.memo payment) = false ->
  if 0 <? app_index c then
    exists val,
      AgoraMemo_new 1 (Payment.tx_type payment) (app_index c)
        match Payment.invoice payment with
        | Some i => get_sha_224_hash (mkInvoiceList [i])
        | None => []
        end
      = inr val
      /\ il = payment_invoice_list payment
      /\ Builder.memo b = Some (HashMemo val)
  else il = None /\ Builder.memo b = None.
Proof.
  intros Hmemo. revert built. unfold payment_tx, payment_invoice_list.
  destruct (payment_memo c payment _) as [e|[b0 il0]] eqn:Hpm;
    [discriminate|].
  intros Heq. injection Heq as _ <- <-.
  revert Hpm. unfold payment_memo.
  assert (Hno :
    match Payment.memo payment with
    | Some (String _ _) => False
    | _ => True
    end)
    by (destruct (Payment.memo payment) as [[|a text]|];
        [exact I | discriminate | exact I]).
  destruct (Payment.memo payment) as [[|a text]|]; try contradiction;
    (destruct (0 <? app_index c);
     [ destruct (Payment.invoice payment);
       (destruct (AgoraMemo_new _ _ _ _) as [e|val];
        intros Heq; [discriminate|]; injection Heq as <- <-;
        exists val; cbn; auto)
     | intros Heq; injection Heq as <- <-; cbn; auto ]).
Qed.

Variables (fuel : nat) (w : World).
Hypothesis version_ok : supported_version (_kin_version c) = true.
Hypothesis accepted :
  truthy_obj (Payment.invoice payment) && (app_index c <=? 0) = false.

(** What [submit_payment] does to the outside once the transaction is
    built: one query of the source account, then submissions of its one
    builder. *)
Lemma submit_payment_trace :
  exists submissions,
    snd (submit_payment fuel c payment w)
    = w ++ GetAccountInfo
             (public_key
                (source_of (Payment.channel payment) (Payment.sender payment)))
           :: submissions
    /\ Forall
         (fun call =>
            exists q, call = SubmitTransaction (signed_at b signers q) il)
         submissions.
Proof.
  rewrite (submit_payment_world fuel c payment version_ok accepted signers b il
             built w).
  destruct payment_tx_builder as (Hsigners & _).
  destruct (signers_of_first c (Payment.channel payment)
              (Payment.sender payment)) as (others & Hfirst).
  rewrite Hsigners, Hfirst.
  destruct (coordinator_trace fuel c
              (source_of (Payment.channel payment) (Payment.sender payment))
              others b il w) as (calls & Hw & Hall).
  exists calls. split; [exact Hw | exact Hall].
Qed.
End PaymentTrace.

(** Whatever [submit_payment] submits is the transaction of the payment,
    signed for one attempt. *)
Lemma submit_payment_submissions `{Collaborators} (fuel : nat) (c : Client)
    (payment : Payment.t) (w : World) :
  supported_version (_kin_version c) = true ->
  truthy_obj (Payment.invoice payment) && (app_index c <=? 0) = false ->
  exists calls,
    snd (submit_payment fuel c payment w) = w ++ calls
    /\ submissions_satisfy
         (fun tx il =>
            exists signers b q,
              payment_tx c payment = inr (signers, b, il)
              /\ tx = signed_at b signers q)
         calls.
Proof.
  intros Hversion Haccepted.
  destruct (payment_tx c payment) as [e|[[signers b] il]] eqn:Hbuilt.
  - rewrite (submit_payment_memo_raises fuel c payment Hversion Haccepted w e
               Hbuilt).
    exists []. rewrite app_nil_r. split; [reflexivity | constructor].
  - destruct (submit_payment_trace c payment signers b il Hbuilt fuel w
                Hversion Haccepted) as (submissions & Hw & Hall).
    eexists. split; [exact Hw|].
    constructor; [exact I|].
    eapply Forall_impl; [|exact Hall]. intros call (q & ->).
    exists signers, b, q. split; reflexivity.
Qed.

Lemma signers_of_seeds (c : Client) (channel : option PrivateKey)
    (sender : PrivateKey) :
  map stellar_seed (signers_of c channel sender)
  = match channel with
    | Some ch => [stellar_seed ch; stellar_seed sender]
    | None => [stellar_seed sender]
    end
    ++ match whitelist_key c with
       | Some key => [stellar_seed key]
       | None => []
       end.
Proof.
  unfold signers_of.
  destruct channel; destruct (whitelist_key c); reflexivity.
Qed.

(** X2: a payment that passes the checks of [submit_payment] either has
    a memo that cannot be built, and the exception of the memo is raised
    before any call to the service, or leads to one query of the account
    of the channel when the payment has one and of the sender otherwise;
    every transaction then submitted is built on that account, with the
    fee 100 on the network of the client, and is signed, in this order, by
    the channel (if any), the sender and the whitelisting key of the
    client (if any). *)
Theorem submit_payment_source_and_signers `{Collaborators}
    (fuel : nat) (c : Client) (payment : Payment.t) (w : World) :
  supported_version (_kin_version c) = true ->
  truthy_obj (Payment.invoice payment) && (app_index c <=? 0) = false ->
  let source :=
    match Payment.channel payment with
    | Some ch => ch
    | None => Payment.sender payment
    end in
  match
    memo_exception c (Payment.tx_type payment) (Payment.memo payment)
      (payment_invoice_list payment)
  with
  | Some e => submit_payment fuel c payment w = (Raise e, w)
  | None =>
      exists submissions,
        snd (submit_payment fuel c payment w)
        = w ++ GetAccountInfo (public_key source) :: submissions
        /\ Forall (fun call => is_submit call = true) submissions
        /\ submissions_satisfy
             (fun tx _ =>
                Builder.secret tx = stellar_seed source
                /\ Builder.network tx = network_name c
                /\ Builder.fee tx = 100
                /\ Builder.signatures tx
                   = match Payment.channel payment with
                     | Some ch =>
                         [stellar_seed ch;
                          stellar_seed (Payment.sender payment)]
                     | None => [stellar_seed (Payment.sender payment)]
                     end
                     ++ match whitelist_key c with
                        | Some key => [stellar_seed key]
                        | None => []
                        end)
             submissions
  end.
Proof.
  intros Hversion Haccepted. cbv zeta.
  pose proof (payment_tx_cases c payment) as Hcases.
  destruct (memo_exception c _ _ _) as [e|].
  - apply (submit_payment_memo_raises fuel c payment Hversion Haccepted w e
             Hcases).
  - destruct Hcases as (signers & b & il & Hbuilt).
    destruct (submit_payment_trace c payment signers b il Hbuilt fuel w
                Hversion Haccepted) as (submissions & Hw & Hall).
    exists submissions. split; [exact Hw|]. split.
    + eapply Forall_impl; [|exact Hall]. intros call (q & ->). reflexivity.
    + eapply Forall_impl; [|exact Hall]. intros call (q & ->).
      rewrite signed_at_eq. cbn.
      destruct (payment_tx_builder c payment signers b il Hbuilt)
        as (-> & Hn & Hf & Hs & _).
      rewrite signers_of_seeds. auto.
Qed.

Lemma submit_payment_source_and_signers_witness :
  exists submissions,
    snd (submit_payment (H := service_ok) 4 (client_of 1 3) payment_invoice [])
    = [] ++ GetAccountInfo (mkPublicKey "carol-key"%string) :: submissions
    /\ Forall (fun call => is_submit call = true) submissions
    /\ submissions_satisfy
         (fun tx _ =>
            Builder.secret tx = "carol-key"%string
            /\ Builder.network tx = "TESTNET"%string
            /\ Builder.fee tx = 100
            /\ Builder.signatures tx
               = ["carol-key"%string; "alice"%string] ++ [])
         submissions.
Proof.
  exact (@submit_payment_source_and_signers service_ok 4 (client_of 1 3)
           payment_invoice [] eq_refl eq_refl).
Defined.

(** X3: for a client built by [Client.__init__], every transaction that
    [submit_payment] submits holds exactly one payment operation, from
    the sender to the destination: on Kin 2 the quarks are multiplied by
    100 and the asset issuer of the environment is set, on Kin 3 the
    quarks are passed as they are and no issuer is set. *)
Theorem submit_payment_operation `{Collaborators}
    (fuel : nat) (env : Environment) (ai : Z) (wk : option PrivateKey)
    (gc : bool) (ep : option string) (rc : option RetryConfig) (kv : Z)
    (c : Client) (payment : Payment.t) (w : World) :
  Client__init__ env ai wk gc ep rc kv = inr c ->
  truthy_obj (Payment.invoice payment) && (ai <=? 0) = false ->
  exists calls,
    snd (submit_payment fuel c payment w) = w ++ calls
    /\ submissions_satisfy
         (fun tx _ =>
            Builder.ops tx
            = [mkPaymentOp (stellar_address (Payment.destination payment))
                 (quarks_to_kin
                    (if kv =? 2 then Payment.quarks payment * 100
                     else Payment.quarks payment))
                 (stellar_address (public_key (Payment.sender payment)))
                 (if kv =? 2 then Some (_KIN_2_ISSUERS env) else None)])
         calls.
Proof.
  intros Hinit Haccepted.
  destruct (Client__init__strategies _ _ _ _ _ _ _ _ Hinit)
    as (_ & Hversion & Hai).
  rewrite <- Hai in Haccepted.
  destruct (submit_payment_submissions fuel c payment w Hversion Haccepted)
    as (calls & Hw & Hall).
  exists calls. split; [exact Hw|].
  eapply Forall_impl; [|exact Hall]. intros [key|tx il]; [trivial|].
  intros (signers & b & q & Hbuilt & ->).
  rewrite signed_at_eq. cbn [Builder.ops].
  destruct (payment_tx_builder c payment signers b il Hbuilt)
    as (_ & _ & _ & _ & ->).
  unfold payment_op.
  pose proof (Client__init__fields env ai wk gc ep rc kv) as Hc.
  rewrite Hinit in Hc. destruct Hc as (_ & _ & _ & _ & -> & H2 & H3).
  destruct (Z.eqb_spec kv 2) as [Hkv|Hkv]; [rewrite (H2 Hkv)|]; reflexivity.
Qed.

Lemma submit_payment_operation_witness :
  exists calls,
    snd (submit_payment (H := service_ok) 4 (client_of 1 3) payment_invoice [])
    = [] ++ calls
    /\ submissions_satisfy
         (fun tx _ =>
            Builder.ops tx
            = [mkPaymentOp "bob"%string "10"%string "alice"%string None])
         calls.
Proof.
  apply (@submit_payment_operation service_ok 4 TEST 1 None false None
           (Some (RetryConfig__init__ None None None (Some 3))) 3
           (client_of 1 3) payment_invoice [] eq_refl eq_refl).
Defined.

(** X4: without a text memo, a client with an app index gives every
    transaction of [submit_payment] the hash memo that [AgoraMemo.new]
    returned for version 1, the type of the payment and the app index,
    over the hash of the list of the one invoice when the payment has an
    invoice and over the empty bytes otherwise, and sends that invoice
    list (or none) along; a client without an app index submits a payment
    without invoice with no memo and no invoice list. *)
Theorem submit_payment_hash_memo `{Collaborators}
    (fuel : nat) (c : Client) (payment : Payment.t) (w : World) :
  supported_version (_kin_version c) = true ->
  truthy_obj (Payment.invoice payment) && (app_index c <=? 0) = false ->
  truthy_str (Payment.memo payment) = false ->
  exists calls,
    snd (submit_payment fuel c payment w) = w ++ calls
    /\ submissions_satisfy
         (fun tx invoice_list =>
            if 0 <? app_index c then
              match Payment.invoice payment with
              | Some i =>
                  invoice_list = Some (mkInvoiceList [i])
                  /\ exists val,
                       AgoraMemo_new 1 (Payment.tx_type payment)
                         (app_index c)
                         (get_sha_224_hash (mkInvoiceList [i]))
                       = inr val
                       /\ Builder.memo tx = Some (HashMemo val)
              | None =>
                  invoice_list = None
                  /\ exists val,
                       AgoraMemo_new 1 (Payment.tx_type payment)
                         (app_index c) []
                       = inr val
                       /\ Builder.memo tx = Some (HashMemo val)
              end
            else invoice_list = None /\ Builder.memo tx = None)
         calls.
Proof.
  intros Hversion Haccepted Hmemo.
  destruct (submit_payment_submissions fuel c payment w Hversion Haccepted)
    as (calls & Hw & Hall).
  exists calls. split; [exact Hw|].
  eapply Forall_impl; [|exact Hall]. intros [key|tx il]; [trivial|].
  intros (signers & b & q & Hbuilt & ->).
  rewrite signed_at_memo.
  pose proof (payment_tx_hash_memo c payment signers b il Hbuilt Hmemo)
    as Hhash.
  unfold payment_invoice_list in Hhash.
  destruct (0 <? app_index c); [|exact Hhash].
  destruct Hhash as (val & Hval & -> & Hb).
  destruct (Payment.invoice payment);
    (split; [reflexivity | exists val; split; assumption]).
Qed.

Lemma submit_payment_hash_memo_witness :
  exists calls,
    snd (submit_payment (H := service_ok) 4 (client_of 1 3) payment_invoice [])
    = [] ++ calls
    /\ submissions_satisfy
         (fun tx invoice_list =>
            invoice_list = Some (mkInvoiceList [an_invoice])
            /\ exists val,
                 checked_AgoraMemo_new 1 SPEND 1 [Byte.x01] = inr val
                 /\ Builder.memo tx = Some (HashMemo val))
         calls.
Proof.
  exact (@submit_payment_hash_memo service_ok 4 (client_of 1 3)
           payment_invoice [] eq_refl eq_refl eq_refl).
Defined.

(** ** The outcome of [submit_payment] *)

Section PaymentOutcome.
Context `{Collaborators}.
Variables (fuel : nat) (c : Client) (payment : Payment.t) (w w' : World)
          (signers : list PrivateKey) (b : Builder.t)
          (invoice_list : option InvoiceList).
Hypothesis version_ok : supported_version (_kin_version c) = true.
Hypothesis accepted :
  truthy_obj (Payment.invoice payment) && (app_index c <=? 0) = false.
Hypothesis built : payment_tx c payment = inr (signers, b, invoice_list).

Local Notation coordinator :=
  (_sign_and_submit_builder fuel c signers b invoice_list w).

Lemma submit_payment_after (result : SubmitTransactionResult.t) :
  coordinator = (Ret result, w') ->
  submit_payment fuel c payment w
  = (raise_tx_error result ;;;
     raise_invoice_error result ;;;
     ret (SubmitTransactionResult.tx_hash result))%py w'.
Proof.
  intros Hrun.
  rewrite (submit_payment_run fuel c payment version_ok accepted signers b
             invoice_list built w).
  unfold bind at 1. rewrite Hrun. reflexivity.
Qed.

Lemma submit_payment_raised (e : exn) :
  coordinator = (Raise e, w') ->
  submit_payment fuel c payment w = (Raise e, w').
Proof.
  intros Hrun.
  rewrite (submit_payment_run fuel c payment version_ok accepted signers b
             invoice_list built w).
  unfold bind at 1. rewrite Hrun. reflexivity.
Qed.

Lemma submit_payment_out_of_fuel :
  coordinator = (OutOfFuel, w') ->
  submit_payment fuel c payment w = (OutOfFuel, w').
Proof.
  intros Hrun.
  rewrite (submit_payment_run fuel c payment version_ok accepted signers b
             invoice_list built w).
  unfold bind at 1. rewrite Hrun. reflexivity.
Qed.
End PaymentOutcome.

(** X5: [submit_payment] returns a transaction hash exactly when the
    transaction of the payment was built and the coordinator returned,
    for it, a result with no operation error, no whole-transaction error
    and no invoice error, and the hash is the one of that result. *)
Theorem submit_payment_hash_iff_clean `{Collaborators}
    (fuel : nat) (c : Client) (payment : Payment.t) (w w' : World)
    (tx_hash : bytes) :
  supported_version (_kin_version c) = true ->
  truthy_obj (Payment.invoice payment) && (app_index c <=? 0) = false ->
  submit_payment fuel c payment w = (Ret tx_hash, w')
  <-> exists signers b invoice_list result,
        payment_tx c payment = inr (signers, b, invoice_list)
        /\ _sign_and_submit_builder fuel c signers b invoice_list w
           = (Ret result, w')
        /\ clean result
        /\ SubmitTransactionResult.tx_hash result = tx_hash.
Proof.
  intros Hversion Haccepted. split.
  - intros Hrun.
    destruct (payment_tx c payment) as [e|[[signers b] il]] eqn:Hbuilt.
    { rewrite (submit_payment_memo_raises fuel c payment Hversion Haccepted w
                 e Hbuilt) in Hrun.
      discriminate. }
    exists signers, b, il.
    destruct (_sign_and_submit_builder fuel c signers b il w)
      as [[result|e|] w1] eqn:Hc.
    + rewrite (submit_payment_after fuel c payment w w1 signers b il Hversion
                 Haccepted Hbuilt result Hc) in Hrun.
      exists result. unfold bind, raise_tx_error, raise_invoice_error, clean
        in *.
      destruct (SubmitTransactionResult.tx_error result) as [err|].
      * destruct (TransactionErrors.op_errors err) as [|op [|op' ops]];
          try discriminate.
        destruct (TransactionErrors.tx_error err); [discriminate|].
        destruct (SubmitTransactionResult.invoice_errors result)
          as [|ie [|ie' ies]]; try discriminate.
        -- cbn in Hrun. injection Hrun as <- <-. repeat split; auto.
        -- destruct (reason ie); discriminate.
      * destruct (SubmitTransactionResult.invoice_errors result)
          as [|ie [|ie' ies]]; try discriminate.
        -- cbn in Hrun. injection Hrun as <- <-. repeat split; auto.
        -- destruct (reason ie); discriminate.
    + rewrite (submit_payment_raised fuel c payment w w1 signers b il Hversion
                 Haccepted Hbuilt e Hc) in Hrun.
      discriminate.
    + rewrite (submit_payment_out_of_fuel fuel c payment w w1 signers b il
                 Hversion Haccepted Hbuilt Hc) in Hrun.
      discriminate.
  - intros (signers & b & il & result & Hbuilt & Hc & (Htx & Hinvoice) & <-).
    rewrite (submit_payment_after fuel c payment w w' signers b il Hversion
               Haccepted Hbuilt result Hc).
    unfold bind, raise_tx_error, raise_invoice_error.
    rewrite Hinvoice.
    destruct (SubmitTransactionResult.tx_error result) as [err|];
      [|reflexivity].
    destruct Htx as (-> & ->). reflexivity.
Qed.

Lemma submit_payment_hash_iff_clean_witness :
  submit_payment (H := service_ok) 4 (client_of 1 3) payment_invoice []
  = (Ret hashA,
     snd (submit_payment (H := service_ok) 4 (client_of 1 3) payment_invoice
            [])).
Proof.
  apply (proj2 (@submit_payment_hash_iff_clean service_ok 4 (client_of 1 3)
                  payment_invoice [] _ hashA eq_refl eq_refl)).
  eexists _, _, _, (result_ok hashA).
  split; [reflexivity|].
  split; [vm_compute; reflexivity|].
  split; [split; [exact I | reflexivity] | reflexivity].
Defined.

(** X6: when the result of the coordinator has no operation error and no
    whole-transaction error but carries invoice errors, [submit_payment]
    raises, for a single invoice error, the exception of its reason
    ([AlreadyPaidError], [WrongDestinationError], [SkuNotFoundError], and
    a generic [Error] for an unknown reason), and for several the generic
    [Error] that reports their number. *)
Theorem submit_payment_invoice_error `{Collaborators}
    (fuel : nat) (c : Client) (payment : Payment.t) (w w' : World)
    (signers : list PrivateKey) (b : Builder.t)
    (invoice_list : option InvoiceList)
    (result : SubmitTransactionResult.t) (invoice_error : InvoiceErrorEntry)
    (more : list InvoiceErrorEntry) :
  supported_version (_kin_version c) = true ->
  truthy_obj (Payment.invoice payment) && (app_index c <=? 0) = false ->
  payment_tx c payment = inr (signers, b, invoice_list) ->
  _sign_and_submit_builder fuel c signers b invoice_list w
  = (Ret result, w') ->
  match SubmitTransactionResult.tx_error result with
  | Some err =>
      TransactionErrors.op_errors err = []
      /\ TransactionErrors.tx_error err = None
  | None => True
  end ->
  SubmitTransactionResult.invoice_errors result = invoice_error :: more ->
  submit_payment fuel c payment w
  = (Raise
       (Agora
          match more with
          | [] => invoice_exception (reason invoice_error)
          | _ =>
              Error
                ("invalid number of invoice errors, expected 0 or 1, got "
                 ++ str_of_nat (List.length (invoice_error :: more)))%string
          end),
     w').
Proof.
  intros Hversion Haccepted Hbuilt Hc Htx Hinvoice.
  rewrite (submit_payment_after fuel c payment w w' signers b invoice_list
             Hversion Haccepted Hbuilt result Hc).
  unfold bind, raise_tx_error, raise_invoice_error. rewrite Hinvoice.
  destruct (SubmitTransactionResult.tx_error result) as [err|].
  - destruct Htx as (Hops & Hwhole). rewrite Hops, Hwhole.
    destruct more; [destruct (reason invoice_error)|]; reflexivity.
  - destruct more; [destruct (reason invoice_error)|]; reflexivity.
Qed.

Lemma submit_payment_invoice_error_witness :
  submit_payment
    (H := scripted info7 [inr (result_invoice_errors hashA [WRONG_DESTINATION])])
    4 (client_of 1 3) payment_invoice []
  = (Raise (Agora WrongDestinationError),
     snd (submit_payment
            (H := scripted info7
                    [inr (result_invoice_errors hashA [WRONG_DESTINATION])])
            4 (client_of 1 3) payment_invoice [])).
Proof.
  eapply (@submit_payment_invoice_error
            (scripted info7
               [inr (result_invoice_errors hashA [WRONG_DESTINATION])])
            4 (client_of 1 3) payment_invoice [] _ _ _ _
            (result_invoice_errors hashA [WRONG_DESTINATION])
            (mkInvoiceErrorEntry WRONG_DESTINATION) []).
  - reflexivity.
  - reflexivity.
  - reflexivity.
  - vm_compute. reflexivity.
  - exact I.
  - reflexivity.
Defined.

(** X7: when the transaction-level error of the result has no operation
    error but a whole-transaction error, [submit_payment] raises that
    error, whatever invoice errors the result carries. *)
Theorem submit_payment_whole_tx_error `{Collaborators}
    (fuel : nat) (c : Client) (payment : Payment.t) (w w' : World)
    (signers : list PrivateKey) (b : Builder.t)
    (invoice_list : option InvoiceList)
    (tx_hash : bytes) (e : AgoraError)
    (invoice_errors : list InvoiceErrorEntry) :
  supported_version (_kin_version c) = true ->
  truthy_obj (Payment.invoice payment) && (app_index c <=? 0) = false ->
  payment_tx c payment = inr (signers, b, invoice_list) ->
  _sign_and_submit_builder fuel c signers b invoice_list w
  = (Ret (SubmitTransactionResult.mk tx_hash
            (Some (TransactionErrors.mk (Some e) [])) invoice_errors),
     w') ->
  submit_payment fuel c payment w = (Raise (Agora e), w').
Proof.
  intros Hversion Haccepted Hbuilt Hc.
  rewrite (submit_payment_after fuel c payment w w' signers b invoice_list
             Hversion Haccepted Hbuilt _ Hc).
  reflexivity.
Qed.

Lemma submit_payment_whole_tx_error_witness :
  submit_payment
    (H := scripted info7
            [inr (SubmitTransactionResult.mk hashA
                    (Some (TransactionErrors.mk
                             (Some InsufficientBalanceError) []))
                    [mkInvoiceErrorEntry ALREADY_PAID])])
    4 (client_of 1 3) payment_invoice []
  = (Raise (Agora InsufficientBalanceError),
     snd (submit_payment
            (H := scripted info7
                    [inr (SubmitTransactionResult.mk hashA
                            (Some (TransactionErrors.mk
                                     (Some InsufficientBalanceError) []))
                            [mkInvoiceErrorEntry ALREADY_PAID])])
            4 (client_of 1 3) payment_invoice [])).
Proof.
  eapply (@submit_payment_whole_tx_error
            (scripted info7
               [inr (SubmitTransactionResult.mk hashA
                       (Some (TransactionErrors.mk
                                (Some InsufficientBalanceError) []))
                       [mkInvoiceErrorEntry ALREADY_PAID])])
            4 (client_of 1 3) payment_invoice [] _ _ _ _ hashA
            InsufficientBalanceError [mkInvoiceErrorEntry ALREADY_PAID]).
  - reflexivity.
  - reflexivity.
  - reflexivity.
  - vm_compute. reflexivity.
Defined.

(** ** Calls to the service *)

Lemma count_submits_app (w calls : World) :
  count_submits (w ++ calls) = (count_submits w + count_submits calls)%nat.
Proof. unfold count_submits. rewrite filter_app, length_app. reflexivity. Qed.

Lemma count_queries_app (w calls : World) :
  count_queries (w ++ calls) = (count_queries w + count_queries calls)%nat.
Proof. unfold count_queries. rewrite filter_app, length_app. reflexivity. Qed.

Lemma count_queries_submissions (calls : World) :
  Forall (fun call => is_submit call = true) calls -> count_queries calls = 0%nat.
Proof.
  induction 1 as [|call calls Hcall _ IH]; [reflexivity|].
  unfold count_queries in *. cbn [filter]. rewrite Hcall. exact IH.
Qed.

Section CoordinatorCalls.
Context `{Collaborators}.
Variables (fuel : nat) (c : Client) (cfg : RetryConfig).
Hypothesis strategies_ok :
  _nonce_retry_strategies c = nonce_retry_strategies cfg.
Hypothesis cfg_nonneg : 0 <= max_nonce_refreshes cfg.

(** One run of the coordinator: at most one account query and at most
    [max_nonce_refreshes + 1] submissions. *)
Lemma coordinator_bound (signers : list PrivateKey) (b : Builder.t)
    (il : option InvoiceList) (w : World) :
  (count_queries (snd (_sign_and_submit_builder fuel c signers b il w))
   <= count_queries w + 1)%nat
  /\ (count_submits (snd (_sign_and_submit_builder fuel c signers b il w))
      <= count_submits w + Z.to_nat (max_nonce_refreshes cfg + 1))%nat.
Proof.
  destruct signers as [|first others];
    [unfold _sign_and_submit_builder, raise; cbn [snd]; split; lia|].
  split.
  - destruct (coordinator_trace fuel c first others b il w)
      as (calls & -> & Hall).
    rewrite count_queries_app.
    change (GetAccountInfo (public_key first) :: calls)
      with ([GetAccountInfo (public_key first)] ++ calls).
    rewrite count_queries_app, (count_queries_submissions calls).
    + cbn. lia.
    + eapply Forall_impl; [|exact Hall]. intros call (q & ->). reflexivity.
  - destruct (account_info_reply w (public_key first)) as [e|info] eqn:Hinfo.
    + rewrite (coordinator_account_error fuel c first others b il w e Hinfo).
      cbn [snd]. rewrite count_submits_app_account. lia.
    + rewrite (coordinator_run fuel c first others b il w info Hinfo),
        strategies_ok.
      unfold observe. cbn [snd].
      etransitivity; [apply retry_nonce_bound; assumption|]. cbn [world].
      rewrite count_submits_app_account. lia.
Qed.
End CoordinatorCalls.

(** X8: whatever the service answers, one call of [submit_payment] on a
    client built by [Client.__init__] makes at most one account query and
    at most [max_nonce_refreshes + 1] submissions. *)
Theorem submit_payment_calls_bound `{Collaborators}
    (fuel : nat) (env : Environment) (ai : Z) (wk : option PrivateKey)
    (gc : bool) (ep : option string) (rc : option RetryConfig) (kv : Z)
    (c : Client) (payment : Payment.t) (w : World) :
  Client__init__ env ai wk gc ep rc kv = inr c ->
  0 <= max_nonce_refreshes (effective_retry_config rc) ->
  (count_queries (snd (submit_payment fuel c payment w))
   <= count_queries w + 1)%nat
  /\ (count_submits (snd (submit_payment fuel c payment w))
      <= count_submits w
         + Z.to_nat (max_nonce_refreshes (effective_retry_config rc) + 1))%nat.
Proof.
  intros Hinit Hnonneg.
  destruct (Client__init__strategies _ _ _ _ _ _ _ _ Hinit)
    as (Hs & Hversion & _).
  destruct (truthy_obj (Payment.invoice payment) && (app_index c <=? 0))
    eqn:Haccepted.
  - unfold submit_payment. rewrite Hversion, Haccepted.
    unfold raise. cbn [negb snd]. split; lia.
  - destruct (payment_tx c payment) as [e|[[signers b] il]] eqn:Hbuilt.
    + rewrite (submit_payment_memo_raises fuel c payment Hversion Haccepted w
                 e Hbuilt).
      cbn [snd]. split; lia.
    + rewrite (submit_payment_world fuel c payment Hversion Haccepted signers
                 b il Hbuilt w).
      apply (coordinator_bound fuel c (effective_retry_config rc) Hs Hnonneg).
Qed.

Lemma submit_payment_calls_bound_witness :
  (count_queries
     (snd (submit_payment (H := service_always_bad_nonce) 9 (client_of 1 3)
             payment_invoice []))
   <= count_queries [] + 1)%nat
  /\ (count_submits
        (snd (submit_payment (H := service_always_bad_nonce) 9 (client_of 1 3)
                payment_invoice []))
      <= count_submits [] + Z.to_nat (3 + 1))%nat.
Proof.
  apply (@submit_payment_calls_bound service_always_bad_nonce 9 TEST 1 None
           false None (Some (RetryConfig__init__ None None None (Some 3))) 3
           (client_of 1 3) payment_invoice [] eq_refl).
  vm_compute. discriminate.
Defined.

Example submit_payment_bad_nonce_exhausted :
  (fst (submit_payment (H := service_always_bad_nonce) 9 (client_of 1 3)
          payment_invoice []),
   count_submits
     (snd (submit_payment (H := service_always_bad_nonce) 9 (client_of 1 3)
             payment_invoice [])))
  = (Raise (Agora BadNonceError), 4%nat).
Proof. vm_compute. reflexivity. Qed.

(** X9: when the memo of the payment can be built and the query of the
    source account raises an exception, [submit_payment] raises that
    exception after this one call: nothing is submitted. *)
Theorem submit_payment_account_error `{Collaborators}
    (fuel : nat) (c : Client) (payment : Payment.t) (w : World) (e : exn) :
  supported_version (_kin_version c) = true ->
  truthy_obj (Payment.invoice payment) && (app_index c <=? 0) = false ->
  memo_exception c (Payment.tx_type payment) (Payment.memo payment)
    (payment_invoice_list payment)
  = None ->
  let source :=
    match Payment.channel payment with
    | Some ch => ch
    | None => Payment.sender payment
    end in
  account_info_reply w (public_key source) = inl e ->
  submit_payment fuel c payment w
  = (Raise e, w ++ [GetAccountInfo (public_key source)]).
Proof.
  intros Hversion Haccepted Hmemo source Hinfo.
  pose proof (payment_tx_cases c payment) as Hcases.
  rewrite Hmemo in Hcases. destruct Hcases as (signers & b & il & Hbuilt).
  apply (submit_payment_raised fuel c payment w _ signers b il Hversion
           Haccepted Hbuilt).
  destruct (payment_tx_builder c payment signers b il Hbuilt) as (-> & _).
  destruct (signers_of_first c (Payment.channel payment)
              (Payment.sender payment)) as (others & ->).
  apply coordinator_account_error. exact Hinfo.
Qed.

Lemma submit_payment_account_error_witness :
  submit_payment (H := service_account_missing) 4 (client_of 1 3)
    payment_invoice []
  = (Raise (Agora AccountNotFoundError),
     [] ++ [GetAccountInfo (mkPublicKey "carol-key"%string)]).
Proof.
  apply (@submit_payment_account_error service_account_missing 4
           (client_of 1 3) payment_invoice [] (Agora AccountNotFoundError)
           eq_refl eq_refl eq_refl eq_refl).
Defined.

(** X10: a payment with an invoice on a client whose app index is [<= 0]
    is rejected by [submit_payment] with a [ValueError], with or without
    a memo, before any call to the service. *)
Theorem submit_payment_invoice_needs_app_index `{Collaborators}
    (fuel : nat) (c : Client) (payment : Payment.t) (w : World) :
  supported_version (_kin_version c) = true ->
  Payment.invoice payment <> None ->
  app_index c <= 0 ->
  submit_payment fuel c payment w
  = (Raise (ValueError
       "cannot submit a payment with an invoice without an app index"%string),
     w).
Proof.
  intros Hversion Hinvoice Hindex. unfold submit_payment.
  rewrite Hversion. cbn [negb].
  destruct (Payment.invoice payment); [|congruence].
  apply Z.leb_le in Hindex. rewrite Hindex. reflexivity.
Qed.

Lemma submit_payment_invoice_needs_app_index_witness :
  submit_payment (H := service_ok) 4 (client_of 0 3) payment_invoice []
  = (Raise (ValueError
       "cannot submit a payment with an invoice without an app index"%string),
     []).
Proof.
  apply (@submit_payment_invoice_needs_app_index service_ok 4 (client_of 0 3)
           payment_invoice [] eq_refl).
  - discriminate.
  - vm_compute. discriminate.
Defined.

(** ** The sequence numbers of the coordinator *)

Section NonceSequences.
Context `{Collaborators}.
Variables (source_info : AccountInfo) (signers : list PrivateKey)
          (il : option InvoiceList) (cfg : RetryConfig).

Local Notation attempt := (_sign_and_submit source_info signers il).
Local Notation seq0 := (sequence_number source_info).
Local Notation refreshes := (max_nonce_refreshes cfg).
Local Notation strategies := (nonce_retry_strategies cfg).

(** The attempts left from the attempt of index [i] on. *)
Local Notation left_from i :=
  (Z.of_nat (Nat.max 1 (Z.to_nat (refreshes + 1) - i))).

Lemma retry_nonce_sequences (fuel : nat) :
  forall (i : nat) (st : NonceLoop),
    exists calls,
      world (snd (retry_from nonce_sleep fuel strategies attempt i st))
      = world st ++ calls
      /\ Forall
           (fun call =>
              exists k,
                offset st <= k <= offset st + left_from i - 1
                /\ call
                   = SubmitTransaction
                       (signed_at (builder st) signers (seq0 + k)) il)
           calls.
Proof.
  induction fuel as [|fuel IH]; intros i st.
  - exists []. cbn [retry_from snd]. rewrite app_nil_r. auto.
  - rewrite retry_nonce_step. cbv zeta.
    set (b' := signed_at (builder st) signers (seq0 + offset st)).
    assert (Hone : forall (A : Type) (x : outcome A) o,
      exists calls,
        world (snd (x, mkNonceLoop o b'
                         (world st ++ [SubmitTransaction b' il])))
        = world st ++ calls
        /\ Forall
             (fun call =>
                exists k,
                  offset st <= k <= offset st + left_from i - 1
                  /\ call
                     = SubmitTransaction
                         (signed_at (builder st) signers (seq0 + k)) il)
             calls).
    { intros A x o. exists [SubmitTransaction b' il]. split; [reflexivity|].
      constructor; [|constructor].
      exists (offset st). split; [lia | reflexivity]. }
    assert (Hcont : forall o,
      offset st <= o <= offset st + 1 ->
      (Z.of_nat (S i) <? refreshes + 1) = true ->
      exists calls,
        world (snd (retry_from nonce_sleep fuel strategies attempt (S i)
                      (mkNonceLoop o b'
                         (world st ++ [SubmitTransaction b' il]))))
        = world st ++ calls
        /\ Forall
             (fun call =>
                exists k,
                  offset st <= k <= offset st + left_from i - 1
                  /\ call
                     = SubmitTransaction
                         (signed_at (builder st) signers (seq0 + k)) il)
             calls).
    { intros o Ho Hlt. apply Z.ltb_lt in Hlt.
      destruct (IH (S i)
                  (mkNonceLoop o b' (world st ++ [SubmitTransaction b' il])))
        as (calls & Hw & Hall).
      exists (SubmitTransaction b' il :: calls). split.
      - rewrite Hw. cbn [world]. rewrite <- app_assoc. reflexivity.
      - constructor.
        + exists (offset st). split; [lia | reflexivity].
        + eapply Forall_impl; [|exact Hall].
          cbn [offset builder]. intros call (k & Hk & ->).
          exists k. split; [lia|].
          unfold b'. rewrite signed_at_signed_at. reflexivity. }
    destruct (submit_reply (world st) b' il) as [e|r].
    + destruct (isinstance_BadNonceError e); cbn [andb]; [|apply Hone].
      destruct (Z.of_nat (S i) <? refreshes + 1) eqn:Hlt;
        [apply Hcont; [lia | reflexivity] | apply Hone].
    + destruct (bad_nonce r) as [e|]; [|apply Hone].
      destruct (Z.of_nat (S i) <? refreshes + 1) eqn:Hlt;
        [apply Hcont; [lia | reflexivity] | apply Hone].
Qed.
End NonceSequences.

(** X11: whatever the service answers or raises, every transaction that
    the coordinator of a client built by [Client.__init__] submits is the
    builder it was given, signed by all the signers in their order, with
    a sequence number between the fetched one plus 1 and the fetched one
    plus [max_nonce_refreshes + 1], and with the invoice list it was
    given. *)
Theorem coordinator_sequences `{Collaborators}
    (fuel : nat) (env : Environment) (ai : Z) (wk : option PrivateKey)
    (gc : bool) (ep : option string) (rc : option RetryConfig) (kv : Z)
    (c : Client) (first : PrivateKey) (others : list PrivateKey)
    (b : Builder.t) (il : option InvoiceList) (w : World)
    (info : AccountInfo) :
  Client__init__ env ai wk gc ep rc kv = inr c ->
  0 <= max_nonce_refreshes (effective_retry_config rc) ->
  account_info_reply w (public_key first) = inr info ->
  exists submissions,
    snd (_sign_and_submit_builder fuel c (first :: others) b il w)
    = w ++ GetAccountInfo (public_key first) :: submissions
    /\ Forall
         (fun call =>
            exists k tx,
              1 <= k <= max_nonce_refreshes (effective_retry_config rc) + 1
              /\ call = SubmitTransaction tx il
              /\ Builder.sequence tx = Some (sequence_number info + k)
              /\ Builder.signatures tx = map stellar_seed (first :: others)
              /\ Builder.memo tx = Builder.memo b
              /\ Builder.ops tx = Builder.ops b)
         submissions.
Proof.
  intros Hinit Hnonneg Hinfo.
  destruct (Client__init__strategies _ _ _ _ _ _ _ _ Hinit) as (Hs & _ & _).
  rewrite (coordinator_run fuel c first others b il w info Hinfo), Hs.
  destruct (retry_nonce_sequences info (first :: others) il
              (effective_retry_config rc) fuel 0
              (mkNonceLoop 1 b (w ++ [GetAccountInfo (public_key first)])))
    as (calls & Hw & Hall).
  exists calls. unfold observe. cbn [snd]. rewrite Hw. cbn [world].
  rewrite <- app_assoc. split; [reflexivity|].
  eapply Forall_impl; [|exact Hall].
  cbn [offset builder]. intros call (k & Hk & ->).
  exists k. eexists. split; [lia|]. split; [reflexivity|].
  rewrite signed_at_eq. cbn. auto.
Qed.

Lemma coordinator_sequences_witness :
  exists submissions,
    snd (_sign_and_submit_builder (H := service_always_bad_nonce) 9
           (client_of 1 3) [alice] builder_alice None [])
    = [] ++ GetAccountInfo (mkPublicKey "alice"%string) :: submissions
    /\ Forall
         (fun call =>
            exists k tx,
              1 <= k <= 3 + 1
              /\ call = SubmitTransaction tx None
              /\ Builder.sequence tx = Some (7 + k)
              /\ Builder.signatures tx = map stellar_seed [alice]
              /\ Builder.memo tx = Builder.memo builder_alice
              /\ Builder.ops tx = Builder.ops builder_alice)
         submissions.
Proof.
  apply (@coordinator_sequences service_always_bad_nonce 9 TEST 1 None false
           None (Some (RetryConfig__init__ None None None (Some 3))) 3
           (client_of 1 3) alice [] builder_alice None [] info7 eq_refl).
  - vm_compute. discriminate.
  - reflexivity.
Defined.

(** ** The transactions of [submit_earn_batch] *)

Lemma fold_append_payment_op (f : Earn.t -> PaymentOp) (earns : list Earn.t) :
  forall b,
    fold_left (fun b earn => Builder.append_payment_op b (f earn)) earns b
    = Builder.mk (Builder.network b) (Builder.fee b) (Builder.secret b)
        (Builder.memo b) (Builder.ops b ++ map f earns) (Builder.sequence b)
        (Builder.signatures b).
Proof.
  induction earns as [|earn earns IH]; intros b.
  - cbn. rewrite app_nil_r. destruct b; reflexivity.
  - cbn [fold_left map]. rewrite IH. cbn. rewrite <- app_assoc. reflexivity.
Qed.

Section EarnBatchBuilder.
Context `{Collaborators}.
Variables (c : Client) (sender : PrivateKey) (earns : list Earn.t)
          (channel : option PrivateKey) (memo : option string).

(** The transaction of a sub-batch is built exactly when its memo is. *)
Lemma earn_batch_builder_cases :
  match memo_exception c EARN memo (earn_invoice_list earns) with
  | Some e => earn_batch_builder c sender earns channel memo = inl e
  | None => exists b, earn_batch_builder c sender earns channel memo = inr b
  end.
Proof.
  unfold earn_batch_builder, memo_exception, add_text_memo.
  destruct memo as [[|a text]|].
  - destruct (0 <? app_index c); [|eexists; reflexivity].
    destruct (AgoraMemo_new _ _ _ _); [reflexivity | eexists; reflexivity].
  - destruct (text_memo_error _); [reflexivity | eexists; reflexivity].
  - destruct (0 <? app_index c); [|eexists; reflexivity].
    destruct (AgoraMemo_new _ _ _ _); [reflexivity | eexists; reflexivity].
Qed.

Variable b : Builder.t.
Hypothesis built : earn_batch_builder c sender earns channel memo = inr b.

(** The builder before the operations are added. *)
Lemma earn_batch_builder_eq :
  exists b0,
    Builder.network b0 = network_name c
    /\ Builder.fee b0 = 100
    /\ Builder.secret b0 = stellar_seed (source_of channel sender)
    /\ Builder.ops b0 = []
    /\ match memo with
       | Some (String _ _ as text) => Builder.memo b0 = Some (TextMemo text)
       | _ =>
           if 0 <? app_index c then
             exists val,
               AgoraMemo_new 1 EARN (app_index c)
                 match earn_invoice_list earns with
                 | Some invoice_list => get_sha_224_hash invoice_list
                 | None => []
                 end
               = inr val
               /\ Builder.memo b0 = Some (HashMemo val)
           else Builder.memo b0 = None
       end
    /\ b
       = fold_left
           (fun b earn =>
              Builder.append_payment_op b
                (payment_op c sender (Earn.destination earn)
                   (Earn.quarks earn)))
           earns b0.
Proof.
  revert built. unfold earn_batch_builder, add_text_memo, source_of.
  destruct memo as [[|a text]|].
  - destruct (0 <? app_index c).
    + destruct (AgoraMemo_new _ _ _ _) as [e|val]; [discriminate|].
      intros Heq. injection Heq as <-. eexists.
      repeat split; try reflexivity. exists val. split; reflexivity.
    + intros Heq. injection Heq as <-. eexists. repeat split; reflexivity.
  - destruct (text_memo_error _); [discriminate|].
    intros Heq. injection Heq as <-. eexists. repeat split; reflexivity.
  - destruct (0 <? app_index c).
    + destruct (AgoraMemo_new _ _ _ _) as [e|val]; [discriminate|].
      intros Heq. injection Heq as <-. eexists.
      repeat split; try reflexivity. exists val. split; reflexivity.
    + intros Heq. injection Heq as <-. eexists. repeat split; reflexivity.
Qed.

Lemma earn_batch_builder_ops :
  Builder.ops b
  = map
      (fun earn =>
         payment_op c sender (Earn.destination earn) (Earn.quarks earn))
      earns.
Proof.
  destruct earn_batch_builder_eq as (b0 & _ & _ & _ & Hops & _ & ->).
  rewrite fold_append_payment_op. cbn [Builder.ops]. rewrite Hops.
  reflexivity.
Qed.

Lemma earn_batch_builder_memo :
  match memo with
  | Some (String _ _ as text) => Builder.memo b = Some (TextMemo text)
  | _ =>
      if 0 <? app_index c then
        exists val,
          AgoraMemo_new 1 EARN (app_index c)
            match earn_invoice_list earns with
            | Some invoice_list => get_sha_224_hash invoice_list
            | None => []
            end
          = inr val
          /\ Builder.memo b = Some (HashMemo val)
      else Builder.memo b = None
  end.
Proof.
  destruct earn_batch_builder_eq as (b0 & _ & _ & _ & _ & Hmemo & ->).
  rewrite fold_append_payment_op. cbn [Builder.memo]. exact Hmemo.
Qed.

Lemma earn_batch_builder_secret :
  Builder.secret b = stellar_seed (source_of channel sender).
Proof.
  destruct earn_batch_builder_eq as (b0 & _ & _ & Hsecret & _ & _ & ->).
  rewrite fold_append_payment_op. cbn [Builder.secret]. exact Hsecret.
Qed.
End EarnBatchBuilder.

Section BatchTrace.
Context `{Collaborators}.
Variables (fuel : nat) (c : Client) (sender : PrivateKey)
          (channel : option PrivateKey) (memo : option string).

(** One sub-batch: nothing, or one account query and submissions of the
    transaction of the sub-batch. *)
Lemma submit_earn_batch_tx_trace (earn_batch : list Earn.t) (w : World) :
  exists calls,
    snd (_submit_earn_batch_tx fuel c sender earn_batch channel memo w)
    = w ++ calls
    /\ Forall
         (fun call =>
            is_submit call = false
            \/ submission_of c sender channel memo earn_batch call)
         calls.
Proof.
  unfold _submit_earn_batch_tx.
  destruct (100 <? List.length earn_batch)%nat.
  - exists []. cbn. rewrite app_nil_r. auto.
  - destruct (earn_batch_builder c sender earn_batch channel memo)
      as [e|b] eqn:Hbuilt.
    + exists []. cbn. rewrite app_nil_r. auto.
    + rewrite bind_keeps_state
        by (intros result w'; destruct (truthy_list _); reflexivity).
      destruct (signers_of_first c channel sender) as (others & Hfirst).
      rewrite Hfirst.
      destruct (coordinator_trace fuel c (source_of channel sender) others
                  b (earn_invoice_list earn_batch) w) as (calls & Hw & Hall).
      eexists. split; [exact Hw|].
      constructor; [left; reflexivity|].
      eapply Forall_impl; [|exact Hall]. intros call (q & ->).
      right. exists b, q. split; [exact Hbuilt|].
      unfold source_of. rewrite <- Hfirst. reflexivity.
Qed.

(** The loop: calls made for the sub-batches it was given. *)
Lemma earn_batch_loop_trace (batches : list (list Earn.t)) :
  forall succeeded failed w,
    exists calls,
      snd (earn_batch_loop fuel c sender channel memo batches succeeded failed
             w)
      = w ++ calls
      /\ Forall
           (fun call =>
              is_submit call = false
              \/ exists earn_batch,
                   In earn_batch batches
                   /\ submission_of c sender channel memo earn_batch call)
           calls.
Proof.
  induction batches as [|earn_batch batches IH]; intros succeeded failed w.
  - exists []. cbn. rewrite app_nil_r. auto.
  - cbn [earn_batch_loop].
    destruct (submit_earn_batch_tx_trace earn_batch w) as (calls & Hw & Hall).
    assert (Hhere :
      Forall
        (fun call =>
           is_submit call = false
           \/ exists b,
                In b (earn_batch :: batches)
                /\ submission_of c sender channel memo b call)
        calls).
    { eapply Forall_impl; [|exact Hall].
      intros call [Hq | Hs]; [left; exact Hq|].
      right. exists earn_batch. split; [left; reflexivity | exact Hs]. }
    destruct (_submit_earn_batch_tx fuel c sender earn_batch channel memo w)
      as [[result|e|] w1]; cbn [snd] in Hw; subst w1.
    + destruct (SubmitTransactionResult.tx_error result) as [err|].
      * destruct (TransactionErrors.op_errors err) as [|op ops];
          [exists calls; split; [reflexivity | exact Hhere]|].
        destruct (op_error_results _ _ _ _);
          exists calls; split; try reflexivity; exact Hhere.
      * destruct (IH (succeeded
                      ++ map
                           (fun earn =>
                              EarnResult.mk earn
                                (Some (SubmitTransactionResult.tx_hash result))
                                None)
                           earn_batch)
                    failed (w ++ calls)) as (calls' & Hw' & Hall').
        exists (calls ++ calls'). split.
        -- rewrite Hw', app_assoc. reflexivity.
        -- apply Forall_app. split; [exact Hhere|].
           eapply Forall_impl; [|exact Hall'].
           intros call [Hq | (b & Hin & Hs)]; [left; exact Hq|].
           right. exists b. split; [right; exact Hin | exact Hs].
    + destruct e; exists calls; split; try reflexivity; exact Hhere.
    + exists calls. split; [reflexivity | exact Hhere].
Qed.

(** The whole of [submit_earn_batch]. *)
Lemma submit_earn_batch_trace (earns : list Earn.t) (w : World) :
  exists calls,
    snd (submit_earn_batch fuel c sender earns channel memo w) = w ++ calls
    /\ (calls <> [] -> fst (validate_earn_batch c earns memo w) = Ret tt)
    /\ Forall
         (fun call =>
            is_submit call = false
            \/ exists earn_batch,
                 In earn_batch (partition earns 100)
                 /\ submission_of c sender channel memo earn_batch call)
         calls.
Proof.
  unfold submit_earn_batch.
  destruct (negb (supported_version (_kin_version c))).
  - exists []. cbn. rewrite app_nil_r. split; [reflexivity|].
    split; [congruence | constructor].
  - unfold bind at 1.
    destruct (validate_earn_batch_cases c earns memo w) as [Hv | (msg & Hv)];
      rewrite Hv.
    + rewrite bind_keeps_state by (intros [s f] w'; reflexivity).
      destruct (earn_batch_loop_trace (partition earns 100) [] [] w)
        as (calls & Hw & Hall).
      exists calls. split; [exact Hw|]. split; [reflexivity | exact Hall].
    + exists []. cbn. rewrite app_nil_r. split; [reflexivity|].
      split; [congruence | constructor].
Qed.
End BatchTrace.

(** ** The results of [submit_earn_batch] *)

Example submit_earn_batch_250_succeed :
  fst (submit_earn_batch (H := service_always_ok) 4 (client_of 0 3) alice
         (repeat earn_bob 250) None None [])
  = Ret (BatchEarnResult.mk
           (repeat (EarnResult.mk earn_bob (Some hashA) None) 250) []).
Proof. vm_compute. reflexivity. Qed.

(** X12: for an empty list of earns [submit_earn_batch] returns an empty
    [BatchEarnResult] without any call to the service. *)
Theorem submit_earn_batch_empty `{Collaborators}
    (fuel : nat) (c : Client) (sender : PrivateKey)
    (channel : option PrivateKey) (memo : option string) (w : World) :
  supported_version (_kin_version c) = true ->
  submit_earn_batch fuel c sender [] channel memo w
  = (Ret (BatchEarnResult.mk [] []), w).
Proof.
  intros Hversion. unfold submit_earn_batch. rewrite Hversion. reflexivity.
Qed.

Lemma submit_earn_batch_empty_witness :
  submit_earn_batch (H := service_ok) 4 (client_of 0 3) alice [] None
    (Some "hi"%string) []
  = (Ret (BatchEarnResult.mk [] []), []).
Proof.
  apply (@submit_earn_batch_empty service_ok 4 (client_of 0 3) alice None
           (Some "hi"%string) [] eq_refl).
Defined.

Lemma all_succeed_entries `{Collaborators} (fuel : nat) (c : Client)
    (sender : PrivateKey) (channel : option PrivateKey)
    (memo : option string) (batches : list (list Earn.t)) :
  forall w results w1,
    all_succeed fuel c sender channel memo batches w = Some (results, w1) ->
    Forall succeeded_entry results.
Proof.
  induction batches as [|earn_batch batches IH]; intros w results w1 Hall.
  - cbn in Hall. inversion Hall. constructor.
  - cbn [all_succeed] in Hall.
    destruct (_submit_earn_batch_tx fuel c sender earn_batch channel memo w)
      as [[result|e|] w2]; try discriminate.
    destruct (SubmitTransactionResult.tx_error result); [discriminate|].
    destruct (all_succeed fuel c sender channel memo batches w2)
      as [[results' w3]|] eqn:Hrest; [|discriminate].
    injection Hall as <- <-. apply Forall_app. split.
    + apply Forall_map. apply Forall_forall. intros earn _.
      split; [reflexivity | discriminate].
    + exact (IH _ _ _ Hrest).
Qed.

(** X13: when every sub-batch is submitted with success,
    [submit_earn_batch] returns all the earns in [succeeded], in input
    order, each with the transaction hash of its sub-batch and no error,
    and [failed] is empty. *)
Theorem submit_earn_batch_all_succeed `{Collaborators}
    (fuel : nat) (c : Client) (sender : PrivateKey) (earns : list Earn.t)
    (channel : option PrivateKey) (memo : option string) (w w' : World)
    (results : list EarnResult.t) :
  supported_version (_kin_version c) = true ->
  fst (validate_earn_batch c earns memo w) = Ret tt ->
  all_succeed fuel c sender channel memo (partition earns 100) w
  = Some (results, w') ->
  submit_earn_batch fuel c sender earns channel memo w
  = (Ret (BatchEarnResult.mk results []), w')
  /\ map EarnResult.earn results = earns
  /\ Forall succeeded_entry results.
Proof.
  intros Hversion Hvalid Hall.
  pose proof (all_succeed_earns fuel c sender channel memo _ _ _ _ Hall)
    as Hearns.
  change 100%nat with (S 99) in Hearns at 1.
  rewrite partition_concat in Hearns.
  split; [|split; [exact Hearns | exact (all_succeed_entries _ _ _ _ _ _ _ _ _ Hall)]].
  rewrite (submit_earn_batch_run fuel c sender channel memo earns w Hversion
             Hvalid).
  rewrite <- (app_nil_r (partition earns 100)).
  rewrite (earn_batch_loop_app fuel c sender channel memo _ [] [] [] w
             results w' Hall).
  cbn [earn_batch_loop ret app List.length].
  rewrite Nat.add_0_r, skipn_all2; [reflexivity|].
  rewrite <- Hearns at 1. rewrite length_map. lia.
Qed.

Lemma submit_earn_batch_all_succeed_witness :
  submit_earn_batch (H := service_always_ok) 4 (client_of 0 3) alice earns_3
    None None []
  = (Ret (BatchEarnResult.mk
            [EarnResult.mk earn_bob (Some hashA) None;
             EarnResult.mk earn_carol (Some hashA) None;
             EarnResult.mk earn_bob (Some hashA) None]
            []),
     snd (submit_earn_batch (H := service_always_ok) 4 (client_of 0 3) alice
            earns_3 None None [])).
Proof.
  apply (@submit_earn_batch_all_succeed service_always_ok 4 (client_of 0 3)
           alice earns_3 None None [] _ _ eq_refl eq_refl).
  vm_compute. reflexivity.
Defined.

(** X14: when the first sub-batch that fails is answered with a
    transaction-level error that carries no operation error, every earn
    of that sub-batch is failed with the whole-transaction error of the
    result and its transaction hash, the earns of the sub-batches before
    it stay succeeded, the earns after it are recorded as never
    attempted, and nothing more is sent to the service. *)
Theorem submit_earn_batch_rejected_as_a_whole `{Collaborators}
    (fuel : nat) (c : Client) (sender : PrivateKey) (earns : list Earn.t)
    (channel : option PrivateKey) (memo : option string) (w w1 w2 : World)
    (pre : list (list Earn.t)) (earn_batch : list Earn.t)
    (post : list (list Earn.t)) (succeeded : list EarnResult.t)
    (result : SubmitTransactionResult.t) (err : TransactionErrors.t) :
  supported_version (_kin_version c) = true ->
  fst (validate_earn_batch c earns memo w) = Ret tt ->
  partition earns 100 = pre ++ earn_batch :: post ->
  all_succeed fuel c sender channel memo pre w = Some (succeeded, w1) ->
  _submit_earn_batch_tx fuel c sender earn_batch channel memo w1
  = (Ret result, w2) ->
  SubmitTransactionResult.tx_error result = Some err ->
  TransactionErrors.op_errors err = [] ->
  submit_earn_batch fuel c sender earns channel memo w
  = (Ret (BatchEarnResult.mk succeeded
            (map
               (fun earn =>
                  EarnResult.mk earn
                    (Some (SubmitTransactionResult.tx_hash result))
                    (TransactionErrors.tx_error err))
               earn_batch
             ++ map unattempted (concat post))),
     w2).
Proof.
  intros. eapply submit_earn_batch_whole_tx_error; eassumption.
Qed.

Lemma submit_earn_batch_rejected_as_a_whole_witness :
  submit_earn_batch
    (H := scripted info7 [inr (result_tx_error hashB TransactionRejectedError)])
    4 (client_of 0 3) alice earns_3 None None []
  = (Ret (BatchEarnResult.mk []
            (map
               (fun earn =>
                  EarnResult.mk earn (Some hashB)
                    (Some TransactionRejectedError))
               earns_3
             ++ map unattempted (concat []))),
     snd (submit_earn_batch
            (H := scripted info7
                    [inr (result_tx_error hashB TransactionRejectedError)])
            4 (client_of 0 3) alice earns_3 None None [])).
Proof.
  apply (@submit_earn_batch_rejected_as_a_whole
           (scripted info7
              [inr (result_tx_error hashB TransactionRejectedError)])
           4 (client_of 0 3) alice earns_3 None None [] [] _ [] earns_3 [] []
           (result_tx_error hashB TransactionRejectedError)
           (TransactionErrors.mk (Some TransactionRejectedError) [])).
  - reflexivity.
  - reflexivity.
  - reflexivity.
  - reflexivity.
  - vm_compute. reflexivity.
  - reflexivity.
  - reflexivity.
Defined.

(** X15: when the first sub-batch that fails is answered with as many
    operation errors as it has earns, the earn at each index of the
    sub-batch is failed with the operation error at that index and the
    transaction hash of the result; the earns after the sub-batch are
    recorded as never attempted. *)
Theorem submit_earn_batch_operation_errors `{Collaborators}
    (fuel : nat) (c : Client) (sender : PrivateKey) (earns : list Earn.t)
    (channel : option PrivateKey) (memo : option string) (w w1 w2 : World)
    (pre : list (list Earn.t)) (earn_batch : list Earn.t)
    (post : list (list Earn.t)) (succeeded : list EarnResult.t)
    (result : SubmitTransactionResult.t) (err : TransactionErrors.t) :
  supported_version (_kin_version c) = true ->
  fst (validate_earn_batch c earns memo w) = Ret tt ->
  partition earns 100 = pre ++ earn_batch :: post ->
  all_succeed fuel c sender channel memo pre w = Some (succeeded, w1) ->
  _submit_earn_batch_tx fuel c sender earn_batch channel memo w1
  = (Ret result, w2) ->
  SubmitTransactionResult.tx_error result = Some err ->
  TransactionErrors.op_errors err <> [] ->
  List.length (TransactionErrors.op_errors err) = List.length earn_batch ->
  submit_earn_batch fuel c sender earns channel memo w
  = (Ret (BatchEarnResult.mk succeeded
            (map
               (fun p =>
                  EarnResult.mk (fst p)
                    (Some (SubmitTransactionResult.tx_hash result))
                    (Some (snd p)))
               (combine earn_batch (TransactionErrors.op_errors err))
             ++ map unattempted (concat post))),
     w2).
Proof.
  intros Hversion Hvalid Hbatches Hpre Htx Herr Hne Hlen.
  eapply submit_earn_batch_op_errors_positional; try eassumption. lia.
Qed.

Lemma submit_earn_batch_operation_errors_witness :
  submit_earn_batch (H := service_two_op_errors) 4 (client_of 0 3) alice
    [earn_bob; earn_carol] None None []
  = (Ret (BatchEarnResult.mk []
            (map
               (fun p => EarnResult.mk (fst p) (Some hashA) (Some (snd p)))
               (combine [earn_bob; earn_carol]
                  [InsufficientBalanceError; DestinationDoesNotExistError])
             ++ map unattempted (concat []))),
     snd (submit_earn_batch (H := service_two_op_errors) 4 (client_of 0 3)
            alice [earn_bob; earn_carol] None None [])).
Proof.
  apply (@submit_earn_batch_operation_errors service_two_op_errors 4
           (client_of 0 3) alice [earn_bob; earn_carol] None None [] [] _ []
           [earn_bob; earn_carol] [] []
           (result_op_errors hashA
              [InsufficientBalanceError; DestinationDoesNotExistError])
           (TransactionErrors.mk None
              [InsufficientBalanceError; DestinationDoesNotExistError])).
  - reflexivity.
  - reflexivity.
  - reflexivity.
  - reflexivity.
  - vm_compute. reflexivity.
  - reflexivity.
  - discriminate.
  - reflexivity.
Defined.

Lemma earn_batch_loop_succeeded `{Collaborators} (fuel : nat) (c : Client)
    (sender : PrivateKey) (channel : option PrivateKey)
    (memo : option string) (batches : list (list Earn.t)) :
  forall succeeded failed w succeeded' failed' w',
    Forall succeeded_entry succeeded ->
    earn_batch_loop fuel c sender channel memo batches succeeded failed w
    = (Ret (succeeded', failed'), w') ->
    Forall succeeded_entry succeeded'.
Proof.
  induction batches as [|earn_batch batches IH];
    intros succeeded failed w succeeded' failed' w' Hs Hloop.
  - cbn in Hloop. injection Hloop as <- <- <-. exact Hs.
  - cbn [earn_batch_loop] in Hloop.
    destruct (_submit_earn_batch_tx fuel c sender earn_batch channel memo w)
      as [[result|e|] w1]; [| |discriminate].
    + destruct (SubmitTransactionResult.tx_error result) as [err|].
      * destruct (TransactionErrors.op_errors err) as [|op ops].
        -- injection Hloop as <- <- <-. exact Hs.
        -- destruct (op_error_results _ _ _ _); [discriminate|].
           injection Hloop as <- <- <-. exact Hs.
      * eapply IH; [|exact Hloop].
        apply Forall_app. split; [exact Hs|].
        apply Forall_map. apply Forall_forall. intros earn _.
        split; [reflexivity | discriminate].
    + destruct e; try discriminate.
      injection Hloop as <- <- <-. exact Hs.
Qed.

(** X16: in every [BatchEarnResult] that [submit_earn_batch] returns,
    each entry of [succeeded] carries a transaction hash and no error. *)
Theorem submit_earn_batch_succeeded_entries `{Collaborators}
    (fuel : nat) (c : Client) (sender : PrivateKey) (earns : list Earn.t)
    (channel : option PrivateKey) (memo : option string) (w w' : World)
    (result : BatchEarnResult.t) :
  submit_earn_batch fuel c sender earns channel memo w = (Ret result, w') ->
  Forall succeeded_entry (BatchEarnResult.succeeded result).
Proof.
  intros Hrun. unfold submit_earn_batch in Hrun.
  destruct (negb (supported_version (_kin_version c))); [discriminate|].
  unfold bind at 1 in Hrun.
  destruct (validate_earn_batch_cases c earns memo w) as [Hv | (msg & Hv)];
    rewrite Hv in Hrun; [|discriminate].
  unfold bind in Hrun.
  destruct (earn_batch_loop fuel c sender channel memo (partition earns 100)
              [] [] w) as [[[s f]|e|] w1] eqn:Hloop; try discriminate.
  cbn in Hrun. injection Hrun as <- <-.
  cbn [BatchEarnResult.succeeded].
  eapply earn_batch_loop_succeeded; [|exact Hloop]. constructor.
Qed.

Lemma submit_earn_batch_succeeded_entries_witness :
  Forall succeeded_entry
    (BatchEarnResult.succeeded
       (BatchEarnResult.mk
          (repeat (EarnResult.mk earn_bob (Some hashA) None) 100)
          (repeat
             (EarnResult.mk earn_carol (Some hashB)
                (Some TransactionRejectedError))
             50))).
Proof.
  apply (@submit_earn_batch_succeeded_entries service_second_rejected 4
           (client_of 0 3) alice earns_150 None None []
           (snd (submit_earn_batch (H := service_second_rejected) 4
                   (client_of 0 3) alice earns_150 None None []))).
  vm_compute. reflexivity.
Defined.

(** ** The number of calls of [submit_earn_batch] *)

Lemma partition_length_bounded {A : Type} (m k : nat) :
  forall l : list A,
    (List.length l <= k)%nat ->
    List.length (partition l (S m)) = ((List.length l + m) / S m)%nat.
Proof.
  induction k as [|k IH]; intros l Hk.
  - destruct l; [|simpl in Hk; lia].
    simp partition. cbn [List.length]. symmetry. apply Nat.div_small. lia.
  - destruct l as [|x xs].
    + simp partition. cbn [List.length]. symmetry. apply Nat.div_small. lia.
    + simp partition. cbn [List.length].
      rewrite IH by (rewrite length_skipn; simpl in *; lia).
      rewrite length_skipn. cbn [List.length].
      destruct (Nat.le_gt_cases (S m) (S (List.length xs))) as [Hle|Hgt].
      * replace (S (List.length xs) + m)%nat
          with ((S (List.length xs) - S m + m) + 1 * S m)%nat by lia.
        rewrite Nat.div_add by lia. lia.
      * replace (S (List.length xs) - S m)%nat with 0%nat by lia.
        rewrite (Nat.div_small (0 + m) (S m)) by lia.
        apply (Nat.div_unique _ _ 1 (List.length xs)); lia.
Qed.

(** The number of sub-batches: the length divided by the size, rounded
    up. *)
Lemma partition_length {A : Type} (l : list A) (m : nat) :
  List.length (partition l (S m)) = ((List.length l + m) / S m)%nat.
Proof. apply (partition_length_bounded m (List.length l)). lia. Qed.

Section BatchCalls.
Context `{Collaborators}.
Variables (fuel : nat) (c : Client) (cfg : RetryConfig)
          (sender : PrivateKey) (channel : option PrivateKey)
          (memo : option string).
Hypothesis strategies_ok :
  _nonce_retry_strategies c = nonce_retry_strategies cfg.
Hypothesis cfg_nonneg : 0 <= max_nonce_refreshes cfg.

Local Notation attempts := (Z.to_nat (max_nonce_refreshes cfg + 1)).

Lemma submit_earn_batch_tx_bound (earn_batch : list Earn.t) (w : World) :
  (count_queries
     (snd (_submit_earn_batch_tx fuel c sender earn_batch channel memo w))
   <= count_queries w + 1)%nat
  /\ (count_submits
        (snd (_submit_earn_batch_tx fuel c sender earn_batch channel memo w))
      <= count_submits w + attempts)%nat.
Proof.
  unfold _submit_earn_batch_tx.
  destruct (100 <? List.length earn_batch)%nat;
    [unfold raise; cbn [snd]; split; lia|].
  destruct (earn_batch_builder c sender earn_batch channel memo) as [e|b];
    [unfold raise; cbn [snd]; split; lia|].
  rewrite bind_keeps_state
    by (intros result w'; destruct (truthy_list _); reflexivity).
  apply (coordinator_bound fuel c cfg strategies_ok cfg_nonneg).
Qed.

Lemma earn_batch_loop_bound (batches : list (list Earn.t)) :
  forall succeeded failed w,
    (count_queries
       (snd (earn_batch_loop fuel c sender channel memo batches succeeded
               failed w))
     <= count_queries w + List.length batches)%nat
    /\ (count_submits
          (snd (earn_batch_loop fuel c sender channel memo batches succeeded
                  failed w))
        <= count_submits w + List.length batches * attempts)%nat.
Proof.
  induction batches as [|earn_batch batches IH]; intros succeeded failed w.
  - unfold earn_batch_loop, ret. cbn [snd List.length]. split; lia.
  - cbn [earn_batch_loop List.length]. rewrite Nat.mul_succ_l.
    pose proof (submit_earn_batch_tx_bound earn_batch w) as (Hq & Hs).
    destruct (_submit_earn_batch_tx fuel c sender earn_batch channel memo w)
      as [[result|e|] w1]; cbn [snd] in *.
    + destruct (SubmitTransactionResult.tx_error result) as [err|].
      * destruct (TransactionErrors.op_errors err) as [|op ops];
          [cbn [snd]; split; lia|].
        destruct (op_error_results _ _ _ _); cbn [snd]; split; lia.
      * match goal with
        | |- context [earn_batch_loop _ _ _ _ _ batches ?s ?f w1] =>
            destruct (IH s f w1) as (Hq' & Hs')
        end.
        split; lia.
    + destruct e; cbn [snd]; split; lia.
    + split; lia.
Qed.
End BatchCalls.

(** X17: whatever the service answers, one call of [submit_earn_batch]
    with [K] earns on a client built by [Client.__init__] makes at most
    one account query for each sub-batch of 100, that is [K / 100]
    rounded up, and at most [max_nonce_refreshes + 1] submissions for
    each. *)
Theorem submit_earn_batch_calls_bound `{Collaborators}
    (fuel : nat) (env : Environment) (ai : Z) (wk : option PrivateKey)
    (gc : bool) (ep : option string) (rc : option RetryConfig) (kv : Z)
    (c : Client) (sender : PrivateKey) (earns : list Earn.t)
    (channel : option PrivateKey) (memo : option string) (w : World) :
  Client__init__ env ai wk gc ep rc kv = inr c ->
  0 <= max_nonce_refreshes (effective_retry_config rc) ->
  let sub_batches := ((List.length earns + 99) / 100)%nat in
  let run := submit_earn_batch fuel c sender earns channel memo w in
  (count_queries (snd run) <= count_queries w + sub_batches)%nat
  /\ (count_submits (snd run)
      <= count_submits w
         + sub_batches
           * Z.to_nat (max_nonce_refreshes (effective_retry_config rc) + 1))%nat.
Proof.
  intros Hinit Hnonneg. cbv zeta.
  destruct (Client__init__strategies _ _ _ _ _ _ _ _ Hinit) as (Hs & _ & _).
  unfold submit_earn_batch.
  destruct (negb (supported_version (_kin_version c)));
    [unfold raise; cbn [snd]; split; lia|].
  unfold bind at 1 3.
  destruct (validate_earn_batch_cases c earns memo w) as [Hv | (msg & Hv)];
    rewrite Hv; [|cbn [snd]; split; lia].
  rewrite bind_keeps_state by (intros [s f] w'; reflexivity).
  pose proof (earn_batch_loop_bound fuel c (effective_retry_config rc) sender
                channel memo Hs Hnonneg (partition earns 100) [] [] w)
    as Hbound.
  change 100%nat with (S 99) in Hbound at 2 4.
  rewrite (partition_length earns 99) in Hbound.
  exact Hbound.
Qed.

Lemma submit_earn_batch_calls_bound_witness :
  (count_queries
     (snd (submit_earn_batch (H := service_always_bad_nonce) 9 (client_of 0 3)
             alice earns_150 None None []))
   <= count_queries [] + (List.length earns_150 + 99) / 100)%nat
  /\ (count_submits
        (snd (submit_earn_batch (H := service_always_bad_nonce) 9
                (client_of 0 3) alice earns_150 None None []))
      <= count_submits []
         + (List.length earns_150 + 99) / 100 * Z.to_nat (3 + 1))%nat.
Proof.
  apply (@submit_earn_batch_calls_bound service_always_bad_nonce 9 TEST 0
           None false None
           (Some (RetryConfig__init__ None None None (Some 3))) 3
           (client_of 0 3) alice earns_150 None None [] eq_refl).
  vm_compute. discriminate.
Defined.

(** ** Memo, operations and invoices of the sub-batches *)

Lemma earn_invoices_app (l1 l2 : list Earn.t) :
  earn_invoices (l1 ++ l2) = earn_invoices l1 ++ earn_invoices l2.
Proof. unfold earn_invoices. apply flat_map_app. Qed.

Lemma earn_invoices_chunk (batches : list (list Earn.t))
    (earn_batch : list Earn.t) :
  earn_invoices (concat batches) = [] ->
  In earn_batch batches ->
  earn_invoices earn_batch = [].
Proof.
  induction batches as [|b batches IH]; intros Hnil Hin; [contradiction|].
  cbn [concat] in Hnil. rewrite earn_invoices_app in Hnil.
  apply app_eq_nil in Hnil. destruct Hnil as (Hb & Hrest).
  destruct Hin as [-> | Hin]; [exact Hb | exact (IH Hrest Hin)].
Qed.

Lemma partition_nonempty_bounded {A : Type} (m k : nat) :
  forall l : list A,
    (List.length l <= k)%nat ->
    Forall (fun chunk => chunk <> []) (partition l (S m)).
Proof.
  induction k as [|k IH]; intros l Hk.
  - destruct l; [simp partition; constructor | simpl in Hk; lia].
  - destruct l as [|x xs]; [simp partition; constructor|].
    simp partition. constructor.
    + cbn. discriminate.
    + apply IH. rewrite length_skipn. simpl in *. lia.
Qed.

Lemma partition_nonempty {A : Type} (l : list A) (m : nat) :
  Forall (fun chunk => chunk <> []) (partition l (S m)).
Proof. apply (partition_nonempty_bounded m (List.length l)). lia. Qed.

Lemma partition_In {A : Type} (l chunk : list A) (m : nat) (x : A) :
  In chunk (partition l (S m)) -> In x chunk -> In x l.
Proof.
  intros Hchunk Hx. rewrite <- (partition_concat l m).
  apply in_concat. exists chunk. split; assumption.
Qed.

Lemma validate_with_memo (c : Client) (earns : list Earn.t)
    (memo : option string) (w : World) :
  fst (validate_earn_batch c earns memo w) = Ret tt ->
  earn_invoices earns = []
  \/ (0 < app_index c
      /\ List.length (earn_invoices earns) = List.length earns
      /\ truthy_str memo = false).
Proof.
  unfold validate_earn_batch.
  destruct (earn_invoices earns) as [|i invoices]; [left; reflexivity|].
  destruct (Z.leb_spec (app_index c) 0); [discriminate|].
  destruct (Nat.eqb_spec (List.length (i :: invoices)) (List.length earns));
    cbn [negb]; [|discriminate].
  destruct (truthy_str memo); [discriminate|].
  intros _. right. auto.
Qed.

(** X18: with a non-empty text memo, every transaction that
    [submit_earn_batch] submits carries that memo verbatim and is sent
    without an invoice list. *)
Theorem submit_earn_batch_text_memo `{Collaborators}
    (fuel : nat) (c : Client) (sender : PrivateKey) (earns : list Earn.t)
    (channel : option PrivateKey) (w : World) (a : ascii) (text : string) :
  exists calls,
    snd (submit_earn_batch fuel c sender earns channel
           (Some (String a text)) w)
    = w ++ calls
    /\ submissions_satisfy
         (fun tx invoice_list =>
            Builder.memo tx = Some (TextMemo (String a text))
            /\ invoice_list = None)
         calls.
Proof.
  destruct (submit_earn_batch_trace fuel c sender channel
              (Some (String a text)) earns w) as (calls & Hw & Hvalid & Hall).
  exists calls. split; [exact Hw|].
  destruct calls as [|call0 calls]; [constructor|].
  specialize (Hvalid ltac:(discriminate)).
  apply validate_with_memo in Hvalid.
  destruct Hvalid as [Hnone | (_ & _ & Hmemo)]; [|discriminate].
  eapply Forall_impl; [|exact Hall].
  intros call [Hq | (earn_batch & Hin & (b & q & Hbuilt & ->))].
  - destruct call; [exact I | discriminate].
  - rewrite signed_at_memo.
    split;
      [exact (earn_batch_builder_memo c sender earn_batch channel
                (Some (String a text)) b Hbuilt)|].
    unfold earn_invoice_list.
    rewrite (earn_invoices_chunk (partition earns 100) earn_batch);
      [reflexivity | | exact Hin].
    change 100%nat with (S 99). rewrite partition_concat. exact Hnone.
Qed.

Example submit_earn_batch_text_memo_run :
  snd (submit_earn_batch (H := service_ok) 4 (client_of 1 3) alice
         [earn_bob] None (Some "hi"%string) [])
  = [GetAccountInfo (mkPublicKey "alice"%string);
     SubmitTransaction
       (Builder.mk "TESTNET"%string 100 "alice"%string
          (Some (TextMemo "hi"%string))
          [mkPaymentOp "bob"%string "10"%string "alice"%string None]
          (Some 8) ["alice"%string])
       None].
Proof. vm_compute. reflexivity. Qed.

Lemma earn_invoices_none (earns : list Earn.t) :
  earn_invoices earns = []
  <-> forall earn, In earn earns -> Earn.invoice earn = None.
Proof.
  induction earns as [|earn earns IH]; [split; [intros _ ? [] | reflexivity]|].
  unfold earn_invoices in *. cbn [flat_map].
  destruct (Earn.invoice earn) as [i|] eqn:Hi.
  - split; [discriminate|].
    intros Hall. specialize (Hall earn (or_introl eq_refl)). congruence.
  - cbn [app]. rewrite IH. split.
    + intros Hall earn' [<- | Hin]; [exact Hi | exact (Hall earn' Hin)].
    + intros Hall earn' Hin. apply Hall. right. exact Hin.
Qed.

(** The invoices of a list of earns are the invoices that are present,
    in the order of the earns. *)
Lemma earn_invoices_filter (earns : list Earn.t) :
  map Some (earn_invoices earns)
  = filter (fun o => match o with Some _ => true | None => false end)
      (map Earn.invoice earns).
Proof.
  induction earns as [|earn earns IH]; [reflexivity|].
  unfold earn_invoices in *. cbn [flat_map map filter].
  destruct (Earn.invoice earn); cbn; rewrite IH; reflexivity.
Qed.

(** X19: every transaction that [submit_earn_batch] submits is the
    transaction of one of the sub-batches of 100.  It holds one payment
    operation for each earn of that sub-batch, in order, from the sender
    to the destination of the earn (on Kin 2 with the quarks multiplied by
    100 and the asset issuer of the client), so between 1 and 100
    operations; it is built on the account of the channel when there is
    one and of the sender otherwise, is signed, in this order, by the
    channel (if any), the sender and the whitelisting key (if any), and is
    sent with the list of the invoices of that sub-batch, or with none
    when no earn of the sub-batch carries one. *)
Theorem submit_earn_batch_operations `{Collaborators}
    (fuel : nat) (c : Client) (sender : PrivateKey) (earns : list Earn.t)
    (channel : option PrivateKey) (memo : option string) (w : World) :
  exists calls,
    snd (submit_earn_batch fuel c sender earns channel memo w) = w ++ calls
    /\ submissions_satisfy
         (fun tx invoice_list =>
            exists earn_batch,
              In earn_batch (partition earns 100)
              /\ Builder.ops tx
                 = map
                     (fun earn =>
                        mkPaymentOp
                          (stellar_address (Earn.destination earn))
                          (quarks_to_kin
                             (if _kin_version c =? 2
                              then Earn.quarks earn * 100
                              else Earn.quarks earn))
                          (stellar_address (public_key sender))
                          (if _kin_version c =? 2 then _asset_issuer c
                           else None))
                     earn_batch
              /\ (1 <= List.length (Builder.ops tx) <= 100)%nat
              /\ Builder.secret tx
                 = stellar_seed
                     match channel with
                     | Some ch => ch
                     | None => sender
                     end
              /\ Builder.signatures tx
                 = match channel with
                   | Some ch => [stellar_seed ch; stellar_seed sender]
                   | None => [stellar_seed sender]
                   end
                   ++ match whitelist_key c with
                      | Some key => [stellar_seed key]
                      | None => []
                      end
              /\ match invoice_list with
                 | Some il =>
                     invoices il <> []
                     /\ map Some (invoices il)
                        = filter
                            (fun o =>
                               match o with
                               | Some _ => true
                               | None => false
                               end)
                            (map Earn.invoice earn_batch)
                 | None =>
                     forall earn,
                       In earn earn_batch -> Earn.invoice earn = None
                 end)
         calls.
Proof.
  destruct (submit_earn_batch_trace fuel c sender channel memo earns w)
    as (calls & Hw & _ & Hall).
  exists calls. split; [exact Hw|].
  eapply Forall_impl; [|exact Hall].
  intros call [Hq | (earn_batch & Hin & (b & q & Hbuilt & ->))].
  - destruct call; [exact I | discriminate].
  - exists earn_batch. rewrite signed_at_eq. cbn.
    rewrite (earn_batch_builder_ops c sender earn_batch channel memo b Hbuilt),
      (earn_batch_builder_secret c sender earn_batch channel memo b Hbuilt),
      length_map, signers_of_seeds.
    split; [exact Hin|]. split; [reflexivity|]. split; [|split; [|split]].
    + split.
      * pose proof (partition_nonempty earns 99) as Hne.
        rewrite Forall_forall in Hne. specialize (Hne earn_batch Hin).
        destruct earn_batch; [congruence | cbn; lia].
      * pose proof (partition_sizes earns 99) as Hsz.
        rewrite Forall_forall in Hsz. exact (Hsz earn_batch Hin).
    + reflexivity.
    + reflexivity.
    + unfold earn_invoice_list.
      pose proof (earn_invoices_filter earn_batch) as Hfilter.
      destruct (earn_invoices earn_batch) as [|i l] eqn:Hi.
      * apply earn_invoices_none. exact Hi.
      * cbn [invoices]. split; [discriminate | exact Hfilter].
Qed.

Lemma earn_invoices_all (earns : list Earn.t) :
  (forall earn, In earn earns -> Earn.invoice earn <> None) ->
  map Some (earn_invoices earns) = map Earn.invoice earns.
Proof.
  induction earns as [|earn earns IH]; intros Hall; [reflexivity|].
  unfold earn_invoices in *. cbn [flat_map map].
  destruct (Earn.invoice earn) as [i|] eqn:Hi.
  - cbn. rewrite IH; [reflexivity|].
    intros earn' Hin. apply Hall. right. exact Hin.
  - exfalso. apply (Hall earn); [left; reflexivity | exact Hi].
Qed.

(** X20: when every earn carries an invoice and [submit_earn_batch]
    reaches the service, every transaction it submits is sent with the
    invoice list of its own sub-batch, one invoice for each earn and in
    the order of the earns, and its memo is the hash memo that
    [AgoraMemo.new] returned for version 1, the type [EARN] and the app
    index over the hash of that invoice list. *)
Theorem submit_earn_batch_invoice_lists `{Collaborators}
    (fuel : nat) (c : Client) (sender : PrivateKey) (earns : list Earn.t)
    (channel : option PrivateKey) (memo : option string) (w : World) :
  (forall earn, In earn earns -> Earn.invoice earn <> None) ->
  exists calls,
    snd (submit_earn_batch fuel c sender earns channel memo w) = w ++ calls
    /\ submissions_satisfy
         (fun tx invoice_list =>
            exists earn_batch invoices,
              In earn_batch (partition earns 100)
              /\ invoice_list = Some (mkInvoiceList invoices)
              /\ map Some invoices = map Earn.invoice earn_batch
              /\ exists val,
                   AgoraMemo_new 1 EARN (app_index c)
                     (get_sha_224_hash (mkInvoiceList invoices))
                   = inr val
                   /\ Builder.memo tx = Some (HashMemo val))
         calls.
Proof.
  intros Hall_invoices.
  destruct (submit_earn_batch_trace fuel c sender channel memo earns w)
    as (calls & Hw & Hvalid & Hall).
  exists calls. split; [exact Hw|].
  destruct calls as [|call0 calls]; [constructor|].
  specialize (Hvalid ltac:(discriminate)).
  apply validate_with_memo in Hvalid.
  eapply Forall_impl; [|exact Hall].
  intros call [Hq | (earn_batch & Hin & (b & q & Hbuilt & ->))].
  - destruct call; [exact I | discriminate].
  - assert (Hbatch : forall earn, In earn earn_batch -> Earn.invoice earn <> None)
      by (intros earn He; apply Hall_invoices;
          exact (partition_In earns earn_batch 99 earn Hin He)).
    pose proof (earn_invoices_all earn_batch Hbatch) as Hinvoices.
    pose proof (partition_nonempty earns 99) as Hne.
    rewrite Forall_forall in Hne. specialize (Hne earn_batch Hin).
    assert (Hsome : earn_invoices earn_batch <> []).
    { destruct earn_batch as [|earn rest]; [congruence|].
      intros Hnil. rewrite Hnil in Hinvoices. discriminate. }
    exists earn_batch, (earn_invoices earn_batch).
    rewrite signed_at_memo.
    pose proof (earn_batch_builder_memo c sender earn_batch channel memo b
                  Hbuilt) as Hb.
    unfold earn_invoice_list in *.
    destruct (earn_invoices earn_batch) as [|i invoices] eqn:Hi;
      [congruence|].
    split; [exact Hin|]. split; [reflexivity|]. split; [exact Hinvoices|].
    destruct Hvalid as [Hnone | (Hindex & _ & Hmemo)].
    + exfalso. apply Hsome.
      rewrite <- Hi. apply (earn_invoices_chunk (partition earns 100));
        [|exact Hin].
      change 100%nat with (S 99). rewrite partition_concat. exact Hnone.
    + apply Z.ltb_lt in Hindex. rewrite Hindex in Hb.
      destruct memo as [[|a text]|]; [exact Hb|discriminate|exact Hb].
Qed.

Lemma submit_earn_batch_invoice_lists_witness :
  exists calls,
    snd (submit_earn_batch (H := service_ok) 4 (client_of 1 3) alice
           [earn_bob_invoice] None None [])
    = [] ++ calls
    /\ submissions_satisfy
         (fun tx invoice_list =>
            exists earn_batch invoices,
              In earn_batch (partition [earn_bob_invoice] 100)
              /\ invoice_list = Some (mkInvoiceList invoices)
              /\ map Some invoices = map Earn.invoice earn_batch
              /\ exists val,
                   checked_AgoraMemo_new 1 EARN 1 [Byte.x01] = inr val
                   /\ Builder.memo tx = Some (HashMemo val))
         calls.
Proof.
  apply (@submit_earn_batch_invoice_lists service_ok 4 (client_of 1 3) alice
           [earn_bob_invoice] None None []).
  intros earn [<- | []]. discriminate.
Defined.

(** ** Failures before the first submission *)

(** X21: when the memo of the first sub-batch can be built and the
    query of the source account raises an [Error] of the library,
    [submit_earn_batch] makes this one call and no submission, and
    returns a [BatchEarnResult] in which the earns of the first sub-batch
    are failed with that error, without a transaction hash, and all other
    earns are recorded as never attempted. *)
Theorem submit_earn_batch_account_error `{Collaborators}
    (fuel : nat) (c : Client) (sender : PrivateKey) (earns : list Earn.t)
    (channel : option PrivateKey) (memo : option string) (w : World)
    (earn_batch : list Earn.t) (post : list (list Earn.t))
    (a : AgoraError) :
  supported_version (_kin_version c) = true ->
  fst (validate_earn_batch c earns memo w) = Ret tt ->
  partition earns 100 = earn_batch :: post ->
  memo_exception c EARN memo (earn_invoice_list earn_batch) = None ->
  let source :=
    match channel with
    | Some ch => ch
    | None => sender
    end in
  account_info_reply w (public_key source) = inl (Agora a) ->
  submit_earn_batch fuel c sender earns channel memo w
  = (Ret (BatchEarnResult.mk []
            (map (fun earn => EarnResult.mk earn None (Some a)) earn_batch
             ++ map (fun earn => EarnResult.mk earn None None) (concat post))),
     w ++ [GetAccountInfo (public_key source)]).
Proof.
  intros Hversion Hvalid Hbatches Hmemo source Hinfo.
  apply (submit_earn_batch_Error fuel c sender earns channel memo w w []
           earn_batch post [] Hversion Hvalid Hbatches eq_refl).
  unfold _submit_earn_batch_tx.
  pose proof (earn_batch_small earns [] earn_batch post Hbatches) as Hsmall.
  destruct (Nat.ltb_spec 100 (List.length earn_batch)) as [Hbig|_]; [lia|].
  pose proof (earn_batch_builder_cases c sender earn_batch channel memo)
    as Hcases.
  rewrite Hmemo in Hcases. destruct Hcases as (b & ->).
  unfold bind.
  destruct (signers_of_first c channel sender) as (others & ->).
  rewrite (coordinator_account_error fuel c source others _ _ w (Agora a)
             Hinfo).
  reflexivity.
Qed.

Lemma submit_earn_batch_account_error_witness :
  submit_earn_batch (H := service_account_missing) 4 (client_of 0 3) alice
    earns_3 None None []
  = (Ret (BatchEarnResult.mk []
            (map
               (fun earn =>
                  EarnResult.mk earn None (Some AccountNotFoundError))
               earns_3
             ++ map (fun earn => EarnResult.mk earn None None) (concat []))),
     [] ++ [GetAccountInfo (mkPublicKey "alice"%string)]).
Proof.
  apply (@submit_earn_batch_account_error service_account_missing 4
           (client_of 0 3) alice earns_3 None None [] earns_3 []
           AccountNotFoundError eq_refl eq_refl eq_refl eq_refl eq_refl).
Defined.

Lemma earn_invoices_full (earns : list Earn.t) :
  List.length (earn_invoices earns) = List.length earns
  <-> forall earn, In earn earns -> Earn.invoice earn <> None.
Proof.
  split.
  - intros Hlen earn Hin Hnone.
    pose proof (earn_invoices_mixed earns
                  (ex_intro _ earn (conj Hin Hnone))).
    lia.
  - intros Hall. pose proof (earn_invoices_all earns Hall) as Hmap.
    apply (f_equal (@List.length (option Invoice))) in Hmap.
    rewrite !length_map in Hmap. exact Hmap.
Qed.

(** X22: the checks at the head of [submit_earn_batch] let a call
    through exactly when no earn carries an invoice, or when every earn
    carries one, the app index is positive and no (non-empty) text memo
    is given; in every other case a client of a supported version raises
    a [ValueError] without any call to the service. *)
Theorem submit_earn_batch_accepts_iff `{Collaborators}
    (fuel : nat) (c : Client) (sender : PrivateKey) (earns : list Earn.t)
    (channel : option PrivateKey) (memo : option string) (w : World) :
  (fst (validate_earn_batch c earns memo w) = Ret tt
   <-> ((forall earn, In earn earns -> Earn.invoice earn = None)
        \/ ((forall earn, In earn earns -> Earn.invoice earn <> None)
            /\ 0 < app_index c
            /\ truthy_str memo = false)))
  /\ (supported_version (_kin_version c) = true ->
      fst (validate_earn_batch c earns memo w) <> Ret tt ->
      exists msg,
        submit_earn_batch fuel c sender earns channel memo w
        = (Raise (ValueError msg), w)).
Proof.
  split.
  - split.
    + intros Hvalid. apply validate_with_memo in Hvalid.
      destruct Hvalid as [Hnone | (Hindex & Hlen & Hmemo)].
      * left. apply earn_invoices_none. exact Hnone.
      * right. split; [apply earn_invoices_full; exact Hlen | auto].
    + intros Hcases. unfold validate_earn_batch.
      destruct Hcases as [Hnone | (Hall & Hindex & Hmemo)].
      * apply earn_invoices_none in Hnone. rewrite Hnone. reflexivity.
      * apply earn_invoices_full in Hall.
        destruct (earn_invoices earns) as [|i invoices] eqn:Hi;
          [reflexivity|].
        destruct (Z.leb_spec (app_index c) 0); [lia|].
        rewrite Hall, Nat.eqb_refl, Hmemo. reflexivity.
  - intros Hversion Hinvalid.
    unfold submit_earn_batch. rewrite Hversion. cbn [negb].
    unfold bind at 1.
    destruct (validate_earn_batch_cases c earns memo w) as [Hv | (msg & Hv)];
      rewrite Hv in *; [exfalso; apply Hinvalid; reflexivity|].
    exists msg. reflexivity.
Qed.

(** X23: [_submit_earn_batch_tx] rejects more than 100 earns with a
    [ValueError] before any call to the service.  With 100 earns or fewer
    it builds the memo: when that raises, the exception is raised before
    any call to the service; otherwise it goes on to query the source
    account, that of the channel when there is one and of the sender
    otherwise. *)
Theorem submit_earn_batch_tx_capacity `{Collaborators}
    (fuel : nat) (c : Client) (sender : PrivateKey) (earns : list Earn.t)
    (channel : option PrivateKey) (memo : option string) (w : World) :
  ((100 < List.length earns)%nat ->
   _submit_earn_batch_tx fuel c sender earns channel memo w
   = (Raise (ValueError "cannot send more than 100 earns"%string), w))
  /\ ((List.length earns <= 100)%nat ->
      match memo_exception c EARN memo (earn_invoice_list earns) with
      | Some e =>
          _submit_earn_batch_tx fuel c sender earns channel memo w
          = (Raise e, w)
      | None =>
          exists submissions,
            snd (_submit_earn_batch_tx fuel c sender earns channel memo w)
            = w ++ GetAccountInfo
                     (public_key
                        match channel with
                        | Some ch => ch
                        | None => sender
                        end)
                   :: submissions
      end).
Proof.
  unfold _submit_earn_batch_tx. split.
  - intros Hbig.
    destruct (Nat.ltb_spec 100 (List.length earns)); [reflexivity | lia].
  - intros Hsmall.
    destruct (Nat.ltb_spec 100 (List.length earns)) as [Hbig|_]; [lia|].
    pose proof (earn_batch_builder_cases c sender earns channel memo)
      as Hcases.
    destruct (memo_exception c EARN memo (earn_invoice_list earns)) as [e|].
    + rewrite Hcases. reflexivity.
    + destruct Hcases as (b & ->).
      rewrite bind_keeps_state
        by (intros result w'; destruct (truthy_list _); reflexivity).
      destruct (signers_of_first c channel sender) as (others & ->).
      destruct (coordinator_trace fuel c
                  match channel with
                  | Some ch => ch
                  | None => sender
                  end
                  others b (earn_invoice_list earns) w) as (calls & Hw & _).
      exists calls. exact Hw.
Qed.

Example submit_earn_batch_tx_101 :
  _submit_earn_batch_tx (H := service_ok) 4 (client_of 0 3) alice
    (repeat earn_bob 101) None None []
  = (Raise (ValueError "cannot send more than 100 earns"%string), []).
Proof. reflexivity. Qed.

(** ** Memos that cannot be built *)



(** X25: when the memo of the first sub-batch cannot be built,
    [submit_earn_batch] makes no call to the service.  An exception that
    is not an [Error] of the library, as the one of a text memo of more
    than 28 bytes, is raised to the caller; an [Error] is caught and
    mapped onto the earns of the first sub-batch, the other earns being
    recorded as never attempted. *)
Theorem submit_earn_batch_memo_error `{Collaborators}
    (fuel : nat) (c : Client) (sender : PrivateKey) (earns : list Earn.t)
    (channel : option PrivateKey) (memo : option string) (w : World)
    (earn_batch : list Earn.t) (post : list (list Earn.t)) (e : exn) :
  supported_version (_kin_version c) = true ->
  fst (validate_earn_batch c earns memo w) = Ret tt ->
  partition earns 100 = earn_batch :: post ->
  memo_exception c EARN memo (earn_invoice_list earn_batch) = Some e ->
  submit_earn_batch fuel c sender earns channel memo w
  = match e with
    | Agora a =>
        (Ret (BatchEarnResult.mk []
                (map (fun earn => EarnResult.mk earn None (Some a)) earn_batch
                 ++ map (fun earn => EarnResult.mk earn None None)
                      (concat post))),
         w)
    | _ => (Raise e, w)
    end.
Proof.
  intros Hversion Hvalid Hbatches Hmemo.
  assert (Htx :
    _submit_earn_batch_tx fuel c sender earn_batch channel memo w
    = (Raise e, w)).
  { unfold _submit_earn_batch_tx.
    pose proof (earn_batch_small earns [] earn_batch post Hbatches) as Hsmall.
    destruct (Nat.ltb_spec 100 (List.length earn_batch)) as [Hbig|_]; [lia|].
    pose proof (earn_batch_builder_cases c sender earn_batch channel memo)
      as Hcases.
    rewrite Hmemo in Hcases. rewrite Hcases. reflexivity. }
  destruct e as [a|msg| |name].
  - exact (submit_earn_batch_Error fuel c sender earns channel memo w w []
             earn_batch post [] Hversion Hvalid Hbatches eq_refl a w Htx).
  - exact (submit_earn_batch_other_exception fuel c sender earns channel memo
             w w [] earn_batch post [] Hversion Hvalid Hbatches eq_refl _ w
             Htx eq_refl).
  - exact (submit_earn_batch_other_exception fuel c sender earns channel memo
             w w [] earn_batch post [] Hversion Hvalid Hbatches eq_refl _ w
             Htx eq_refl).
  - exact (submit_earn_batch_other_exception fuel c sender earns channel memo
             w w [] earn_batch post [] Hversion Hvalid Hbatches eq_refl _ w
             Htx eq_refl).
Qed.

Lemma submit_earn_batch_memo_error_witness :
  submit_earn_batch (H := service_ok) 4 (client_of 0 3) alice earns_3 None
    (Some "12345678901234567890123456789"%string) []
  = (Raise (OtherException "NotValidParamError"%string), []).
Proof.
  exact (@submit_earn_batch_memo_error service_ok 4 (client_of 0 3) alice
           earns_3 None (Some "12345678901234567890123456789"%string) []
           earns_3 [] (OtherException "NotValidParamError"%string)
           eq_refl eq_refl eq_refl eq_refl).
Defined.

(** ** [get_balance] *)

(** [get_balance] of a client of a supported version makes exactly
    one account query and no submission; it returns the balance of the
    account information it receives, and raises the exception of the
    query otherwise. *)
Theorem get_balance_queries_once `{Collaborators}
    (c : Client) (key : PublicKey) (w : World) :
  supported_version (_kin_version c) = true ->
  snd (get_balance c key w) = w ++ [GetAccountInfo key]
  /\ fst (get_balance c key w)
     = match account_info_reply w key with
       | inr info => Ret (balance info)
       | inl e => Raise e
       end.
Proof.
  intros Hversion. unfold get_balance. rewrite Hversion. cbn [negb].
  unfold bind, get_account_info.
  destruct (account_info_reply w key); split; reflexivity.
Qed.

Lemma get_balance_queries_once_witness :
  snd (get_balance (H := service_ok) (client_of 0 3) bob []) =
  [] ++ [GetAccountInfo bob]
  /\ fst (get_balance (H := service_ok) (client_of 0 3) bob [])
     = match account_info_reply (Collaborators := service_ok) [] bob with
       | inr info => Ret (balance info)
       | inl e => Raise e
       end.
Proof.
  apply (@get_balance_queries_once service_ok (client_of 0 3) bob [] eq_refl).
Defined.
